(** * TrackCanvas: a shallow embedding of [src/track_canvas_qt.py]

    The canvas widget of fs-trackdraw draws a satellite image, the obstacle
    contours of an occupancy map, a safety margin, the user's control
    points, the centerline, both track boundaries and cone previews, and it
    routes mouse events to its parent controller.

    The embedding follows the Python class method by method.

    - Numbers.  Python mixes [int] and [float]; every arithmetic result in
      this file is a [float].  The operations are taken from a class [Num],
      with two instances: [float_num], IEEE-754 binary64 as CPython
      computes it, and [Qc_num], exact rationals.  Integers enter through
      [of_Z].  Python's [/] raises [ZeroDivisionError] on a zero divisor;
      that is [truediv].
    - Exceptions, attributes and painting.  A method is a function from
      the canvas to an outcome, the canvas afterwards and the calls it made
      on the painter, on the parent and on [print], in order.  An exception
      keeps the attribute writes and the calls made before it, as in
      Python.
    - Qt, OpenCV, numpy, shapely and [utils_qt.sample_cones] are not part
      of the file.  The types of their values are the fields of the class
      [Types], their functions the fields of the class [Toolkit]; every
      property below holds whatever they are. *)

From Stdlib Require Import ZArith Ascii String List Bool Lia.
From Stdlib Require Import Floats.
From Stdlib Require Import QArith Qcanon Field.
Import ListNotations.

Set Implicit Arguments.

(** ** Numbers *)

Class Num (A : Type) : Type := {
  zero : A;
  one : A;
  add : A -> A -> A;
  sub : A -> A -> A;
  mul : A -> A -> A;
  opp : A -> A;
  div : A -> A -> A;
  inv : A -> A;
  eqb : A -> A -> bool;   (* Python [==] *)
  gtb : A -> A -> bool;   (* Python [>]  *)
  of_Z : Z -> A           (* an [int] used where a [float] is computed *)
}.

(** Arithmetic without rounding: the field laws hold and [eqb] decides
    equality. *)
Class ExactNum (A : Type) (N : Num A) : Prop := {
  exact_field : field_theory zero one add mul sub opp div inv (@eq A);
  eqb_eq : forall x y : A, eqb x y = true <-> x = y
}.

(** binary64, the arithmetic of CPython's [float].  An [int] becomes the
    nearest [float], ties to even, as in CPython; beyond the largest
    [float], where CPython raises [OverflowError], this is an infinity.
    The integers converted in this file are pixel counts. *)
Definition float_of_Z (z : Z) : float :=
  SF2Prim (SpecFloat.binary_normalize prec emax z 0 false).

#[export] Instance float_num : Num float := {
  zero := 0%float;
  one := 1%float;
  add := PrimFloat.add;
  sub := PrimFloat.sub;
  mul := PrimFloat.mul;
  opp := PrimFloat.opp;
  div := PrimFloat.div;
  inv := fun x => PrimFloat.div 1%float x;
  eqb := PrimFloat.eqb;
  gtb := fun x y => PrimFloat.ltb y x;
  of_Z := float_of_Z
}.

(** Exact rationals. *)
#[export] Instance Qc_num : Num Qc := {
  zero := 0%Qc;
  one := 1%Qc;
  add := Qcplus;
  sub := Qcminus;
  mul := Qcmult;
  opp := Qcopp;
  div := Qcdiv;
  inv := Qcinv;
  eqb := fun x y => Qeq_bool (this x) (this y);
  gtb := fun x y => match (y ?= x)%Qc with Lt => true | _ => false end;
  of_Z := fun z => Q2Qc (inject_Z z)
}.

(** ** Exceptions and outcomes *)

Inductive exn : Type :=
| ZeroDivisionError
| ValueError
| AttributeError
| CvError
| OtherError (name : string).

Inductive result (X : Type) : Type :=
| Ok (x : X)
| Raise (e : exn).
Arguments Ok {X} x.
Arguments Raise {X} e.

Definition is_ValueError (e : exn) : bool :=
  match e with ValueError => true | _ => false end.

Section Arithmetic.
Context {A : Type} {N : Num A}.

(** [x / y] in Python, [y] a [float]. *)
Definition truediv (x y : A) : result A :=
  if eqb y zero then Raise ZeroDivisionError else Ok (div x y).

(** [a / b] in Python, both [int]: the quotient as a [float] (correctly
    rounded; for operands below 2^53 that is the quotient of the two
    conversions). *)
Definition truediv_int (a b : Z) : result A :=
  if (b =? 0)%Z then Raise ZeroDivisionError else Ok (div (of_Z a) (of_Z b)).

End Arithmetic.

Close Scope Q_scope.
Close Scope Qc_scope.

(** ** Values of the libraries *)

(** A point in map or display coordinates, and a polygon as the list of its
    vertices. *)
Definition point (A : Type) : Type := (A * A)%type.
Definition polygon (A : Type) : Type := list (point A).

(** An element of [centerline], [left_boundary] or [right_boundary]:
    [paintEvent] asks [isinstance(pt, QPointF)] and otherwise indexes
    [pt[0]], [pt[1]]. *)
Inductive Pt (A : Type) : Type :=
| QPointF (x y : A)
| Coords (x y : A).
Arguments QPointF {A} x y.
Arguments Coords {A} x y.

(** A contour of [cv2.findContours]: an integer array of shape (n, 1, 2),
    here the list of its n points. *)
Definition contour : Type := list (Z * Z).

(** [cnt.squeeze()] drops the axes of length one: a contour of one point
    becomes the 1-D array of its two coordinates, any other contour an
    array of shape (n, 2). *)
Inductive squeezed : Type :=
| OneD (xy : Z * Z)
| TwoD (pts : list (Z * Z)).

Definition squeeze (cnt : contour) : squeezed :=
  match cnt with
  | [xy] => OneD xy
  | _ => TwoD cnt
  end.

Definition ndim (s : squeezed) : Z :=
  match s with OneD _ => 1 | TwoD _ => 2 end.

Record QColor : Type := mkQColor { red : Z; green : Z; blue : Z }.

Inductive PenStyle : Type := SolidLine | DashLine.

Record QPen : Type := mkQPen { pen_color : QColor; pen_width : Z; pen_style : PenStyle }.

(** [QPen(color, width)] is a solid pen. *)
Definition QPen_ (color : QColor) (width : Z) : QPen := mkQPen color width SolidLine.
Definition setStyle (s : PenStyle) (p : QPen) : QPen := mkQPen (pen_color p) (pen_width p) s.

Inductive AspectRatioMode : Type :=
| IgnoreAspectRatio
| KeepAspectRatio
| KeepAspectRatioByExpanding.
Inductive TransformationMode : Type := FastTransformation | SmoothTransformation.
Inductive RetrievalMode : Type := RETR_EXTERNAL | RETR_LIST | RETR_CCOMP | RETR_TREE.
Inductive ApproximationMode : Type := CHAIN_APPROX_NONE | CHAIN_APPROX_SIMPLE.
Inductive ImreadMode : Type := IMREAD_GRAYSCALE | IMREAD_COLOR.
Inductive ThresholdType : Type := THRESH_BINARY | THRESH_BINARY_INV.
Inductive RenderHint : Type := Antialiasing.

(** ** The libraries the canvas calls *)

(** The types of their values. *)
Class Types : Type := {
  QImage : Type;
  QPixmap : Type;
  ndarray : Type;
  Polygon : Type;
  geometry : Type
}.

Class Toolkit (A : Type) (Ty : Types) : Type := {
  (* PyQt5 *)
  QImage_ : string -> QImage;
  QImage_width : QImage -> Z;
  QImage_height : QImage -> Z;
  QPixmap_fromImage : QImage -> QPixmap;
  QPixmap_scaled : QPixmap -> Z -> Z -> AspectRatioMode -> TransformationMode -> QPixmap;
  QPixmap_width : QPixmap -> Z;
  QPixmap_height : QPixmap -> Z;
  (* OpenCV and numpy *)
  cv2_imread : string -> ImreadMode -> option ndarray;
  cv2_threshold : option ndarray -> Z -> Z -> ThresholdType -> result (A * option ndarray);
  cv2_findContours : option ndarray -> RetrievalMode -> ApproximationMode -> list contour;
  cv2_contourArea : contour -> A;
  shape : ndarray -> Z * Z;
  (* shapely *)
  Polygon_ : polygon A -> result Polygon;
  is_valid : Polygon -> bool;
  is_empty : Polygon -> bool;
  buffer : Polygon -> A -> result geometry;
  geometry_bool : geometry -> bool;
  geometry_is_empty : geometry -> bool;
  exterior_coords : geometry -> result (option (polygon A));
  (* builtins and utils_qt *)
  float_ : string -> option A;
  sample_cones : polygon A -> A -> A -> result (polygon A)
}.

(** An image is an array or [None]: [cv2.imread] returns [None] for a file
    it cannot read, and the canvas hands what it got to [cv2.threshold] and
    what that returned to [cv2.findContours].  [exterior_coords g] stands
    for [g.exterior] followed, when it is not [None], by
    [list(g.exterior.coords)]; a geometry without the attribute raises.
    [float_ s] is [None] where [float(s)] raises [ValueError]. *)

Section Canvas.
Context {A : Type} {Ty : Types}.

(** What the canvas reads of its parent controller. *)
Record Parent : Type := mkParent {
  fpath_location_sat_img : string;
  fpath_location_occup_img : string;
  backoff_entry_text : string;
  min_boundary_backoff : A;
  px_per_m : A;
  cone_spacing_entry_text : string;
  default_cone_distance : A;
  dragging : bool
}.

(** The attributes of a [TrackCanvas]. *)
Record Canvas : Type := mkCanvas {
  scale_x : A;
  scale_y : A;
  offset_x : A;
  offset_y : A;
  sat_image : QImage;
  sat_pixmap : QPixmap;
  binary_map : option ndarray;
  obstacle_polygons : list (polygon A);
  free_region : option Polygon;
  original_obstacle_polygons : list (polygon A);
  original_free_region : option Polygon;
  control_points : list (point A);
  centerline : option (list (Pt A));
  left_boundary : option (list (Pt A));
  right_boundary : option (list (Pt A));
  boundaries_swapped : bool
}.

(** Attribute assignment, one function per attribute the file assigns. *)
Definition set_scale_x (v : A) (c : Canvas) : Canvas :=
  mkCanvas v (scale_y c) (offset_x c) (offset_y c) (sat_image c) (sat_pixmap c)
    (binary_map c) (obstacle_polygons c) (free_region c)
    (original_obstacle_polygons c) (original_free_region c) (control_points c)
    (centerline c) (left_boundary c) (right_boundary c) (boundaries_swapped c).
Definition set_scale_y (v : A) (c : Canvas) : Canvas :=
  mkCanvas (scale_x c) v (offset_x c) (offset_y c) (sat_image c) (sat_pixmap c)
    (binary_map c) (obstacle_polygons c) (free_region c)
    (original_obstacle_polygons c) (original_free_region c) (control_points c)
    (centerline c) (left_boundary c) (right_boundary c) (boundaries_swapped c).
Definition set_obstacle_polygons (v : list (polygon A)) (c : Canvas) : Canvas :=
  mkCanvas (scale_x c) (scale_y c) (offset_x c) (offset_y c) (sat_image c) (sat_pixmap c)
    (binary_map c) v (free_region c)
    (original_obstacle_polygons c) (original_free_region c) (control_points c)
    (centerline c) (left_boundary c) (right_boundary c) (boundaries_swapped c).
Definition set_free_region (v : option Polygon) (c : Canvas) : Canvas :=
  mkCanvas (scale_x c) (scale_y c) (offset_x c) (offset_y c) (sat_image c) (sat_pixmap c)
    (binary_map c) (obstacle_polygons c) v
    (original_obstacle_polygons c) (original_free_region c) (control_points c)
    (centerline c) (left_boundary c) (right_boundary c) (boundaries_swapped c).
Definition set_original_obstacle_polygons (v : list (polygon A)) (c : Canvas) : Canvas :=
  mkCanvas (scale_x c) (scale_y c) (offset_x c) (offset_y c) (sat_image c) (sat_pixmap c)
    (binary_map c) (obstacle_polygons c) (free_region c)
    v (original_free_region c) (control_points c)
    (centerline c) (left_boundary c) (right_boundary c) (boundaries_swapped c).
Definition set_original_free_region (v : option Polygon) (c : Canvas) : Canvas :=
  mkCanvas (scale_x c) (scale_y c) (offset_x c) (offset_y c) (sat_image c) (sat_pixmap c)
    (binary_map c) (obstacle_polygons c) (free_region c)
    (original_obstacle_polygons c) v (control_points c)
    (centerline c) (left_boundary c) (right_boundary c) (boundaries_swapped c).
Definition set_control_points (v : list (point A)) (c : Canvas) : Canvas :=
  mkCanvas (scale_x c) (scale_y c) (offset_x c) (offset_y c) (sat_image c) (sat_pixmap c)
    (binary_map c) (obstacle_polygons c) (free_region c)
    (original_obstacle_polygons c) (original_free_region c) v
    (centerline c) (left_boundary c) (right_boundary c) (boundaries_swapped c).
Definition set_centerline (v : option (list (Pt A))) (c : Canvas) : Canvas :=
  mkCanvas (scale_x c) (scale_y c) (offset_x c) (offset_y c) (sat_image c) (sat_pixmap c)
    (binary_map c) (obstacle_polygons c) (free_region c)
    (original_obstacle_polygons c) (original_free_region c) (control_points c)
    v (left_boundary c) (right_boundary c) (boundaries_swapped c).
Definition set_left_boundary (v : option (list (Pt A))) (c : Canvas) : Canvas :=
  mkCanvas (scale_x c) (scale_y c) (offset_x c) (offset_y c) (sat_image c) (sat_pixmap c)
    (binary_map c) (obstacle_polygons c) (free_region c)
    (original_obstacle_polygons c) (original_free_region c) (control_points c)
    (centerline c) v (right_boundary c) (boundaries_swapped c).
Definition set_right_boundary (v : option (list (Pt A))) (c : Canvas) : Canvas :=
  mkCanvas (scale_x c) (scale_y c) (offset_x c) (offset_y c) (sat_image c) (sat_pixmap c)
    (binary_map c) (obstacle_polygons c) (free_region c)
    (original_obstacle_polygons c) (original_free_region c) (control_points c)
    (centerline c) (left_boundary c) v (boundaries_swapped c).
Definition set_boundaries_swapped (v : bool) (c : Canvas) : Canvas :=
  mkCanvas (scale_x c) (scale_y c) (offset_x c) (offset_y c) (sat_image c) (sat_pixmap c)
    (binary_map c) (obstacle_polygons c) (free_region c)
    (original_obstacle_polygons c) (original_free_region c) (control_points c)
    (centerline c) (left_boundary c) (right_boundary c) v.

(** *** Calls the canvas makes *)

Inductive effect : Type :=
(* on the QPainter of [paintEvent] *)
| SetRenderHint (h : RenderHint)
| DrawPixmap (x y : Z) (pm : QPixmap)
| SetPen (p : QPen)
| SetBrush (col : QColor)
| DrawPolygon (pts : polygon A)
| DrawPolyline (pts : polygon A)
| DrawLine (p q : point A)
| DrawEllipse (center : point A) (rx ry : Z)
(* on the widget itself *)
| Update
(* on the parent controller *)
| HandleCanvasClick (p : point A)
| HandleCanvasDrag (p : point A)
| HandleCanvasRelease (pos : Z * Z)
(* on the other modules *)
| SampleCones (pts : polygon A) (spacing ppm : A)
| Print (msg : string) (e : exn).

(** *** Methods *)

Definition M (X : Type) : Type := Canvas -> result X * Canvas * list effect.

Definition ret {X} (x : X) : M X := fun c => (Ok x, c, []).

Definition bind {X Y} (m : M X) (f : X -> M Y) : M Y :=
  fun c =>
    match m c with
    | (Ok x, c1, l1) =>
        match f x c1 with
        | (r, c2, l2) => (r, c2, l1 ++ l2)
        end
    | (Raise e, c1, l1) => (Raise e, c1, l1)
    end.

Definition raise {X} (e : exn) : M X := fun c => (Raise e, c, []).
Definition self : M Canvas := fun c => (Ok c, c, []).
Definition assign (f : Canvas -> Canvas) : M unit := fun c => (Ok tt, f c, []).
Definition call (e : effect) : M unit := fun c => (Ok tt, c, [e]).
Definition lift {X} (r : result X) : M X := fun c => (r, c, []).

(** [try: m  except <handles>: h e]. *)
Definition try_except {X} (m : M X) (handles : exn -> bool) (h : exn -> M X) : M X :=
  fun c =>
    match m c with
    | (Ok x, c1, l1) => (Ok x, c1, l1)
    | (Raise e, c1, l1) =>
        if handles e then
          match h e c1 with
          | (r, c2, l2) => (r, c2, l1 ++ l2)
          end
        else (Raise e, c1, l1)
    end.

(** [for x in xs: body x]. *)
Fixpoint for_each {X} (xs : list X) (body : X -> M unit) : M unit :=
  match xs with
  | [] => ret tt
  | x :: xs' => bind (body x) (fun _ => for_each xs' body)
  end.

Definition outcome {X} (r : result X * Canvas * list effect) : result X := fst (fst r).
Definition after {X} (r : result X * Canvas * list effect) : Canvas := snd (fst r).
Definition calls {X} (r : result X * Canvas * list effect) : list effect := snd r.

End Canvas.

Arguments Parent A : clear implicits.
Arguments Canvas A {Ty}.
Arguments effect A {Ty}.
Arguments M A {Ty} X.

Declare Scope method_scope.
Delimit Scope method_scope with method.
Notation "x <- m ;; k" := (bind m (fun x => k))
  (at level 61, m at next level, right associativity) : method_scope.
Notation "m ;; k" := (bind m (fun _ => k))
  (at level 61, right associativity) : method_scope.

(** ** The methods of [TrackCanvas] *)

Section Methods.
Context {A : Type} {N : Num A} {Ty : Types} {T : Toolkit A Ty}.
Local Open Scope method_scope.

(** [bm.shape], (rows, columns) of an array; [None] has no such attribute. *)
Definition dot_shape (bm : option ndarray) : result (Z * Z) :=
  match bm with
  | Some img => Ok (shape img)
  | None => Raise AttributeError
  end.

(** [calculate_scaling_factors]: the occupancy map is aligned with the
    satellite image. *)
Definition calculate_scaling_factors : M A unit :=
  c <- self ;;
  let sat_width := QImage_width (sat_image c) in
  let sat_height := QImage_height (sat_image c) in
  occ_shape <- lift (dot_shape (binary_map c)) ;;
  let occ_height := fst occ_shape in
  let occ_width := snd occ_shape in
  sx <- lift (truediv_int sat_width occ_width) ;;
  assign (set_scale_x sx) ;;
  sy <- lift (truediv_int sat_height occ_height) ;;
  assign (set_scale_y sy).

(** [transform_point]: map coordinates to display coordinates. *)
Definition transform_point (c : Canvas A) (map_x map_y : A) : point A :=
  (add (mul map_x (scale_x c)) (offset_x c),
   add (mul map_y (scale_y c)) (offset_y c)).

(** [inverse_transform_point]: display coordinates to map coordinates.  The
    tuple is built left to right, so the first division is tried first. *)
Definition inverse_transform_point (c : Canvas A) (display_x display_y : A)
  : result (point A) :=
  match truediv (sub display_x (offset_x c)) (scale_x c) with
  | Raise e => Raise e
  | Ok x =>
      match truediv (sub display_y (offset_y c)) (scale_y c) with
      | Raise e => Raise e
      | Ok y => Ok (x, y)
      end
  end.

(** [transform_polygon]. *)
Definition transform_polygon (c : Canvas A) (poly : polygon A) : polygon A :=
  map (fun p => transform_point c (fst p) (snd p)) poly.

(** The comprehension [[self.transform_point(p[0], p[1]) for p in pts]] over
    the integer points of a contour. *)
Definition scale_points (c : Canvas A) (pts : list (Z * Z)) : polygon A :=
  map (fun p => transform_point c (of_Z (fst p)) (of_Z (snd p))) pts.

(** [extract_obstacle_polygons]. *)
Definition extract_obstacle_polygons (c : Canvas A) (bm : option ndarray)
  : list (polygon A) :=
  let contours := cv2_findContours bm RETR_CCOMP CHAIN_APPROX_SIMPLE in
  fold_left
    (fun polys cnt =>
       match squeeze cnt with
       | OneD _ => polys
       | TwoD pts => polys ++ [scale_points c pts]
       end)
    contours [].

(** [max(first :: rest, key=key)]: the candidate and its key are kept, and
    an item replaces the candidate when its key is greater. *)
Definition max_step {X : Type} (key : X -> A) (best : X * A) (item : X) : X * A :=
  if gtb (key item) (snd best) then (item, key item) else best.

Definition max_key {X : Type} (key : X -> A) (first : X) (rest : list X) : X :=
  fst (fold_left (max_step key) rest (first, key first)).

(** [np.array_equal] on two points. *)
Definition array_equal (p q : Z * Z) : bool :=
  (fst p =? fst q)%Z && (snd p =? snd q)%Z.

(** The ring handed to [Polygon]: the contour, with its first point
    repeated at the end unless it already ends there. *)
Definition close_ring (pts : list (Z * Z)) : list (Z * Z) :=
  match pts with
  | [] => pts
  | p0 :: _ => if negb (array_equal p0 (last pts p0)) then pts ++ [p0] else pts
  end.

(** [extract_free_region]. *)
Definition extract_free_region (bm : option ndarray) : M A (option Polygon) :=
  let contours := cv2_findContours bm RETR_CCOMP CHAIN_APPROX_SIMPLE in
  match contours with
  | [] => ret None
  | cnt0 :: rest =>
      let largest := max_key cv2_contourArea cnt0 rest in
      match squeeze largest with
      | OneD _ => ret None
      | TwoD pts =>
          if (length pts <? 3)%nat then ret None
          else
            let pts := close_ring pts in
            try_except
              (c <- self ;;
               let scaled_pts := scale_points c pts in
               poly <- lift (Polygon_ scaled_pts) ;;
               if negb (is_valid poly) || is_empty poly then ret None
               else ret (Some poly))
              (fun _ => true)
              (fun e =>
                 call (Print "Error creating free region polygon:"%string e) ;;
                 ret None)
      end
  end.

(** [update_drawing]. *)
Definition update_drawing (cps : list (point A)) (cl lb rb : option (list (Pt A)))
  (swapped : bool) : M A unit :=
  assign (set_control_points cps) ;;
  assign (set_centerline cl) ;;
  assign (set_left_boundary lb) ;;
  assign (set_right_boundary rb) ;;
  assign (set_boundaries_swapped swapped) ;;
  call Update.

(** *** [paintEvent], block by block *)

(** [float(text)]. *)
Definition py_float (text : string) : M A A :=
  match float_ text with
  | Some v => ret v
  | None => raise ValueError
  end.

(** The truth value of [b and len(b) > 1] for a boundary or centerline
    that is [None] or a list. *)
Definition drawable (b : option (list (Pt A))) : bool :=
  match b with
  | None => false
  | Some pts => negb (length pts =? 0)%nat && (1 <? length pts)%nat
  end.

Definition points_of (b : option (list (Pt A))) : list (Pt A) :=
  match b with
  | None => []
  | Some pts => pts
  end.

(** The two branches of the [isinstance(pt, QPointF)] test. *)
Definition xy (pt : Pt A) : point A :=
  match pt with
  | QPointF x y => (x, y)
  | Coords x y => (x, y)
  end.

Definition display_point (c : Canvas A) (pt : Pt A) : point A :=
  match pt with
  | QPointF x y => transform_point c x y
  | Coords x y => transform_point c x y
  end.

Definition magenta_dashes : QPen := setStyle DashLine (QPen_ (mkQColor 255 0 255) 2).

(** The scaled satellite image, and the scales that follow from it. *)
Definition paint_image (width height : Z) : M A unit :=
  call (SetRenderHint Antialiasing) ;;
  c <- self ;;
  let scaled_pixmap :=
    QPixmap_scaled (sat_pixmap c) width height KeepAspectRatio SmoothTransformation in
  call (DrawPixmap 0 0 scaled_pixmap) ;;
  occ_shape <- lift (dot_shape (binary_map c)) ;;
  sx <- lift (truediv_int (QPixmap_width scaled_pixmap) (snd occ_shape)) ;;
  assign (set_scale_x sx) ;;
  occ_shape <- lift (dot_shape (binary_map c)) ;;
  sy <- lift (truediv_int (QPixmap_height scaled_pixmap) (fst occ_shape)) ;;
  assign (set_scale_y sy).

Definition paint_obstacles : M A unit :=
  call (SetPen (QPen_ (mkQColor 255 0 0) 2)) ;;
  c <- self ;;
  for_each (original_obstacle_polygons c)
    (fun poly =>
       let scaled_poly := transform_polygon c poly in
       call (DrawPolygon scaled_poly)).

Definition paint_safe_region (parent : Parent A) : M A unit :=
  backoff_val <- try_except (py_float (backoff_entry_text parent)) is_ValueError
                   (fun _ => ret (min_boundary_backoff parent)) ;;
  let backoff_px := mul backoff_val (px_per_m parent) in
  c <- self ;;
  match free_region c with
  | None => ret tt
  | Some fr =>
      safe_region <- lift (buffer fr (opp backoff_px)) ;;
      if geometry_bool safe_region && negb (geometry_is_empty safe_region) then
        ext <- lift (exterior_coords safe_region) ;;
        match ext with
        | None => ret tt
        | Some coords =>
            if (4 <=? length coords)%nat then
              let scaled_coords := map (fun p => transform_point c (fst p) (snd p)) coords in
              call (SetPen magenta_dashes) ;;
              call (DrawPolygon scaled_coords)
            else ret tt
        end
      else ret tt
  end.

Definition paint_control_points : M A unit :=
  c <- self ;;
  let n := length (control_points c) in
  for_each (combine (seq 0 n) (control_points c))
    (fun ipt =>
       let i := fst ipt in
       let pt := snd ipt in
       let display_pt := transform_point c (fst pt) (snd pt) in
       (if (i =? 0)%nat && (2 <? n)%nat then call (SetBrush (mkQColor 255 0 0))
        else if (i =? n - 1)%nat && (2 <? n)%nat then call (SetBrush (mkQColor 0 0 255))
        else call (SetBrush (mkQColor 0 255 0))) ;;
       call (SetPen (QPen_ (mkQColor 0 0 0) 1)) ;;
       call (DrawEllipse display_pt 5 5)).

Definition paint_centerline : M A unit :=
  c <- self ;;
  if drawable (centerline c) then
    call (SetPen (setStyle DashLine (QPen_ (mkQColor 0 255 0) 2))) ;;
    let display_points := map (display_point c) (points_of (centerline c)) in
    let origin := (of_Z 0, of_Z 0) in
    for_each (seq 1 (length display_points - 1))
      (fun i =>
         call (DrawLine (nth (i - 1) display_points origin) (nth i display_points origin)))
  else ret tt.

Definition paint_boundary (boundary : option (list (Pt A))) (color : QColor) : M A unit :=
  c <- self ;;
  if drawable boundary then
    call (SetPen (QPen_ color 2)) ;;
    let display_points := map (display_point c) (points_of boundary) in
    call (DrawPolyline display_points)
  else ret tt.

Definition paint_boundaries : M A unit :=
  c <- self ;;
  paint_boundary (left_boundary c)
    (if negb (boundaries_swapped c) then mkQColor 0 0 255 else mkQColor 255 255 0) ;;
  paint_boundary (right_boundary c)
    (if negb (boundaries_swapped c) then mkQColor 255 255 0 else mkQColor 0 0 255).

Definition paint_boundary_cones (parent : Parent A) (cone_spacing : A)
  (boundary : option (list (Pt A))) (color : QColor) : M A unit :=
  c <- self ;;
  if drawable boundary then
    let boundary_points := map xy (points_of boundary) in
    call (SampleCones boundary_points cone_spacing (px_per_m parent)) ;;
    cones <- lift (sample_cones boundary_points cone_spacing (px_per_m parent)) ;;
    call (SetBrush color) ;;
    call (SetPen (QPen_ (mkQColor 0 0 0) 1)) ;;
    for_each cones
      (fun pt => call (DrawEllipse (transform_point c (fst pt) (snd pt)) 3 3))
  else ret tt.

Definition paint_cones (parent : Parent A) : M A unit :=
  cone_spacing <- try_except (py_float (cone_spacing_entry_text parent)) is_ValueError
                    (fun _ => ret (default_cone_distance parent)) ;;
  c <- self ;;
  paint_boundary_cones parent cone_spacing (left_boundary c)
    (if boundaries_swapped c then mkQColor 255 255 0 else mkQColor 0 0 255) ;;
  paint_boundary_cones parent cone_spacing (right_boundary c)
    (if boundaries_swapped c then mkQColor 0 0 255 else mkQColor 255 255 0).

(** [paintEvent]; [width] and [height] are the widget's [self.width()] and
    [self.height()]. *)
Definition paintEvent (parent : Parent A) (width height : Z) : M A unit :=
  paint_image width height ;;
  paint_obstacles ;;
  paint_safe_region parent ;;
  paint_control_points ;;
  paint_centerline ;;
  paint_boundaries ;;
  paint_cones parent.

(** *** Mouse events; [pos] is [event.pos()], in widget pixels *)

Definition mousePressEvent (parent : Parent A) (pos : Z * Z) : M A unit :=
  c <- self ;;
  map_xy <- lift (inverse_transform_point c (of_Z (fst pos)) (of_Z (snd pos))) ;;
  call (HandleCanvasClick (fst map_xy, snd map_xy)).

Definition mouseMoveEvent (parent : Parent A) (pos : Z * Z) : M A unit :=
  if dragging parent then
    c <- self ;;
    map_xy <- lift (inverse_transform_point c (of_Z (fst pos)) (of_Z (snd pos))) ;;
    call (HandleCanvasDrag (fst map_xy, snd map_xy))
  else ret tt.

Definition mouseReleaseEvent (parent : Parent A) (pos : Z * Z) : M A unit :=
  call (HandleCanvasRelease pos).

(** *** Construction *)

(** The attributes in the order [__init__] assigns them, run on a canvas
    that holds the images and, for the attributes not assigned yet, an empty
    list, [None] or [False]; no method reads those before they are set. *)
Definition init_attributes : M A unit :=
  c <- self ;;
  assign (set_obstacle_polygons (extract_obstacle_polygons c (binary_map c))) ;;
  fr <- extract_free_region (binary_map c) ;;
  assign (set_free_region fr) ;;
  c <- self ;;
  assign (set_original_obstacle_polygons (extract_obstacle_polygons c (binary_map c))) ;;
  ofr <- extract_free_region (binary_map c) ;;
  assign (set_original_free_region ofr) ;;
  calculate_scaling_factors ;;
  assign (set_control_points []) ;;
  assign (set_centerline None) ;;
  assign (set_left_boundary None) ;;
  assign (set_right_boundary None) ;;
  assign (set_boundaries_swapped false).

(** [TrackCanvas(parent)]: [Ok c] is the constructed canvas.  [occ_img] is
    whatever [cv2.imread] returned, [None] for a file it cannot read;
    nothing tests it before it is thresholded. *)
Definition __init__ (parent : Parent A) : result (Canvas A) :=
  let sat_image := QImage_ (fpath_location_sat_img parent) in
  let sat_pixmap := QPixmap_fromImage sat_image in
  let occ_img := cv2_imread (fpath_location_occup_img parent) IMREAD_GRAYSCALE in
  match cv2_threshold occ_img 128 255 THRESH_BINARY with
  | Raise e => Raise e
  | Ok (_, bm) =>
      let blank :=
        mkCanvas one one (of_Z 0) (of_Z 0) sat_image sat_pixmap bm
          [] None [] None [] None None None false in
      match init_attributes blank with
      | (Ok _, c, _) => Ok c
      | (Raise e, _, _) => Raise e
      end
  end.

End Methods.

(** ** A world to run the canvas in

    A small world in which the methods compute, over binary64.  It stands
    in for Qt, OpenCV, shapely and [utils_qt] as far as the examples of
    this file go, and follows them where it can:

    - the satellite image file has the size [sat_size]; (0, 0) is Qt's null
      image, what [QImage(path)] is for a file that cannot be loaded.  A
      pixmap is scaled as [QPixmap::scaled] does it: a null pixmap and an
      empty target size give the null pixmap, otherwise the size is
      [QSize::scaled] and at least 1 x 1;
    - the occupancy image file holds the pixel rows [occ], or cannot be
      read; [cv2.threshold] and [cv2.findContours] hand back [None] and no
      contour for [None].  The contours of an image are not traced from
      its pixels but given by [contours]; an area is the shoelace area;
    - [float] reads a decimal literal with sign, fraction, exponent and
      underscores, [inf], [infinity] and [nan], correctly rounded;
    - a polygon is its closed ring, the empty polygon the empty ring.
      [Polygon] closes the ring and wants four coordinates; a ring is valid
      when no two of its edges cross, touch or fold back.  [buffer] rejects
      a distance that is not finite, as shapely does, and moves the sides
      of an axis-parallel rectangle inwards for a negative distance; other
      buffers are beyond this world and raise;
    - [sample_cones] puts a cone on every point of the boundary. *)

Module Demo.

(** [QSize::scaled]. *)
Definition scaled_size (size : Z * Z) (w h : Z) (mode : AspectRatioMode) : Z * Z :=
  match mode with
  | IgnoreAspectRatio => (w, h)
  | _ =>
      if ((fst size =? 0) || (snd size =? 0))%Z then (w, h)
      else
        let rw := Z.quot (h * fst size) (snd size) in
        let use_height :=
          match mode with
          | KeepAspectRatio => (rw <=? w)%Z
          | _ => (w <=? rw)%Z
          end in
        if use_height then (rw, h) else (w, Z.quot (w * snd size) (fst size))
  end.

(** [QPixmap::scaled]. *)
Definition pixmap_scaled (pm : Z * Z) (w h : Z) (mode : AspectRatioMode) : Z * Z :=
  if ((fst pm =? 0) && (snd pm =? 0))%Z then (0, 0)%Z
  else if ((w <? 1) || (h <? 1))%Z then (0, 0)%Z
  else
    let size := scaled_size pm w h mode in
    (Z.max (fst size) 1, Z.max (snd size) 1).

(** The shoelace sum of a contour, twice its signed area. *)
Fixpoint shoelace (first prev : Z * Z) (pts : list (Z * Z)) : Z :=
  match pts with
  | [] => (fst prev * snd first - fst first * snd prev)%Z
  | p :: rest => (fst prev * snd p - fst p * snd prev + shoelace first p rest)%Z
  end.

Definition twice_area (cnt : contour) : Z :=
  match cnt with
  | [] => 0%Z
  | p :: rest => Z.abs (shoelace p p rest)
  end.

(** *** [float(text)] *)

(** The [float] nearest to [m / d], for [d] positive: the quotient to 64
    bits and more, and a last bit that tells whether anything was cut
    off. *)
Definition float_of_ratio (m d : Z) : float :=
  let s := Z.max 0 (64 + Z.log2 d - Z.log2 (Z.abs m)) in
  let n := (Z.abs m * 2 ^ s)%Z in
  let q := (n / d)%Z in
  let sticky := if (n mod d =? 0)%Z then 0%Z else 1%Z in
  let x :=
    SF2Prim (SpecFloat.binary_normalize prec emax (2 * q + sticky) (- (s + 1)) false) in
  if (m <? 0)%Z then PrimFloat.opp x else x.

(** [m] times ten to the [k]. *)
Definition decimal (m k : Z) : float :=
  if (0 <=? k)%Z then float_of_Z (m * 10 ^ k) else float_of_ratio m (10 ^ (- k)).

Definition code (ch : ascii) : Z := Z.of_nat (nat_of_ascii ch).

Definition is_space (ch : ascii) : bool :=
  ((code ch =? 32) || ((9 <=? code ch) && (code ch <=? 13)))%Z.

Definition digit_of (ch : ascii) : option Z :=
  if ((48 <=? code ch) && (code ch <=? 57))%Z then Some (code ch - 48)%Z else None.

Definition lower (ch : ascii) : ascii :=
  if ((65 <=? code ch) && (code ch <=? 90))%Z then ascii_of_nat (nat_of_ascii ch + 32)
  else ch.

Fixpoint lstrip (l : list ascii) : list ascii :=
  match l with
  | ch :: rest => if is_space ch then lstrip rest else l
  | [] => []
  end.

Definition strip (l : list ascii) : list ascii := rev (lstrip (rev (lstrip l))).

(** Digits, with single underscores between them: the number read on top
    of [acc], how many digits there were, and what follows. *)
Fixpoint digits (l : list ascii) (acc n : Z) : Z * Z * list ascii :=
  match l with
  | [] => (acc, n, [])
  | ch :: rest =>
      match digit_of ch with
      | Some d => digits rest (10 * acc + d)%Z (n + 1)%Z
      | None =>
          if ((code ch =? 95) && (0 <? n))%Z then
            match rest with
            | ch' :: _ =>
                match digit_of ch' with
                | Some _ => digits rest acc n
                | None => (acc, n, l)
                end
            | [] => (acc, n, l)
            end
          else (acc, n, l)
      end
  end.

Definition sign_of (l : list ascii) : bool * list ascii :=
  match l with
  | ch :: rest =>
      if (code ch =? 45)%Z then (true, rest)
      else if (code ch =? 43)%Z then (false, rest)
      else (false, l)
  | [] => (false, l)
  end.

(** The exponent part, or nothing. *)
Definition exponent (l : list ascii) : option Z :=
  match l with
  | [] => Some 0%Z
  | ch :: rest =>
      if (code (lower ch) =? 101)%Z then
        let '(neg, rest) := sign_of rest in
        let '(e, n, rest) := digits rest 0 0 in
        match rest with
        | [] => if (n =? 0)%Z then None else Some (if neg then - e else e)%Z
        | _ => None
        end
      else None
  end.

Definition parse_float (text : string) : option float :=
  let '(neg, l) := sign_of (strip (list_ascii_of_string text)) in
  let signed := fun x : float => if neg then PrimFloat.opp x else x in
  let word := string_of_list_ascii (map lower l) in
  if (word =? "inf")%string || (word =? "infinity")%string then Some (signed infinity)
  else if (word =? "nan")%string then Some nan
  else
    let '(ip, ni, l) := digits l 0 0 in
    let '(m, nf, l) :=
      match l with
      | ch :: rest => if (code ch =? 46)%Z then digits rest ip 0 else (ip, 0%Z, l)
      | [] => (ip, 0%Z, l)
      end in
    if (ni + nf =? 0)%Z then None
    else
      match exponent l with
      | Some e => Some (signed (decimal m (e - nf)))
      | None => None
      end.

(** *** Polygons *)

Definition types {A : Type} : Types := {|
  QImage := Z * Z;
  QPixmap := Z * Z;
  ndarray := list (list Z);
  Polygon := polygon A;
  geometry := polygon A
|}.

Definition same_point (p q : point float) : bool :=
  PrimFloat.eqb (fst p) (fst q) && PrimFloat.eqb (snd p) (snd q).

(** [Polygon(pts)]. *)
Definition closed_ring (pts : polygon float) : result (polygon float) :=
  match pts with
  | [] => Ok []
  | p0 :: _ =>
      let ring := if same_point p0 (last pts p0) then pts else pts ++ [p0] in
      if (length ring <? 4)%nat then Raise ValueError else Ok ring
  end.

(** On which side of the line from [a] to [b] the point [c] lies: positive
    to the left. *)
Definition side (a b c : point float) : float :=
  ((fst b - fst a) * (snd c - snd a) - (snd b - snd a) * (fst c - fst a))%float.

Definition between (a b x : float) : bool :=
  (PrimFloat.leb a x && PrimFloat.leb x b) || (PrimFloat.leb b x && PrimFloat.leb x a).

Definition on_segment (a b c : point float) : bool :=
  PrimFloat.eqb (side a b c) 0 && between (fst a) (fst b) (fst c)
  && between (snd a) (snd b) (snd c).

Definition opposite (x y : float) : bool :=
  (PrimFloat.ltb x 0 && PrimFloat.ltb 0 y) || (PrimFloat.ltb 0 x && PrimFloat.ltb y 0).

(** Two segments that cross or touch. *)
Definition segments_meet (e f : point float * point float) : bool :=
  let '(a, b) := e in
  let '(c, d) := f in
  (opposite (side a b c) (side a b d) && opposite (side c d a) (side c d b))
  || on_segment a b c || on_segment a b d || on_segment c d a || on_segment c d b.

(** The edge from [a] to [b] and the edge from [b] to [c] fold back onto
    each other. *)
Definition doubles_back (a b c : point float) : bool :=
  PrimFloat.eqb (side a b c) 0
  && PrimFloat.ltb 0
       (((fst a - fst b) * (fst c - fst b) + (snd a - snd b) * (snd c - snd b))%float).

Definition edges (ring : polygon float) : list (point float * point float) :=
  combine ring (tl ring).

(** The edge [i] against every later edge: it must not meet it, and not
    fold back onto it where the two share a vertex, as it does with the
    next edge and, the first edge, with the last. *)
Definition edge_clear (es : list (point float * point float)) (i : nat) : bool :=
  let n := length es in
  match nth_error es i with
  | None => true
  | Some e =>
      forallb
        (fun j =>
           match nth_error es j with
           | None => true
           | Some f =>
               if (j =? i + 1)%nat then negb (doubles_back (fst e) (snd e) (snd f))
               else if (i =? 0)%nat && (j =? n - 1)%nat then
                 negb (doubles_back (fst f) (snd f) (snd e))
               else negb (segments_meet e f)
           end)
        (seq (i + 1) (n - (i + 1)))
  end.

Definition ring_valid (ring : polygon float) : bool :=
  let es := edges ring in
  forallb (edge_clear es) (seq 0 (length es)).

Definition is_finite (x : float) : bool := PrimFloat.eqb (x - x)%float 0.

Definition least (xs : list float) (x0 : float) : float :=
  fold_left (fun m x => if PrimFloat.ltb x m then x else m) xs x0.
Definition greatest (xs : list float) (x0 : float) : float :=
  fold_left (fun m x => if PrimFloat.ltb m x then x else m) xs x0.

(** A closed ring of four sides along the axes, as its two corners. *)
Definition rectangle (ring : polygon float) : option (point float * point float) :=
  match ring with
  | p0 :: _ :: _ :: _ :: [p4] =>
      let lo := (least (map fst ring) (fst p0), least (map snd ring) (snd p0)) in
      let hi := (greatest (map fst ring) (fst p0), greatest (map snd ring) (snd p0)) in
      let corner := fun p : point float =>
        (PrimFloat.eqb (fst p) (fst lo) || PrimFloat.eqb (fst p) (fst hi))
        && (PrimFloat.eqb (snd p) (snd lo) || PrimFloat.eqb (snd p) (snd hi)) in
      let turns := fun e : point float * point float =>
        xorb (PrimFloat.eqb (fst (fst e)) (fst (snd e)))
             (PrimFloat.eqb (snd (fst e)) (snd (snd e))) in
      if same_point p0 p4 && forallb corner ring && forallb turns (edges ring)
      then Some (lo, hi) else None
  | _ => None
  end.

(** [poly.buffer(distance)]. *)
Definition ring_buffer (ring : polygon float) (distance : float) : result (polygon float) :=
  if negb (is_finite distance) then Raise ValueError
  else if PrimFloat.eqb distance 0 then Ok ring
  else
    match ring with
    | [] => Ok []
    | _ =>
        match rectangle ring with
        | Some (lo, hi) =>
            if PrimFloat.ltb distance 0 then
              let x0 := (fst lo - distance)%float in
              let y0 := (snd lo - distance)%float in
              let x1 := (fst hi + distance)%float in
              let y1 := (snd hi + distance)%float in
              if PrimFloat.ltb x0 x1 && PrimFloat.ltb y0 y1
              then Ok [(x0, y0); (x0, y1); (x1, y1); (x1, y0); (x0, y0)]
              else Ok []
            else Raise (OtherError "beyond this world")
        | None => Raise (OtherError "beyond this world")
        end
    end.

Definition toolkit (sat_size : Z * Z) (occ : option (list (list Z)))
  (contours : list contour) : Toolkit float (@types float) :=
  @Build_Toolkit float (@types float)
    (* QImage_ *) (fun _ => sat_size)
    (* QImage_width *) fst
    (* QImage_height *) snd
    (* QPixmap_fromImage *) (fun img => img)
    (* QPixmap_scaled *) (fun pm w h mode _ => pixmap_scaled pm w h mode)
    (* QPixmap_width *) fst
    (* QPixmap_height *) snd
    (* cv2_imread *) (fun _ _ => occ)
    (* cv2_threshold *)
    (fun img thresh maxval _ =>
       Ok (float_of_Z thresh,
           option_map (map (map (fun v => if (thresh <? v)%Z then maxval else 0%Z))) img))
    (* cv2_findContours *)
    (fun img _ _ => match img with Some _ => contours | None => [] end)
    (* cv2_contourArea *) (fun cnt => PrimFloat.div (float_of_Z (twice_area cnt)) 2)
    (* shape *) (fun img => (Z.of_nat (length img), Z.of_nat (length (hd [] img))))
    (* Polygon_ *) closed_ring
    (* is_valid *) ring_valid
    (* is_empty *) (fun ring => (length ring =? 0)%nat)
    (* buffer *) ring_buffer
    (* geometry_bool *) (fun g => negb (length g =? 0)%nat)
    (* geometry_is_empty *) (fun g => (length g =? 0)%nat)
    (* exterior_coords *) (fun g => Ok (Some g))
    (* float_ *) parse_float
    (* sample_cones *) (fun pts _ _ => Ok pts).

(** A 30 x 30 occupancy image, free everywhere, under a 100 x 100
    satellite image; one square contour. *)
Definition occupancy : list (list Z) := repeat (repeat 255%Z 30) 30.
Definition square : contour := [(0, 0); (0, 29); (29, 29); (29, 0)]%Z.

(** Contours of several sizes: a single point, a triangle, two squares of
    the same area and a smaller one. *)
Definition dot : contour := [(3, 3)]%Z.
Definition triangle : contour := [(1, 1); (1, 5); (5, 1)]%Z.
Definition first_square : contour := [(0, 0); (0, 10); (10, 10); (10, 0)]%Z.
Definition second_square : contour := [(15, 15); (15, 25); (25, 25); (25, 15)]%Z.
Definition small_square : contour := [(20, 2); (20, 6); (24, 6); (24, 2)]%Z.
Definition several : list contour :=
  [dot; triangle; first_square; small_square; second_square].

(** A parent whose backoff entry reads [backoff] (metres), at 10 pixels to
    the metre; the cone spacing entry does not parse. *)
Definition parent_reading {A : Type} {N : Num A} (backoff : string) : Parent A :=
  mkParent "sat.png" "occ.png" backoff (of_Z 1) (of_Z 10) "abc" (of_Z 5) true.

Definition parent {A : Type} {N : Num A} : Parent A := parent_reading "0.5".

Definition world_of (sat_size : Z * Z) : Toolkit float (@types float) :=
  toolkit sat_size (Some occupancy) [square].

Definition world : Toolkit float (@types float) := world_of (100, 100)%Z.

(** The same world with the satellite image file missing. *)
Definition world_without_image : Toolkit float (@types float) := world_of (0, 0)%Z.

(** The same world with the occupancy image file missing. *)
Definition world_without_map : Toolkit float (@types float) :=
  toolkit (100, 100)%Z None [square].

(** The same world with several contours in the occupancy image. *)
Definition world_of_several : Toolkit float (@types float) :=
  toolkit (100, 100)%Z (Some occupancy) several.

(** A canvas with a track on it. *)
Definition boundary {A : Type} {N : Num A} (x : Z) : option (list (Pt A)) :=
  Some [QPointF (of_Z x) (of_Z 5); Coords (of_Z x) (of_Z 15); QPointF (of_Z x) (of_Z 25)].

Definition canvas {A : Type} {N : Num A} : Canvas A (Ty := @types A) :=
  mkCanvas (Ty := @types A) (of_Z 3) (of_Z 2) (of_Z 0) (of_Z 0)
    (100, 100)%Z (100, 100)%Z (Some occupancy)
    [] (Some [(of_Z 0, of_Z 0); (of_Z 0, of_Z 29); (of_Z 29, of_Z 29);
              (of_Z 29, of_Z 0); (of_Z 0, of_Z 0)])
    [] None
    [(of_Z 15, of_Z 5); (of_Z 15, of_Z 25)]
    (boundary 15) (boundary 10) (boundary 20) false.

(** The canvas [TrackCanvas(parent)] constructs in a world. *)
Definition constructed_in (world : Toolkit float (@types float))
  : Canvas float (Ty := @types float) :=
  match __init__ (T := world) parent with
  | Ok c => c
  | Raise _ => canvas
  end.

Definition constructed : Canvas float (Ty := @types float) := constructed_in world.

Definition constructed_without_image : Canvas float (Ty := @types float) :=
  constructed_in world_without_image.

End Demo.

(** ** What is observed of a run *)

Section Observations.
Context {A : Type} {N : Num A} {Ty : Types} {T : Toolkit A Ty}.

(** The polygons drawn, each with the pen the painter held then; [pen] is
    the pen at the start of the log. *)
Fixpoint polygons_drawn (pen : QPen) (log : list (effect A)) : list (QPen * polygon A) :=
  match log with
  | [] => []
  | SetPen p :: rest => polygons_drawn p rest
  | DrawPolygon pts :: rest => (pen, pts) :: polygons_drawn pen rest
  | _ :: rest => polygons_drawn pen rest
  end.

(** The pen of a fresh [QPainter]. *)
Definition default_pen : QPen := QPen_ (mkQColor 0 0 0) 1.

Definition red_pen : QPen := QPen_ (mkQColor 255 0 0) 2.

(** The calls of [sample_cones], with their arguments. *)
Definition sample_calls (log : list (effect A)) : list (polygon A * A * A) :=
  flat_map
    (fun e => match e with SampleCones pts spacing ppm => [(pts, spacing, ppm)] | _ => [] end)
    log.

(** The cone markers: the ellipses of radius 3. *)
Definition cone_dots (log : list (effect A)) : list (point A) :=
  flat_map
    (fun e =>
       match e with
       | DrawEllipse center rx ry => if ((rx =? 3) && (ry =? 3))%Z then [center] else []
       | _ => []
       end)
    log.

(** Every call of a method satisfies [P]. *)
Definition emits {X : Type} (P : effect A -> Prop) (m : M A X) : Prop :=
  forall c, Forall P (calls (m c)).

(** A method leaves the canvas related by [R] to what it was. *)
Definition keeps {X : Type} (R : Canvas A -> Canvas A -> Prop) (m : M A X) : Prop :=
  forall c, R c (after (m c)).

Definition not_DrawPolygon (e : effect A) : Prop :=
  match e with DrawPolygon _ => False | _ => True end.

Definition not_cone_call (e : effect A) : Prop :=
  match e with
  | SampleCones _ _ _ => False
  | DrawEllipse _ rx ry => ((rx =? 3) && (ry =? 3))%Z = false
  | _ => True
  end.

Definition same_boundaries (c c' : Canvas A) : Prop :=
  left_boundary c' = left_boundary c /\ right_boundary c' = right_boundary c.

(** Everything but the two scales is the same. *)
Definition same_but_scales (c c' : Canvas A) : Prop :=
  c' = set_scale_y (scale_y c') (set_scale_x (scale_x c') c).

(** *** The words of the specification *)

(** The contour of the largest area, the first one among equals. *)
Definition is_largest (contours : list contour) (largest : contour) : Prop :=
  exists before later,
    contours = before ++ largest :: later /\
    (forall cnt, In cnt before ->
       gtb (cv2_contourArea largest) (cv2_contourArea cnt) = true) /\
    (forall cnt, In cnt later ->
       gtb (cv2_contourArea cnt) (cv2_contourArea largest) = false).

(** [>] orders the areas of the contours: a strict order in which areas
    that are not comparable are ties.  It does so for areas that are
    numbers; binary64 [>] fails it on NaN only. *)
Definition areas_ordered (contours : list contour) : Prop :=
  forall a b c, In a contours -> In b contours -> In c contours ->
    (gtb (cv2_contourArea a) (cv2_contourArea b) = true ->
     gtb (cv2_contourArea b) (cv2_contourArea a) = false) /\
    (gtb (cv2_contourArea a) (cv2_contourArea b) = true ->
     gtb (cv2_contourArea c) (cv2_contourArea b) = false ->
     gtb (cv2_contourArea a) (cv2_contourArea c) = true).

(** The contour closed: its first point appended whenever the first and
    the last point differ. *)
Definition closed_contour (pts ring : list (Z * Z)) : Prop :=
  exists p0 pn, hd_error pts = Some p0 /\ last pts p0 = pn /\
    ((p0 <> pn /\ ring = pts ++ [p0]) \/ (p0 = pn /\ ring = pts)).

(** The polygon built from the points [ring] cannot be used: the
    construction raises, or the polygon is invalid or empty. *)
Definition polygon_unusable (ring : polygon A) : Prop :=
  (exists e, Polygon_ ring = Raise e) \/
  (exists poly, Polygon_ ring = Ok poly /\
     (is_valid poly = false \/ is_empty poly = true)).

(** A boundary that is not empty and has more than one point. *)
Definition has_points (b : option (list (Pt A))) : Prop :=
  exists pts, b = Some pts /\ pts <> [] /\ (1 < length pts)%nat.

(** The backoff distance and the cone spacing: the entry parsed as a float,
    else the parent's default. *)
Definition parsed_or (text : string) (default : A) : A :=
  match float_ text with
  | Some v => v
  | None => default
  end.

(** The safe region is drawn from the exterior [coords] of
    [fr.buffer(-backoff_val * px_per_m)]: the free region is [fr], the
    buffered region [safe_region] is true and not empty, its exterior is
    not [None], and the exterior has at least 4 coordinates. *)
Definition safe_region_conditions (parent : Parent A) (c : Canvas A) (fr : Polygon)
  (coords : polygon A) : Prop :=
  let backoff_val := parsed_or (backoff_entry_text parent) (min_boundary_backoff parent) in
  free_region c = Some fr /\
  exists safe_region,
  buffer fr (opp (mul backoff_val (px_per_m parent))) = Ok safe_region /\
  geometry_bool safe_region = true /\
  geometry_is_empty safe_region = false /\
  exterior_coords safe_region = Ok (Some coords) /\
  (4 <= length coords)%nat.

(** *** Sequences of operations *)

(** The methods that act on the canvas.  [transform_point],
    [inverse_transform_point], [transform_polygon] and
    [extract_obstacle_polygons] only compute a value from it. *)
Inductive operation : Type :=
| do_calculate_scaling_factors
| do_extract_free_region (bm : option ndarray)
| do_update_drawing (cps : list (point A)) (cl lb rb : option (list (Pt A))) (swapped : bool)
| do_paintEvent (parent : Parent A) (width height : Z)
| do_mousePressEvent (parent : Parent A) (pos : Z * Z)
| do_mouseMoveEvent (parent : Parent A) (pos : Z * Z)
| do_mouseReleaseEvent (parent : Parent A) (pos : Z * Z).

Definition perform (op : operation) : M A unit :=
  match op with
  | do_calculate_scaling_factors => calculate_scaling_factors
  | do_extract_free_region bm => bind (extract_free_region bm) (fun _ => ret tt)
  | do_update_drawing cps cl lb rb swapped => update_drawing cps cl lb rb swapped
  | do_paintEvent parent width height => paintEvent parent width height
  | do_mousePressEvent parent pos => mousePressEvent parent pos
  | do_mouseMoveEvent parent pos => mouseMoveEvent parent pos
  | do_mouseReleaseEvent parent pos => mouseReleaseEvent parent pos
  end.

(** The canvas after a sequence of operations; one that raises leaves the
    canvas as it was when the exception left the method. *)
Definition run (ops : list operation) (c : Canvas A) : Canvas A :=
  fold_left (fun c op => after (perform op c)) ops c.

(** The boundaries the parent passed last, [None] and [None] before the
    first [update_drawing]. *)
Definition boundaries_passed (ops : list operation)
  : option (list (Pt A)) * option (list (Pt A)) :=
  fold_left
    (fun acc op =>
       match op with
       | do_update_drawing _ _ lb rb _ => (lb, rb)
       | _ => acc
       end)
    ops (None, None).

End Observations.
(** ** Further observations *)

Section Strokes.
Context {A : Type} {N : Num A} {Ty : Types} {T : Toolkit A Ty}.

(** What the painter puts on the widget: each drawing call with the pen it
    is drawn with, and for an ellipse the brush that fills it. *)
Inductive stroke : Type :=
| PixmapStroke (x y : Z) (pm : QPixmap)
| PolygonStroke (pen : QPen) (pts : polygon A)
| PolylineStroke (pen : QPen) (pts : polygon A)
| LineStroke (pen : QPen) (p q : point A)
| EllipseStroke (pen : QPen) (brush : QColor) (center : point A) (rx ry : Z).

(** The strokes of a log; [pen] and [brush] are the painter's at its start. *)
Fixpoint strokes (pen : QPen) (brush : QColor) (log : list (effect A)) : list stroke :=
  match log with
  | [] => []
  | SetPen p :: rest => strokes p brush rest
  | SetBrush b :: rest => strokes pen b rest
  | DrawPixmap x y pm :: rest => PixmapStroke x y pm :: strokes pen brush rest
  | DrawPolygon pts :: rest => PolygonStroke pen pts :: strokes pen brush rest
  | DrawPolyline pts :: rest => PolylineStroke pen pts :: strokes pen brush rest
  | DrawLine p q :: rest => LineStroke pen p q :: strokes pen brush rest
  | DrawEllipse center rx ry :: rest =>
      EllipseStroke pen brush center rx ry :: strokes pen brush rest
  | _ :: rest => strokes pen brush rest
  end.

(** The pen and the brush the painter holds after a log. *)
Fixpoint pen_after (pen : QPen) (log : list (effect A)) : QPen :=
  match log with
  | [] => pen
  | SetPen p :: rest => pen_after p rest
  | _ :: rest => pen_after pen rest
  end.

Fixpoint brush_after (brush : QColor) (log : list (effect A)) : QColor :=
  match log with
  | [] => brush
  | SetBrush b :: rest => brush_after b rest
  | _ :: rest => brush_after brush rest
  end.

(** The strokes of one kind. *)
Definition ellipses_of (radius : Z) (ss : list stroke) : list (QPen * QColor * point A) :=
  flat_map
    (fun s =>
       match s with
       | EllipseStroke pen brush center rx ry =>
           if ((rx =? radius) && (ry =? radius))%Z then [(pen, brush, center)] else []
       | _ => []
       end)
    ss.

Definition lines_of (ss : list stroke) : list (QPen * point A * point A) :=
  flat_map (fun s => match s with LineStroke pen p q => [(pen, p, q)] | _ => [] end) ss.

Definition polylines_of (ss : list stroke) : list (QPen * polygon A) :=
  flat_map (fun s => match s with PolylineStroke pen pts => [(pen, pts)] | _ => [] end) ss.

(** The colours and pens of [paintEvent]. *)
Definition pure_red : QColor := mkQColor 255 0 0.
Definition pure_green : QColor := mkQColor 0 255 0.
Definition pure_blue : QColor := mkQColor 0 0 255.
Definition yellow : QColor := mkQColor 255 255 0.
Definition black_pen : QPen := QPen_ (mkQColor 0 0 0) 1.
Definition green_dashes : QPen := setStyle DashLine (QPen_ pure_green 2).

(** The colour of control point [i] of [n]: with more than two points the
    first is red and the last blue; every other one is green. *)
Definition control_point_color (i n : nat) : QColor :=
  if (n <=? 2)%nat then pure_green
  else if (i =? 0)%nat then pure_red
  else if (i =? n - 1)%nat then pure_blue
  else pure_green.

(** The colour of a boundary: the left one blue and the right one yellow,
    the other way round when the boundaries are swapped. *)
Definition left_color (swapped : bool) : QColor := if swapped then yellow else pure_blue.
Definition right_color (swapped : bool) : QColor := if swapped then pure_blue else yellow.

(** The pairs of neighbours of a list. *)
Definition neighbours {X : Type} (xs : list X) : list (X * X) := combine xs (tl xs).

(** The calls of [paintEvent]: on the painter, or of [sample_cones]. *)
Definition painter_or_sampling (e : effect A) : Prop :=
  match e with
  | Update | HandleCanvasClick _ | HandleCanvasDrag _ | HandleCanvasRelease _
  | Print _ _ => False
  | _ => True
  end.

Definition parent_call (e : effect A) : Prop :=
  match e with
  | HandleCanvasClick _ | HandleCanvasDrag _ | HandleCanvasRelease _ => True
  | _ => False
  end.

(** A method that returns normally and leaves the canvas as it was. *)
Definition steady {X : Type} (m : M A X) : Prop :=
  forall c, (exists x, outcome (m c) = Ok x) /\ after (m c) = c.

(** A contour of more than one point, or of none: one that does not squeeze
    to a 1-D array. *)
Definition squeezes_to_2D (cnt : contour) : bool := negb (length cnt =? 1)%nat.

(** *** The picture

    What a [paintEvent] is to leave on the widget, bottom layer first, as a
    function of the canvas it ends with.  It is written out from the
    attributes and the scales, with the libraries' functions and nothing of
    the methods above. *)

(** Where a map point is shown: each coordinate times its scale, plus its
    offset. *)
Definition shown_at (c : Canvas A) (p : point A) : point A :=
  (add (mul (fst p) (scale_x c)) (offset_x c), add (mul (snd p) (scale_y c)) (offset_y c)).

(** The coordinates of an element of a centerline or boundary. *)
Definition coordinates (pt : Pt A) : point A :=
  match pt with
  | QPointF x y => (x, y)
  | Coords x y => (x, y)
  end.

(** The points of a centerline or boundary that is drawn, one of two
    points or more; none for any other. *)
Definition track (b : option (list (Pt A))) : list (point A) :=
  match b with
  | Some (p :: q :: rest) => coordinates p :: coordinates q :: map coordinates rest
  | _ => []
  end.

Definition obstacle_strokes (c : Canvas A) : list stroke :=
  map (fun poly => PolygonStroke (QPen_ pure_red 2) (map (shown_at c) poly))
    (original_obstacle_polygons c).

Definition safe_region_strokes (parent : Parent A) (c : Canvas A) : list stroke :=
  let backoff_val := parsed_or (backoff_entry_text parent) (min_boundary_backoff parent) in
  match free_region c with
  | None => []
  | Some fr =>
      match buffer fr (opp (mul backoff_val (px_per_m parent))) with
      | Ok safe_region =>
          match exterior_coords safe_region with
          | Ok (Some coords) =>
              if geometry_bool safe_region && negb (geometry_is_empty safe_region)
                 && (4 <=? length coords)%nat
              then [PolygonStroke (setStyle DashLine (QPen_ (mkQColor 255 0 255) 2))
                      (map (shown_at c) coords)]
              else []
          | _ => []
          end
      | Raise _ => []
      end
  end.

Definition marker_strokes (c : Canvas A) : list stroke :=
  let n := length (control_points c) in
  map (fun ipt => EllipseStroke black_pen (control_point_color (fst ipt) n)
                    (shown_at c (snd ipt)) 5 5)
    (combine (seq 0 n) (control_points c)).

Definition centerline_strokes (c : Canvas A) : list stroke :=
  map (fun pq => LineStroke green_dashes (fst pq) (snd pq))
    (neighbours (map (shown_at c) (track (centerline c)))).

Definition boundary_strokes (c : Canvas A) (b : option (list (Pt A))) (color : QColor)
  : list stroke :=
  match track b with
  | [] => []
  | pts => [PolylineStroke (QPen_ color 2) (map (shown_at c) pts)]
  end.

(** The cones along a boundary: what [sample_cones] returns for its points,
    the cone spacing and [px_per_m]. *)
Definition cone_strokes (parent : Parent A) (c : Canvas A) (b : option (list (Pt A)))
  (color : QColor) : list stroke :=
  let cone_spacing :=
    parsed_or (cone_spacing_entry_text parent) (default_cone_distance parent) in
  match track b with
  | [] => []
  | pts =>
      match sample_cones pts cone_spacing (px_per_m parent) with
      | Ok cones => map (fun pt => EllipseStroke black_pen color (shown_at c pt) 3 3) cones
      | Raise _ => []
      end
  end.

Definition picture (parent : Parent A) (width height : Z) (c : Canvas A) : list stroke :=
  PixmapStroke 0 0
    (QPixmap_scaled (sat_pixmap c) width height KeepAspectRatio SmoothTransformation)
  :: obstacle_strokes c
  ++ safe_region_strokes parent c
  ++ marker_strokes c
  ++ centerline_strokes c
  ++ boundary_strokes c (left_boundary c) (left_color (boundaries_swapped c))
  ++ boundary_strokes c (right_boundary c) (right_color (boundaries_swapped c))
  ++ cone_strokes parent c (left_boundary c) (left_color (boundaries_swapped c))
  ++ cone_strokes parent c (right_boundary c) (right_color (boundaries_swapped c)).

End Strokes.


Section Blindness.
Context {A : Type} {N : Num A} {Ty : Types} {T : Toolkit A Ty}.

(** The canvas with the satellite image, the display copy of the obstacle
    polygons and the reference copy of the free region replaced. *)
Definition restock (img : QImage) (ops : list (polygon A)) (ofr : option Polygon)
  (c : Canvas A) : Canvas A :=
  mkCanvas (scale_x c) (scale_y c) (offset_x c) (offset_y c) img (sat_pixmap c)
    (binary_map c) ops (free_region c) (original_obstacle_polygons c) ofr
    (control_points c) (centerline c) (left_boundary c) (right_boundary c)
    (boundaries_swapped c).

(** A method that runs the same on a canvas changed by [f], and leaves the
    canvas changed by [f]. *)
Definition blind {X : Type} (f : Canvas A -> Canvas A) (m : M A X) : Prop :=
  forall c, m (f c) = (outcome (m c), f (after (m c)), calls (m c)).

End Blindness.

(** * Properties *)

(** ** The canvas on the small world *)

Example construction_on_demo :
  __init__ (T := Demo.world) Demo.parent = Ok Demo.constructed /\
  scale_x Demo.constructed = PrimFloat.div 100 30 /\
  scale_y Demo.constructed = PrimFloat.div 100 30 /\
  original_obstacle_polygons Demo.constructed
  = [[(0, 0); (0, 29); (29, 29); (29, 0)]%float] /\
  free_region Demo.constructed
  = Some [(0, 0); (0, 29); (29, 29); (29, 0); (0, 0)]%float.
Proof.
  split; [vm_compute; reflexivity|].
  split; [vm_compute; reflexivity|].
  split; [vm_compute; reflexivity|].
  split; vm_compute; reflexivity.
Qed.

Example paint_on_demo :
  let r := paintEvent (T := Demo.world) Demo.parent 800 600 Demo.constructed in
  outcome r = Ok tt /\
  scale_x (after r) = 20%float /\
  polygons_drawn default_pen (calls r)
  = [(red_pen, [(0, 0); (0, 580); (580, 580); (580, 0)]%float);
     (magenta_dashes,
      [(100, 100); (100, 480); (480, 480); (480, 100); (100, 100)]%float)].
Proof.
  cbv zeta.
  split; [vm_compute; reflexivity|].
  split; vm_compute; reflexivity.
Qed.

Example cones_on_demo :
  let r := paintEvent (T := Demo.world) Demo.parent 800 600 (@Demo.canvas float float_num) in
  sample_calls (calls r)
  = [([(10, 5); (10, 15); (10, 25)]%float, 5%float, 10%float);
     ([(20, 5); (20, 15); (20, 25)]%float, 5%float, 10%float)] /\
  cone_dots (calls r)
  = [(200, 100); (200, 300); (200, 500); (400, 100); (400, 300); (400, 500)]%float.
Proof.
  cbv zeta. split; vm_compute; reflexivity.
Qed.

(** ** The two arithmetics *)

Lemma Qc_exact : ExactNum Qc_num.
Proof.
  split.
  - exact Qcft.
  - intros x y. cbn. rewrite Qeq_bool_iff. split.
    + apply Qc_is_canon.
    + intros ->. reflexivity.
Qed.

Section ExactArithmetic.
Context {A : Type} {N : Num A} {E : ExactNum N}.

Add Field exact_num_field : exact_field.

Lemma truediv_nonzero (x y : A) : y <> zero -> truediv x y = Ok (div x y).
Proof.
  intros Hy. unfold truediv.
  destruct (eqb y zero) eqn:Hz; [|reflexivity].
  apply eqb_eq in Hz. contradiction.
Qed.

Lemma scale_then_unscale (m s o : A) : s <> zero -> div (sub (add (mul m s) o) o) s = m.
Proof. intros Hs. field. exact Hs. Qed.

Lemma unscale_then_scale (d s o : A) : s <> zero -> add (mul (div (sub d o) s) s) o = d.
Proof. intros Hs. field. exact Hs. Qed.

End ExactArithmetic.

(** ** The coordinate transforms *)

(** C1 (as amended).  In arithmetic without rounding, for every canvas
    whose [scale_x] and [scale_y] are not zero, [inverse_transform_point]
    undoes [transform_point] at every map point, and [transform_point]
    undoes [inverse_transform_point] at every display point. *)
Theorem transforms_mutually_inverse_exact :
  forall (A : Type) (N : Num A) (Ty : Types) (E : ExactNum N)
         (c : Canvas A) (x y : A),
    scale_x c <> zero -> scale_y c <> zero ->
    inverse_transform_point c (fst (transform_point c x y)) (snd (transform_point c x y))
      = Ok (x, y)
    /\ exists m, inverse_transform_point c x y = Ok m
                 /\ transform_point c (fst m) (snd m) = (x, y).
Proof.
  intros A N Ty E c x y Hx Hy. split.
  - unfold inverse_transform_point, transform_point. cbn [fst snd].
    rewrite !truediv_nonzero by assumption.
    rewrite !scale_then_unscale by assumption. reflexivity.
  - unfold inverse_transform_point.
    rewrite !truediv_nonzero by assumption.
    eexists. split; [reflexivity|].
    unfold transform_point. cbn [fst snd].
    rewrite !unscale_then_scale by assumption. reflexivity.
Qed.

Lemma Qc_of_Z_nonzero (z : Z) : z <> 0%Z -> @of_Z Qc Qc_num z <> zero.
Proof.
  intros Hz H. apply (f_equal this) in H. cbn [of_Z Qc_num zero this Q2Qc] in H.
  assert (Hq : (inject_Z z == 0)%Q).
  { rewrite <- (Qred_correct (inject_Z z)). rewrite H. reflexivity. }
  unfold Qeq in Hq. cbn in Hq. lia.
Qed.

Lemma transforms_mutually_inverse_exact_witness :
  let c := @Demo.canvas Qc Qc_num in
  let x := @of_Z Qc Qc_num 7 in
  let y := @of_Z Qc Qc_num 11 in
  (scale_x c <> zero /\ scale_y c <> zero) /\
  (inverse_transform_point c (fst (transform_point c x y)) (snd (transform_point c x y))
     = Ok (x, y)
   /\ exists m, inverse_transform_point c x y = Ok m
                /\ transform_point c (fst m) (snd m) = (x, y)).
Proof.
  intros c x y.
  assert (H3 : scale_x c <> zero) by (apply Qc_of_Z_nonzero; lia).
  assert (H2 : scale_y c <> zero) by (apply Qc_of_Z_nonzero; lia).
  split; [split; assumption|].
  exact (@transforms_mutually_inverse_exact Qc Qc_num Demo.types Qc_exact c x y H3 H2).
Defined.

(** C1 (counterexample).  In binary64 the round trips are not exact: on
    the canvas constructed over a 100 x 100 satellite image and a
    30 x 30 occupancy map both scales are 100/30, map point (11, 11)
    comes back as another point, and so does display point (7, 7). *)
Lemma transforms_not_inverse_binary64 :
  let c := Demo.constructed in
  __init__ (T := Demo.world) Demo.parent = Ok c /\
  eqb (scale_x c) zero = false /\ eqb (scale_y c) zero = false /\
  (exists x y,
     inverse_transform_point c (fst (transform_point c 11%float 11%float))
       (snd (transform_point c 11%float 11%float)) = Ok (x, y)
     /\ eqb x 11%float = false /\ (x, y) <> (11%float, 11%float)) /\
  (exists m x y,
     inverse_transform_point c 7%float 7%float = Ok m
     /\ transform_point c (fst m) (snd m) = (x, y)
     /\ eqb x 7%float = false /\ (x, y) <> (7%float, 7%float)).
Proof.
  cbv zeta.
  split; [vm_compute; reflexivity|].
  split; [vm_compute; reflexivity|].
  split; [vm_compute; reflexivity|].
  split.
  - eexists. eexists. split; [vm_compute; reflexivity|].
    split; [vm_compute; reflexivity|].
    intros H. apply (f_equal (fun p => Prim2SF (fst p))) in H.
    vm_compute in H. discriminate.
  - eexists. eexists. eexists. split; [vm_compute; reflexivity|].
    split; [vm_compute; reflexivity|].
    split; [vm_compute; reflexivity|].
    intros H. apply (f_equal (fun p => Prim2SF (fst p))) in H.
    vm_compute in H. discriminate.
Qed.

(** C2.  [transform_point] is the scale and the offset, coordinate by
    coordinate, and [transform_polygon] is that map at every vertex: as many
    vertices come out as went in, and the i-th is the image of the i-th. *)
Theorem transform_point_affine :
  forall (A : Type) (N : Num A) (Ty : Types) (c : Canvas A),
    (forall map_x map_y : A,
       transform_point c map_x map_y
       = (add (mul map_x (scale_x c)) (offset_x c),
          add (mul map_y (scale_y c)) (offset_y c)))
    /\ (forall poly : polygon A,
          length (transform_polygon c poly) = length poly
          /\ forall i,
               nth_error (transform_polygon c poly) i
               = option_map
                   (fun p => (add (mul (fst p) (scale_x c)) (offset_x c),
                              add (mul (snd p) (scale_y c)) (offset_y c)))
                   (nth_error poly i)).
Proof.
  intros A N Ty c. split; [reflexivity|].
  intros poly. unfold transform_polygon. split.
  - apply length_map.
  - intros i. rewrite nth_error_map. reflexivity.
Qed.

(** ** Running a method *)

Section Running.
Context {A : Type} {N : Num A} {Ty : Types} {T : Toolkit A Ty}.

Lemma run_bind {X Y : Type} (m : M A X) (f : X -> M A Y) (c : Canvas A) :
  bind m f c =
  match outcome (m c) with
  | Ok x => (outcome (f x (after (m c))), after (f x (after (m c))),
             calls (m c) ++ calls (f x (after (m c))))
  | Raise e => (Raise e, after (m c), calls (m c))
  end.
Proof.
  unfold bind, outcome, after, calls.
  destruct (m c) as [[[x|e] c1] l1]; cbn; [|reflexivity].
  destruct (f x c1) as [[r c2] l2]. reflexivity.
Qed.

Lemma calls_bind {X Y : Type} (m : M A X) (f : X -> M A Y) (c : Canvas A) :
  calls (bind m f c) =
  calls (m c) ++ match outcome (m c) with
                 | Ok x => calls (f x (after (m c)))
                 | Raise _ => []
                 end.
Proof.
  rewrite run_bind. destruct (outcome (m c)); cbn; [reflexivity|].
  symmetry. apply app_nil_r.
Qed.

Lemma after_bind {X Y : Type} (m : M A X) (f : X -> M A Y) (c : Canvas A) :
  after (bind m f c) =
  match outcome (m c) with
  | Ok x => after (f x (after (m c)))
  | Raise _ => after (m c)
  end.
Proof. rewrite run_bind. destruct (outcome (m c)); reflexivity. Qed.

Lemma outcome_bind {X Y : Type} (m : M A X) (f : X -> M A Y) (c : Canvas A) :
  outcome (bind m f c) =
  match outcome (m c) with
  | Ok x => outcome (f x (after (m c)))
  | Raise e => Raise e
  end.
Proof. rewrite run_bind. destruct (outcome (m c)); reflexivity. Qed.

Lemma run_eta {X : Type} (r : result X * Canvas A * list (effect A)) :
  r = (outcome r, after r, calls r).
Proof. destruct r as [[o c] l]. reflexivity. Qed.

End Running.

(** The outermost [bind] of a run, taken apart. *)
Ltac run_step :=
  rewrite run_bind;
  cbn [call self assign lift ret raise outcome after calls fst snd app].

(** ** [update_drawing] *)

(** C9.  [update_drawing] returns normally, its one call is the repaint
    request, the five drawing attributes hold the values given, and the
    eleven other attributes are what they were. *)
Theorem update_drawing_frame :
  forall (A : Type) (Ty : Types) (c : Canvas A)
         (cps : list (point A)) (cl lb rb : option (list (Pt A))) (swapped : bool),
    let r := update_drawing cps cl lb rb swapped c in
    outcome r = Ok tt /\ calls r = [Update] /\
    (control_points (after r) = cps /\ centerline (after r) = cl /\
     left_boundary (after r) = lb /\ right_boundary (after r) = rb /\
     boundaries_swapped (after r) = swapped) /\
    (scale_x (after r) = scale_x c /\ scale_y (after r) = scale_y c /\
     offset_x (after r) = offset_x c /\ offset_y (after r) = offset_y c /\
     sat_image (after r) = sat_image c /\ sat_pixmap (after r) = sat_pixmap c /\
     binary_map (after r) = binary_map c /\
     obstacle_polygons (after r) = obstacle_polygons c /\
     original_obstacle_polygons (after r) = original_obstacle_polygons c /\
     free_region (after r) = free_region c /\
     original_free_region (after r) = original_free_region c).
Proof.
  intros. subst r. cbn. repeat split.
Qed.

(** ** What a method keeps, and what it emits *)

Section Keeping.
Context {A : Type} {N : Num A} {Ty : Types} {T : Toolkit A Ty}.
Variable R : Canvas A -> Canvas A -> Prop.
Hypothesis R_refl : forall c, R c c.
Hypothesis R_trans : forall a b c, R a b -> R b c -> R a c.

Lemma keeps_ret {X : Type} (x : X) : keeps R (ret x).
Proof. intros c. apply R_refl. Qed.

Lemma keeps_raise {X : Type} (e : exn) : keeps R (@raise A Ty X e).
Proof. intros c. apply R_refl. Qed.

Lemma keeps_self : keeps R self.
Proof. intros c. apply R_refl. Qed.

Lemma keeps_call (e : effect A) : keeps R (call e).
Proof. intros c. apply R_refl. Qed.

Lemma keeps_lift {X : Type} (r : result X) : keeps R (lift r).
Proof. intros c. apply R_refl. Qed.

Lemma keeps_assign (f : Canvas A -> Canvas A) :
  (forall c, R c (f c)) -> keeps R (assign f).
Proof. intros H c. apply H. Qed.

Lemma keeps_bind {X Y : Type} (m : M A X) (f : X -> M A Y) :
  keeps R m -> (forall x, keeps R (f x)) -> keeps R (bind m f).
Proof.
  intros Hm Hf c. rewrite after_bind.
  destruct (outcome (m c)) as [x|e].
  - eapply R_trans; [apply Hm|apply Hf].
  - apply Hm.
Qed.

Lemma keeps_try_except {X : Type} (m : M A X) (handles : exn -> bool) (h : exn -> M A X) :
  keeps R m -> (forall e, keeps R (h e)) -> keeps R (try_except m handles h).
Proof.
  intros Hm Hh c. unfold try_except.
  specialize (Hm c). unfold after in *.
  destruct (m c) as [[[x|e] c1] l1]; cbn in *; [exact Hm|].
  destruct (handles e); cbn; [|exact Hm].
  specialize (Hh e c1). destruct (h e c1) as [[r c2] l2]; cbn in *.
  eapply R_trans; eassumption.
Qed.

Lemma keeps_for_each {X : Type} (xs : list X) (body : X -> M A unit) :
  (forall x, keeps R (body x)) -> keeps R (for_each xs body).
Proof.
  intros H. induction xs as [|x xs IH]; cbn.
  - apply keeps_ret.
  - apply keeps_bind; [apply H|intros _; exact IH].
Qed.

End Keeping.

Section Emitting.
Context {A : Type} {N : Num A} {Ty : Types} {T : Toolkit A Ty}.
Variable P : effect A -> Prop.

Lemma emits_ret {X : Type} (x : X) : emits P (ret x).
Proof. intros c. constructor. Qed.

Lemma emits_raise {X : Type} (e : exn) : emits P (@raise A Ty X e).
Proof. intros c. constructor. Qed.

Lemma emits_self : emits P self.
Proof. intros c. constructor. Qed.

Lemma emits_assign (f : Canvas A -> Canvas A) : emits P (assign f).
Proof. intros c. constructor. Qed.

Lemma emits_lift {X : Type} (r : result X) : emits P (lift r).
Proof. intros c. constructor. Qed.

Lemma emits_call (e : effect A) : P e -> emits P (call e).
Proof. intros H c. constructor; [exact H|constructor]. Qed.

Lemma emits_bind {X Y : Type} (m : M A X) (f : X -> M A Y) :
  emits P m -> (forall x, emits P (f x)) -> emits P (bind m f).
Proof.
  intros Hm Hf c. rewrite calls_bind. apply Forall_app. split; [apply Hm|].
  destruct (outcome (m c)); [apply Hf|constructor].
Qed.

Lemma emits_try_except {X : Type} (m : M A X) (handles : exn -> bool) (h : exn -> M A X) :
  emits P m -> (forall e, emits P (h e)) -> emits P (try_except m handles h).
Proof.
  intros Hm Hh c. unfold try_except.
  specialize (Hm c). unfold calls in *.
  destruct (m c) as [[[x|e] c1] l1]; cbn in *; [exact Hm|].
  destruct (handles e); cbn; [|exact Hm].
  specialize (Hh e c1). destruct (h e c1) as [[r c2] l2]; cbn in *.
  apply Forall_app. split; assumption.
Qed.

Lemma emits_for_each {X : Type} (xs : list X) (body : X -> M A unit) :
  (forall x, emits P (body x)) -> emits P (for_each xs body).
Proof.
  intros H. induction xs as [|x xs IH]; cbn.
  - apply emits_ret.
  - apply emits_bind; [apply H|intros _; exact IH].
Qed.

End Emitting.

(** One step through the text of a method, for either judgement; [r] and
    [t] are the reflexivity and the transitivity of the relation kept. *)
Ltac emits_step :=
  first
    [ apply emits_bind; [|intros ?]
    | apply emits_try_except; [|intros ?]
    | apply emits_for_each; intros ?
    | apply emits_ret
    | apply emits_raise
    | apply emits_self
    | apply emits_assign
    | apply emits_lift
    | apply emits_call; cbn; try exact I; try reflexivity
    | match goal with
      | |- emits _ (if ?b then _ else _) => destruct b
      | |- emits _ (match ?x with _ => _ end) => destruct x
      end ].

Ltac keeps_step r t :=
  first
    [ apply keeps_bind; [exact t| |intros ?]
    | apply keeps_try_except; [exact t| |intros ?]
    | apply keeps_for_each; [exact r|exact t|intros ?]
    | apply keeps_ret; exact r
    | apply keeps_raise; exact r
    | apply keeps_self; exact r
    | apply keeps_call; exact r
    | apply keeps_lift; exact r
    | match goal with
      | |- keeps _ (if ?b then _ else _) => destruct b
      | |- keeps _ (match ?x with _ => _ end) => destruct x
      end ].

Section Scales.
Context {A : Type} {N : Num A} {Ty : Types} {T : Toolkit A Ty}.

Lemma same_but_scales_refl (c : Canvas A) : same_but_scales c c.
Proof. destruct c. reflexivity. Qed.

Lemma same_but_scales_trans (a b c : Canvas A) :
  same_but_scales a b -> same_but_scales b c -> same_but_scales a c.
Proof.
  unfold same_but_scales. intros Hab Hbc. rewrite Hbc at 1. rewrite Hab at 1.
  destruct a. reflexivity.
Qed.

Lemma set_scale_x_same (v : A) (c : Canvas A) : same_but_scales c (set_scale_x v c).
Proof. destruct c. reflexivity. Qed.

Lemma set_scale_y_same (v : A) (c : Canvas A) : same_but_scales c (set_scale_y v c).
Proof. destruct c. reflexivity. Qed.

Lemma same_but_scales_boundaries (c c' : Canvas A) :
  same_but_scales c c' -> same_boundaries c c'.
Proof. intros H. rewrite H. split; reflexivity. Qed.

Lemma eq_kept_refl : forall c : Canvas A, c = c.
Proof. reflexivity. Qed.

Lemma eq_kept_trans : forall a b c : Canvas A, b = a -> c = b -> c = a.
Proof. congruence. Qed.

Ltac walk_scales :=
  cbv zeta; repeat keeps_step same_but_scales_refl same_but_scales_trans.
Ltac walk_eq := cbv zeta; repeat keeps_step eq_kept_refl eq_kept_trans.

Lemma calculate_scaling_factors_keeps : keeps same_but_scales calculate_scaling_factors.
Proof.
  unfold calculate_scaling_factors. walk_scales;
    apply keeps_assign; intros; (apply set_scale_x_same || apply set_scale_y_same).
Qed.

Lemma extract_free_region_keeps (bm : option ndarray) :
  keeps (fun c c' : Canvas A => c' = c) (extract_free_region bm).
Proof.
  unfold extract_free_region. walk_eq.
Qed.

Lemma paint_image_keeps (w h : Z) : keeps same_but_scales (paint_image w h).
Proof.
  unfold paint_image. walk_scales;
    apply keeps_assign; intros; (apply set_scale_x_same || apply set_scale_y_same).
Qed.

Lemma paint_rest_keeps (parent : Parent A) :
  keeps (fun c c' : Canvas A => c' = c)
    (bind paint_obstacles (fun _ =>
     bind (paint_safe_region parent) (fun _ =>
     bind paint_control_points (fun _ =>
     bind paint_centerline (fun _ =>
     bind paint_boundaries (fun _ => paint_cones parent)))))).
Proof.
  unfold paint_obstacles, paint_safe_region, paint_control_points, paint_centerline,
    paint_boundaries, paint_cones, paint_boundary, paint_boundary_cones, py_float.
  walk_eq.
Qed.

Lemma mouse_events_keep (parent : Parent A) (pos : Z * Z) :
  keeps (fun c c' : Canvas A => c' = c) (mousePressEvent parent pos) /\
  keeps (fun c c' : Canvas A => c' = c) (mouseMoveEvent parent pos) /\
  keeps (fun c c' : Canvas A => c' = c) (mouseReleaseEvent parent pos).
Proof.
  unfold mousePressEvent, mouseMoveEvent, mouseReleaseEvent.
  repeat split; walk_eq.
Qed.

End Scales.

(** ** Scaling factors *)

Section ScalingFactors.
Context {A : Type} {N : Num A} {Ty : Types} {T : Toolkit A Ty}.

Lemma truediv_int_nonzero (a b : Z) : b <> 0%Z -> truediv_int a b = Ok (div (of_Z a) (of_Z b)).
Proof.
  intros Hb. unfold truediv_int. destruct (Z.eqb_spec b 0); [contradiction|reflexivity].
Qed.

Lemma calculate_scaling_factors_run (c : Canvas A) (bm : ndarray) :
  binary_map c = Some bm -> snd (shape bm) <> 0%Z -> fst (shape bm) <> 0%Z ->
  calculate_scaling_factors c =
  (Ok tt,
   set_scale_y (div (of_Z (QImage_height (sat_image c))) (of_Z (fst (shape bm))))
     (set_scale_x (div (of_Z (QImage_width (sat_image c))) (of_Z (snd (shape bm)))) c),
   []).
Proof.
  intros Hbm Hw Hh. unfold calculate_scaling_factors, bind, self, lift, assign.
  rewrite Hbm. cbn.
  rewrite (truediv_int_nonzero _ Hw). cbn.
  rewrite (truediv_int_nonzero _ Hh). reflexivity.
Qed.

Lemma paint_image_run (width height : Z) (c : Canvas A) (bm : ndarray) :
  binary_map c = Some bm -> snd (shape bm) <> 0%Z -> fst (shape bm) <> 0%Z ->
  let scaled_pixmap :=
    QPixmap_scaled (sat_pixmap c) width height KeepAspectRatio SmoothTransformation in
  paint_image width height c =
  (Ok tt,
   set_scale_y (div (of_Z (QPixmap_height scaled_pixmap)) (of_Z (fst (shape bm))))
     (set_scale_x (div (of_Z (QPixmap_width scaled_pixmap)) (of_Z (snd (shape bm)))) c),
   [SetRenderHint Antialiasing; DrawPixmap 0 0 scaled_pixmap]).
Proof.
  intros Hbm Hw Hh. unfold paint_image, bind, self, lift, assign, call. cbn.
  rewrite Hbm. cbn.
  rewrite (truediv_int_nonzero _ Hw). cbn.
  rewrite (truediv_int_nonzero _ Hh). reflexivity.
Qed.

(** [paintEvent] leaves the canvas as its first block left it. *)
Lemma paintEvent_after (parent : Parent A) (width height : Z) (c : Canvas A) :
  after (paintEvent parent width height c) = after (paint_image width height c).
Proof.
  unfold paintEvent. rewrite after_bind.
  destruct (outcome (paint_image width height c)); [|reflexivity].
  apply (paint_rest_keeps parent).
Qed.

Lemma paintEvent_keeps (parent : Parent A) (width height : Z) :
  keeps same_but_scales (paintEvent parent width height).
Proof. intros c. rewrite paintEvent_after. apply paint_image_keeps. Qed.

End ScalingFactors.

(** C6.  On an occupancy map with a column and a row,
    [calculate_scaling_factors] sets [scale_x] to the width of the
    satellite image over the width of the map and [scale_y] to the height
    over the height, and changes nothing else; [paintEvent], on any canvas
    with such a map, sets them to the width and height of the pixmap scaled
    to the widget with [Qt.KeepAspectRatio], over the same map
    dimensions. *)
Theorem scaling_factors_set :
  forall (A : Type) (N : Num A) (Ty : Types) (T : Toolkit A Ty) (c : Canvas A)
         (bm : ndarray),
    let occ_height := fst (shape bm) in
    let occ_width := snd (shape bm) in
    binary_map c = Some bm -> occ_width <> 0%Z -> occ_height <> 0%Z ->
    (let r := calculate_scaling_factors c in
     outcome r = Ok tt /\
     scale_x (after r) = div (of_Z (QImage_width (sat_image c))) (of_Z occ_width) /\
     scale_y (after r) = div (of_Z (QImage_height (sat_image c))) (of_Z occ_height) /\
     same_but_scales c (after r)) /\
    (forall (parent : Parent A) (width height : Z),
       let scaled_pixmap :=
         QPixmap_scaled (sat_pixmap c) width height KeepAspectRatio SmoothTransformation in
       let r := paintEvent parent width height c in
       scale_x (after r) = div (of_Z (QPixmap_width scaled_pixmap)) (of_Z occ_width) /\
       scale_y (after r) = div (of_Z (QPixmap_height scaled_pixmap)) (of_Z occ_height) /\
       same_but_scales c (after r)).
Proof.
  intros A N Ty T c bm occ_height occ_width Hbm Hw Hh. split.
  - cbv zeta. rewrite (calculate_scaling_factors_run c Hbm Hw Hh). cbn.
    repeat split.
  - intros parent width height. cbv zeta. rewrite paintEvent_after.
    pose proof (paint_image_run width height c Hbm Hw Hh) as H. cbv zeta in H.
    rewrite H. cbn. repeat split.
Qed.

Lemma scaling_factors_set_witness :
  let c := @Demo.canvas float float_num in
  let bm := Demo.occupancy in
  (binary_map c = Some bm /\
   snd (shape (Toolkit := Demo.world) bm) <> 0%Z /\
   fst (shape (Toolkit := Demo.world) bm) <> 0%Z) /\
  scale_x (after (calculate_scaling_factors (T := Demo.world) c))
  = div (of_Z 100) (of_Z 30) /\
  scale_x (after (paintEvent (T := Demo.world) Demo.parent 800 600 c))
  = div (of_Z 600) (of_Z 30).
Proof.
  intros c bm.
  assert (Hbm : binary_map c = Some bm) by reflexivity.
  assert (Hw : snd (shape (Toolkit := Demo.world) bm) <> 0%Z)
    by (vm_compute; discriminate).
  assert (Hh : fst (shape (Toolkit := Demo.world) bm) <> 0%Z)
    by (vm_compute; discriminate).
  split; [split; [exact Hbm|split; assumption]|].
  destruct (@scaling_factors_set float float_num Demo.types Demo.world c bm Hbm Hw Hh)
    as [H1 H2].
  split.
  - exact (proj1 (proj2 H1)).
  - exact (proj1 (H2 Demo.parent 800%Z 600%Z)).
Defined.

(** ** Mouse events *)

Section MouseEvents.
Context {A : Type} {N : Num A} {Ty : Types} {T : Toolkit A Ty}.

Lemma inverse_transform_point_defined (c : Canvas A) (x y : A) :
  eqb (scale_x c) zero = false -> eqb (scale_y c) zero = false ->
  inverse_transform_point c x y
  = Ok (div (sub x (offset_x c)) (scale_x c), div (sub y (offset_y c)) (scale_y c)).
Proof.
  intros Hx Hy. unfold inverse_transform_point, truediv. rewrite Hx, Hy. reflexivity.
Qed.

Lemma mousePressEvent_run (parent : Parent A) (pos : Z * Z) (c : Canvas A) :
  mousePressEvent parent pos c =
  match inverse_transform_point c (of_Z (fst pos)) (of_Z (snd pos)) with
  | Ok map_pos => (Ok tt, c, [HandleCanvasClick map_pos])
  | Raise e => (Raise e, c, [])
  end.
Proof.
  unfold mousePressEvent, bind, self, lift, call. cbn.
  destruct (inverse_transform_point c (of_Z (fst pos)) (of_Z (snd pos))) as [[x y]|e];
    reflexivity.
Qed.

Lemma mouseMoveEvent_run (parent : Parent A) (pos : Z * Z) (c : Canvas A) :
  mouseMoveEvent parent pos c =
  if dragging parent then
    match inverse_transform_point c (of_Z (fst pos)) (of_Z (snd pos)) with
    | Ok map_pos => (Ok tt, c, [HandleCanvasDrag map_pos])
    | Raise e => (Raise e, c, [])
    end
  else (Ok tt, c, []).
Proof.
  unfold mouseMoveEvent, bind, self, lift, call.
  destruct (dragging parent); [|reflexivity]. cbn.
  destruct (inverse_transform_point c (of_Z (fst pos)) (of_Z (snd pos))) as [[x y]|e];
    reflexivity.
Qed.

End MouseEvents.

(** C5 (as amended).  When [scale_x] and [scale_y] are not zero, a mouse
    press makes one call, [handle_canvas_click] with the inverse transform
    of the cursor position, and a mouse move makes one call,
    [handle_canvas_drag] with the inverse transform of the cursor position,
    if [parent.dragging] is true.  Whatever the scales, a mouse move makes
    no call when [parent.dragging] is false, and both handlers leave every
    attribute of the canvas as it was. *)
Theorem mouse_events_delegate :
  forall (A : Type) (N : Num A) (Ty : Types) (parent : Parent A) (pos : Z * Z)
         (c : Canvas A),
    (after (mousePressEvent parent pos c) = c /\
     after (mouseMoveEvent parent pos c) = c) /\
    (dragging parent = false -> mouseMoveEvent parent pos c = (Ok tt, c, [])) /\
    (eqb (scale_x c) zero = false -> eqb (scale_y c) zero = false ->
     exists map_pos,
       inverse_transform_point c (of_Z (fst pos)) (of_Z (snd pos)) = Ok map_pos /\
       mousePressEvent parent pos c = (Ok tt, c, [HandleCanvasClick map_pos]) /\
       (dragging parent = true ->
        mouseMoveEvent parent pos c = (Ok tt, c, [HandleCanvasDrag map_pos]))).
Proof.
  intros A N Ty parent pos c. split; [|split].
  - split.
    + apply (proj1 (mouse_events_keep parent pos)).
    + apply (proj1 (proj2 (mouse_events_keep parent pos))).
  - intros Hd. rewrite mouseMoveEvent_run, Hd. reflexivity.
  - intros Hx Hy. eexists. split; [apply inverse_transform_point_defined; assumption|].
    split.
    + rewrite mousePressEvent_run, inverse_transform_point_defined by assumption.
      reflexivity.
    + intros Hd.
      rewrite mouseMoveEvent_run, Hd, inverse_transform_point_defined by assumption.
      reflexivity.
Qed.

Lemma mouse_events_delegate_witness :
  let c := Demo.constructed in
  (eqb (scale_x c) zero = false /\ eqb (scale_y c) zero = false /\
   dragging (@Demo.parent float float_num) = true) /\
  exists map_pos,
    mousePressEvent Demo.parent (7, 7)%Z c = (Ok tt, c, [HandleCanvasClick map_pos]) /\
    mouseMoveEvent Demo.parent (7, 7)%Z c = (Ok tt, c, [HandleCanvasDrag map_pos]).
Proof.
  intros c.
  assert (Hx : eqb (scale_x c) zero = false) by (vm_compute; reflexivity).
  assert (Hy : eqb (scale_y c) zero = false) by (vm_compute; reflexivity).
  assert (Hd : dragging (@Demo.parent float float_num) = true) by reflexivity.
  split; [split; [exact Hx|split; [exact Hy|exact Hd]]|].
  destruct (@mouse_events_delegate float float_num Demo.types Demo.parent (7, 7)%Z c)
    as (_ & _ & H).
  destruct (H Hx Hy) as (map_pos & _ & Hpress & Hmove).
  exists map_pos. split; [exact Hpress|exact (Hmove Hd)].
Defined.

(** C5 (counterexample).  With the satellite image missing, the canvas is
    constructed with both scales zero, and a [paintEvent] leaves them zero;
    a mouse press then raises [ZeroDivisionError] and calls nothing, and so
    does a mouse move while [parent.dragging] is true. *)
Lemma mouse_press_without_call :
  let c := Demo.constructed_without_image in
  let painted := after (paintEvent (T := Demo.world_without_image) Demo.parent 800 600 c) in
  __init__ (T := Demo.world_without_image) Demo.parent = Ok c /\
  painted = c /\
  mousePressEvent Demo.parent (7, 7)%Z painted = (Raise ZeroDivisionError, painted, []) /\
  dragging (@Demo.parent float float_num) = true /\
  mouseMoveEvent Demo.parent (7, 7)%Z painted = (Raise ZeroDivisionError, painted, []).
Proof.
  cbv zeta.
  split; [vm_compute; reflexivity|].
  split; [vm_compute; reflexivity|].
  split; [vm_compute; reflexivity|].
  split; [reflexivity|].
  vm_compute; reflexivity.
Qed.

(** C10.  [mouseReleaseEvent] makes one call, [handle_canvas_release] with
    the event position itself, whatever the scales and offsets of the
    canvas, whereas the positions that [mousePressEvent] and
    [mouseMoveEvent] pass are the inverse transform of the event
    position. *)
Theorem release_forwards_display_position :
  forall (A : Type) (N : Num A) (Ty : Types) (parent : Parent A) (pos : Z * Z)
         (c : Canvas A),
    mouseReleaseEvent parent pos c = (Ok tt, c, [HandleCanvasRelease pos]) /\
    (forall map_pos,
       inverse_transform_point c (of_Z (fst pos)) (of_Z (snd pos)) = Ok map_pos ->
       calls (mousePressEvent parent pos c) = [HandleCanvasClick map_pos] /\
       (dragging parent = true ->
        calls (mouseMoveEvent parent pos c) = [HandleCanvasDrag map_pos])).
Proof.
  intros A N Ty parent pos c. split; [reflexivity|].
  intros map_pos H. split.
  - rewrite mousePressEvent_run, H. reflexivity.
  - intros Hd. rewrite mouseMoveEvent_run, Hd, H. reflexivity.
Qed.

Lemma release_forwards_display_position_witness :
  let c := @Demo.canvas Qc Qc_num in
  let map_pos := (Q2Qc (7 # 3), Q2Qc (7 # 2)) in
  inverse_transform_point c (of_Z 7) (of_Z 7) = Ok map_pos /\
  calls (mouseReleaseEvent Demo.parent (7, 7)%Z c) = [HandleCanvasRelease (7, 7)%Z] /\
  calls (mousePressEvent Demo.parent (7, 7)%Z c) = [HandleCanvasClick map_pos].
Proof.
  intros c map_pos.
  assert (H : inverse_transform_point c (of_Z 7) (of_Z 7) = Ok map_pos).
  { unfold inverse_transform_point, truediv. cbn. unfold map_pos.
    reflexivity. }
  split; [exact H|].
  destruct (@release_forwards_display_position Qc Qc_num Demo.types Demo.parent (7, 7)%Z c)
    as [Hrel Hmap].
  split.
  - rewrite Hrel. reflexivity.
  - exact (proj1 (Hmap map_pos H)).
Defined.

(** ** The boundaries over any sequence of operations *)

Section Boundaries.
Context {A : Type} {N : Num A} {Ty : Types} {T : Toolkit A Ty}.

Lemma bind_ok {X Y : Type} (m : M A X) (f : X -> M A Y) (c : Canvas A) (y : Y) :
  outcome (bind m f c) = Ok y ->
  exists x, outcome (m c) = Ok x /\ outcome (f x (after (m c))) = Ok y /\
            after (bind m f c) = after (f x (after (m c))).
Proof.
  rewrite outcome_bind, after_bind.
  destruct (outcome (m c)) as [x|e]; [|discriminate].
  intros H. exists x. repeat split. exact H.
Qed.

Lemma init_attributes_boundaries (c : Canvas A) :
  outcome (init_attributes c) = Ok tt ->
  left_boundary (after (init_attributes c)) = None /\
  right_boundary (after (init_attributes c)) = None.
Proof.
  unfold init_attributes. intros H.
  repeat match type of H with
         | outcome (bind _ _ _) = Ok _ =>
             apply bind_ok in H; destruct H as (? & _ & H & ->)
         end.
  split; reflexivity.
Qed.

Lemma init_boundaries (parent : Parent A) (c0 : Canvas A) :
  __init__ parent = Ok c0 -> left_boundary c0 = None /\ right_boundary c0 = None.
Proof.
  unfold __init__. cbv zeta.
  destruct (cv2_threshold _ _ _ _) as [[t bm]|e]; [|discriminate].
  match goal with |- context [init_attributes ?b] => set (blank := b) end.
  pose proof (init_attributes_boundaries blank) as H.
  unfold outcome, after in H.
  destruct (init_attributes blank) as [[[[]|e] c] l]; [|discriminate].
  intros [= <-]. apply H. reflexivity.
Qed.

Lemma perform_boundaries (op : operation) (c : Canvas A) :
  match op with
  | do_update_drawing _ _ lb rb _ =>
      left_boundary (after (perform op c)) = lb /\
      right_boundary (after (perform op c)) = rb
  | _ => same_boundaries c (after (perform op c))
  end.
Proof.
  destruct op; cbn [perform].
  - apply same_but_scales_boundaries, calculate_scaling_factors_keeps.
  - rewrite after_bind.
    destruct (outcome (extract_free_region bm c));
      cbn; rewrite (extract_free_region_keeps bm c); split; reflexivity.
  - split; reflexivity.
  - apply same_but_scales_boundaries, paintEvent_keeps.
  - rewrite (proj1 (mouse_events_keep parent pos) c). split; reflexivity.
  - rewrite (proj1 (proj2 (mouse_events_keep parent pos)) c). split; reflexivity.
  - split; reflexivity.
Qed.

Lemma run_boundaries (ops : list operation) :
  forall (c : Canvas A) (acc : option (list (Pt A)) * option (list (Pt A))),
    (left_boundary c, right_boundary c) = acc ->
    (left_boundary (run ops c), right_boundary (run ops c))
    = fold_left
        (fun acc op =>
           match op with
           | do_update_drawing _ _ lb rb _ => (lb, rb)
           | _ => acc
           end)
        ops acc.
Proof.
  induction ops as [|op ops IH]; intros c acc Hc; [exact Hc|].
  cbn [run fold_left]. apply IH.
  pose proof (perform_boundaries op c) as H.
  destruct op; try (destruct H as [-> ->]; exact Hc).
  destruct H as [-> ->]. reflexivity.
Qed.

End Boundaries.

(** C8.  After construction and any sequence of the canvas's operations,
    [left_boundary] and [right_boundary] are the two values the last
    [update_drawing] was given, and [None] when there was none. *)
Theorem boundaries_only_from_update_drawing :
  forall (A : Type) (N : Num A) (Ty : Types) (T : Toolkit A Ty)
         (parent : Parent A) (c0 : Canvas A) (ops : list operation),
    __init__ parent = Ok c0 ->
    (left_boundary (run ops c0), right_boundary (run ops c0)) = boundaries_passed ops.
Proof.
  intros A N Ty T parent c0 ops H. apply run_boundaries.
  destruct (init_boundaries parent H) as [-> ->]. reflexivity.
Qed.

Lemma boundaries_only_from_update_drawing_witness :
  let c0 := Demo.constructed in
  let ops :=
    [do_paintEvent Demo.parent 800 600;
     do_mousePressEvent Demo.parent (7, 7)%Z;
     do_update_drawing [] None (Demo.boundary 10) (Demo.boundary 20) false;
     do_mouseMoveEvent Demo.parent (9, 9)%Z;
     do_paintEvent Demo.parent 640 480;
     do_mouseReleaseEvent Demo.parent (9, 9)%Z] in
  __init__ (T := Demo.world) Demo.parent = Ok c0 /\
  (left_boundary (run (T := Demo.world) ops c0),
   right_boundary (run (T := Demo.world) ops c0))
  = (Demo.boundary 10, Demo.boundary 20).
Proof.
  intros c0 ops.
  assert (H : __init__ (T := Demo.world) Demo.parent = Ok c0) by (vm_compute; reflexivity).
  split; [exact H|].
  exact (@boundaries_only_from_update_drawing float float_num Demo.types Demo.world
           Demo.parent c0 ops H).
Defined.

(** ** The free region *)

Section Largest.
Context {A : Type} {N : Num A}.
Context {X : Type} (key : X -> A) (whole : list X).

(** [>] orders the keys of [whole]. *)
Hypothesis key_asym :
  forall a b, In a whole -> In b whole ->
    gtb (key a) (key b) = true -> gtb (key b) (key a) = false.
Hypothesis key_cotrans :
  forall a b c, In a whole -> In b whole -> In c whole ->
    gtb (key a) (key b) = true -> gtb (key c) (key b) = false -> gtb (key a) (key c) = true.

(** The invariant of the loop inside [max]: the candidate beats everything
    before it, and nothing seen after it beats the candidate. *)
Lemma max_loop_invariant (rest : list X) :
  forall (before : list X) (b : X) (mid : list X),
    before ++ b :: mid ++ rest = whole ->
    (forall x, In x before -> gtb (key b) (key x) = true) ->
    (forall x, In x mid -> gtb (key x) (key b) = false) ->
    exists before' later',
      whole = before' ++ fst (fold_left (max_step key) rest (b, key b)) :: later' /\
      (forall x, In x before' ->
         gtb (key (fst (fold_left (max_step key) rest (b, key b)))) (key x) = true) /\
      (forall x, In x later' ->
         gtb (key x) (key (fst (fold_left (max_step key) rest (b, key b)))) = false).
Proof.
  induction rest as [|item rest IH]; intros before b mid Hwhole Hbefore Hmid.
  - exists before, mid. rewrite app_nil_r in Hwhole. cbn. auto.
  - cbn [fold_left].
    assert (Hstep : max_step key (b, key b) item
                    = if gtb (key item) (key b) then (item, key item) else (b, key b))
      by reflexivity.
    rewrite Hstep. clear Hstep.
    assert (Hin : forall x, In x before \/ x = b \/ In x mid \/ x = item -> In x whole).
    { intros x Hx. rewrite <- Hwhole. apply in_or_app.
      destruct Hx as [Hx|[->|[Hx| ->]]]; [left; exact Hx| | |].
      - right. left. reflexivity.
      - right. right. apply in_or_app. left. exact Hx.
      - right. right. apply in_or_app. right. left. reflexivity. }
    destruct (gtb (key item) (key b)) eqn:Hgt.
    + destruct (IH (before ++ b :: mid) item []) as (before' & later' & Heq & H1 & H2).
      * rewrite <- Hwhole, <- app_assoc. reflexivity.
      * intros x Hx. apply in_app_or in Hx. destruct Hx as [Hx|[<-|Hx]].
        -- apply key_cotrans with b; auto 6.
        -- exact Hgt.
        -- apply key_cotrans with b; auto 6.
      * intros x [].
      * exists before', later'. split; [exact Heq|split; assumption].
    + destruct (IH before b (mid ++ [item])) as (before' & later' & Heq & H1 & H2).
      * rewrite <- Hwhole, <- app_assoc. reflexivity.
      * exact Hbefore.
      * intros x Hx. apply in_app_or in Hx. destruct Hx as [Hx|[<-|[]]].
        -- apply Hmid. exact Hx.
        -- exact Hgt.
      * exists before', later'. split; [exact Heq|split; assumption].
Qed.

Lemma max_key_position (first : X) (rest : list X) :
  first :: rest = whole ->
  exists before later,
    whole = before ++ max_key key first rest :: later /\
    (forall x, In x before -> gtb (key (max_key key first rest)) (key x) = true) /\
    (forall x, In x later -> gtb (key x) (key (max_key key first rest)) = false).
Proof.
  intros Hwhole.
  destruct (max_loop_invariant rest [] first []) as (before & later & Heq & H1 & H2).
  - exact Hwhole.
  - intros x [].
  - intros x [].
  - exists before, later. split; [exact Heq|split; assumption].
Qed.

End Largest.

Section Splits.
Context {X : Type}.

(** Two ways to single out an element of a list: the same place, or one
    element lies before the other. *)
Lemma two_positions (l1 : list X) :
  forall (l2 r1 r2 : list X) (a b : X),
    l1 ++ a :: r1 = l2 ++ b :: r2 ->
    (a = b /\ l1 = l2 /\ r1 = r2) \/ (In a l2 /\ In b r1) \/ (In b l1 /\ In a r2).
Proof.
  induction l1 as [|x l1 IH]; intros l2 r1 r2 a b H.
  - destruct l2 as [|y l2]; cbn in H.
    + injection H as -> ->. left. auto.
    + injection H as -> ->. right. left. split; [left; reflexivity|].
      apply in_or_app. right. left. reflexivity.
  - destruct l2 as [|y l2]; cbn in H.
    + injection H as <- <-. right. right. split; [left; reflexivity|].
      apply in_or_app. right. left. reflexivity.
    + injection H as -> H. destruct (IH _ _ _ _ _ H) as [(-> & -> & ->)|[[H1 H2]|[H1 H2]]].
      * left. auto.
      * right. left. split; [right; exact H1|exact H2].
      * right. right. split; [right; exact H1|exact H2].
Qed.

End Splits.

Section FreeRegion.
Context {A : Type} {N : Num A} {Ty : Types} {T : Toolkit A Ty}.

Lemma is_largest_unique (contours : list contour) (a b : contour) :
  is_largest contours a -> is_largest contours b -> a = b.
Proof.
  intros (l1 & r1 & E1 & B1 & L1) (l2 & r2 & E2 & B2 & L2).
  rewrite E1 in E2.
  apply two_positions in E2. destruct E2 as [(H & _)|[[Ha Hb]|[Hb Ha]]].
  - exact H.
  - specialize (B2 _ Ha). specialize (L1 _ Hb). congruence.
  - specialize (B1 _ Hb). specialize (L2 _ Ha). congruence.
Qed.

Lemma max_key_is_largest (cnt0 : contour) (rest : list contour) :
  areas_ordered (cnt0 :: rest) ->
  is_largest (cnt0 :: rest) (max_key cv2_contourArea cnt0 rest).
Proof.
  intros Hord. apply (max_key_position cv2_contourArea (whole := cnt0 :: rest)).
  - intros a b Ha Hb. exact (proj1 (Hord a b a Ha Hb Ha)).
  - intros a b c Ha Hb Hc. exact (proj2 (Hord a b c Ha Hb Hc)).
  - reflexivity.
Qed.

(** What the ring of a contour becomes under the comprehension over
    [transform_point]. *)
Lemma scale_points_affine (c : Canvas A) (pts : list (Z * Z)) :
  scale_points c pts
  = map (fun p => (add (mul (of_Z (fst p)) (scale_x c)) (offset_x c),
                   add (mul (of_Z (snd p)) (scale_y c)) (offset_y c))) pts.
Proof. reflexivity. Qed.

Lemma array_equal_eq (p q : Z * Z) : array_equal p q = true <-> p = q.
Proof.
  destruct p as [px py], q as [qx qy]. unfold array_equal. cbn.
  rewrite andb_true_iff, !Z.eqb_eq. split.
  - intros [-> ->]. reflexivity.
  - intros [= -> ->]. auto.
Qed.

Lemma close_ring_closed (pts ring : list (Z * Z)) :
  pts <> [] -> (closed_contour pts ring <-> ring = close_ring pts).
Proof.
  intros Hne. destruct pts as [|p0 pts']; [contradiction|].
  unfold closed_contour, close_ring. cbn [hd_error].
  destruct (array_equal p0 (last (p0 :: pts') p0)) eqn:Heq; cbn [negb].
  - apply array_equal_eq in Heq. split.
    + intros (q0 & qn & [= <-] & <- & [[Hd _]|[_ ->]]); [contradiction|reflexivity].
    + intros ->. exists p0, (last (p0 :: pts') p0). repeat split. right. auto.
  - assert (Hd : p0 <> last (p0 :: pts') p0).
    { intros H. apply array_equal_eq in H. congruence. }
    split.
    + intros (q0 & qn & [= <-] & <- & [[_ ->]|[He _]]); [reflexivity|contradiction].
    + intros ->. exists p0, (last (p0 :: pts') p0). repeat split. left. auto.
Qed.

(** [extract_free_region], case by case. *)
Lemma extract_free_region_run (bm : option ndarray) (c : Canvas A) :
  extract_free_region bm c =
  match cv2_findContours bm RETR_CCOMP CHAIN_APPROX_SIMPLE with
  | [] => (Ok None, c, [])
  | cnt0 :: rest =>
      let largest := max_key cv2_contourArea cnt0 rest in
      match squeeze largest with
      | OneD _ => (Ok None, c, [])
      | TwoD pts =>
          if (length pts <? 3)%nat then (Ok None, c, [])
          else
            match Polygon_ (scale_points c (close_ring pts)) with
            | Raise e =>
                (Ok None, c, [Print "Error creating free region polygon:" e])
            | Ok poly =>
                (Ok (if negb (is_valid poly) || is_empty poly then None else Some poly),
                 c, [])
            end
      end
  end.
Proof.
  unfold extract_free_region.
  destruct (cv2_findContours bm RETR_CCOMP CHAIN_APPROX_SIMPLE) as [|cnt0 rest];
    [reflexivity|].
  cbv zeta. destruct (squeeze (max_key cv2_contourArea cnt0 rest)) as [xy|pts];
    [reflexivity|].
  destruct (length pts <? 3)%nat; [reflexivity|].
  unfold try_except, bind, self, lift, call, ret.
  destruct (Polygon_ (scale_points c (close_ring pts))) as [poly|e]; [|reflexivity].
  destruct (negb (is_valid poly) || is_empty poly); reflexivity.
Qed.

Lemma squeeze_TwoD (cnt : contour) (pts : list (Z * Z)) :
  squeeze cnt = TwoD pts -> pts = cnt /\ length cnt <> 1%nat.
Proof.
  destruct cnt as [|p [|q cnt']]; cbn; try discriminate; intros [= <-]; split;
    (reflexivity || discriminate).
Qed.

End FreeRegion.

(** C3.  Where [>] orders the areas of the contours found,
    [extract_free_region] never raises and leaves the canvas alone.  It
    returns [None] exactly when there is no contour, or the contour of the
    largest area (the first one among equals) squeezes to a 1-D array or
    has fewer than 3 points, or the polygon built from its points, closed
    and transformed, cannot be constructed, is invalid or is empty; any
    polygon it returns is the one [Polygon] built from those points.  A
    point (x, y) of the contour is transformed to
    (x * scale_x + offset_x, y * scale_y + offset_y). *)
Theorem extract_free_region_cases :
  forall (A : Type) (N : Num A) (Ty : Types) (T : Toolkit A Ty)
         (c : Canvas A) (bm : option ndarray),
    let contours := cv2_findContours bm RETR_CCOMP CHAIN_APPROX_SIMPLE in
    let r := extract_free_region bm c in
    let transformed :=
      map (fun p : Z * Z =>
             (add (mul (of_Z (fst p)) (scale_x c)) (offset_x c),
              add (mul (of_Z (snd p)) (scale_y c)) (offset_y c))) in
    areas_ordered contours ->
    after r = c /\
    exists res,
      outcome r = Ok res /\
      (res = None <->
         contours = [] \/
         exists largest,
           is_largest contours largest /\
           (ndim (squeeze largest) = 1%Z \/ (length largest < 3)%nat \/
            exists ring,
              closed_contour largest ring /\ polygon_unusable (transformed ring))) /\
      (forall poly, res = Some poly ->
         exists largest ring,
           is_largest contours largest /\ closed_contour largest ring /\
           Polygon_ (transformed ring) = Ok poly).
Proof.
  intros A N Ty T c bm contours r transformed Hord. subst r.
  rewrite extract_free_region_run.
  fold contours. destruct contours as [|cnt0 rest] eqn:Hc.
  { cbn. split; [reflexivity|]. exists None. split; [reflexivity|]. split.
    - split; auto.
    - discriminate. }
  cbv zeta. pose proof (max_key_is_largest Hord) as Hlargest.
  set (largest := max_key cv2_contourArea cnt0 rest) in *.
  assert (Hthe : forall l, is_largest (cnt0 :: rest) l -> l = largest).
  { intros l Hl. exact (is_largest_unique Hl Hlargest). }
  destruct (squeeze largest) as [xy|pts] eqn:Hsq.
  { cbn. split; [reflexivity|]. exists None. split; [reflexivity|]. split.
    - split; [|reflexivity]. intros _. right. exists largest. split; [exact Hlargest|].
      left. rewrite Hsq. reflexivity.
    - discriminate. }
  destruct (squeeze_TwoD _ Hsq) as [-> Hlen1].
  destruct (Nat.ltb_spec (length largest) 3) as [Hshort|Hlong].
  { cbn. split; [reflexivity|]. exists None. split; [reflexivity|]. split.
    - split; [|reflexivity]. intros _. right. exists largest. split; [exact Hlargest|].
      right. left. exact Hshort.
    - discriminate. }
  assert (Hne : largest <> []).
  { intros H. rewrite H in Hlong. cbn in Hlong. lia. }
  assert (Hring : closed_contour largest (close_ring largest)).
  { apply close_ring_closed; [exact Hne|reflexivity]. }
  rewrite scale_points_affine. fold (transformed (close_ring largest)).
  destruct (Polygon_ (transformed (close_ring largest))) as [poly|e] eqn:Hpoly.
  - cbn. split; [reflexivity|]. eexists. split; [reflexivity|].
    destruct (is_valid poly) eqn:Hvalid; destruct (is_empty poly) eqn:Hempty; cbn.
    + split.
      * split; [intros _|reflexivity]. right. exists largest.
        split; [exact Hlargest|]. right. right. exists (close_ring largest).
        split; [exact Hring|]. right. exists poly. auto.
      * discriminate.
    + split.
      * split; [discriminate|]. intros [H|(l & Hl & H)]; [discriminate|].
        apply Hthe in Hl. subst l. destruct H as [H|[H|(ring & Hr & H)]].
        -- rewrite Hsq in H. discriminate.
        -- lia.
        -- apply close_ring_closed in Hr; [|exact Hne]. subst ring.
           destruct H as [(e & H)|(p & H & [H'|H'])]; congruence.
      * intros p [= <-]. exists largest, (close_ring largest). auto.
    + split.
      * split; [intros _|reflexivity]. right. exists largest.
        split; [exact Hlargest|]. right. right. exists (close_ring largest).
        split; [exact Hring|]. right. exists poly. auto.
      * discriminate.
    + split.
      * split; [intros _|reflexivity]. right. exists largest.
        split; [exact Hlargest|]. right. right. exists (close_ring largest).
        split; [exact Hring|]. right. exists poly. auto.
      * discriminate.
  - cbn. split; [reflexivity|]. exists None. split; [reflexivity|]. split.
    + split; [intros _|reflexivity]. right. exists largest.
      split; [exact Hlargest|]. right. right. exists (close_ring largest).
      split; [exact Hring|]. left. exists e. exact Hpoly.
    + discriminate.
Qed.

Lemma extract_free_region_cases_witness :
  let c := @Demo.canvas float float_num in
  let bm := Some Demo.occupancy in
  let contours :=
    cv2_findContours (Toolkit := Demo.world_of_several) bm RETR_CCOMP CHAIN_APPROX_SIMPLE in
  let r := extract_free_region (T := Demo.world_of_several) bm c in
  let poly := [(0, 0); (0, 20); (30, 20); (30, 0); (0, 0)]%float in
  areas_ordered (T := Demo.world_of_several) contours /\
  after r = c /\
  outcome r = Ok (Some poly) /\
  exists largest ring,
    is_largest (T := Demo.world_of_several) contours largest /\
    closed_contour largest ring /\
    Polygon_ (Toolkit := Demo.world_of_several)
      (map (fun p : Z * Z =>
              (add (mul (of_Z (fst p)) (scale_x c)) (offset_x c),
               add (mul (of_Z (snd p)) (scale_y c)) (offset_y c))) ring)
    = Ok poly.
Proof.
  intros c bm contours r poly.
  assert (Hord : areas_ordered (T := Demo.world_of_several) contours).
  { intros a b d Ha Hb Hd.
    repeat (destruct Ha as [<-|Ha]; [|]); try contradiction;
      repeat (destruct Hb as [<-|Hb]; [|]); try contradiction;
      repeat (destruct Hd as [<-|Hd]; [|]); try contradiction;
      split; vm_compute; intros; (reflexivity || discriminate). }
  assert (Hout : outcome r = Ok (Some poly)) by (vm_compute; reflexivity).
  destruct (@extract_free_region_cases float float_num Demo.types Demo.world_of_several
              c bm Hord) as (Hafter & res & Hres & _ & Hsome).
  split; [exact Hord|]. split; [exact Hafter|]. split; [exact Hout|].
  apply Hsome.
  exact (f_equal (fun o => match o with Ok x => x | Raise _ => None end)
           (eq_trans (eq_sym Hres) Hout)).
Defined.

(** ** What [paintEvent] draws *)

Section Painting.
Context {A : Type} {N : Num A} {Ty : Types} {T : Toolkit A Ty}.

Lemma for_each_calls {X : Type} (xs : list X) (g : X -> effect A) (c : Canvas A) :
  for_each xs (fun x => call (g x)) c = (Ok tt, c, map g xs).
Proof.
  induction xs as [|x xs IH]; [reflexivity|].
  cbn [for_each map]. run_step. rewrite IH. reflexivity.
Qed.

Lemma parse_or_default (text : string) (default : A) (c : Canvas A) :
  try_except (py_float text) is_ValueError (fun _ => ret default) c
  = (Ok (parsed_or text default), c, []).
Proof.
  unfold try_except, py_float, parsed_or. destruct (float_ text); reflexivity.
Qed.

Lemma drawable_has_points (b : option (list (Pt A))) :
  drawable b = true <-> has_points b.
Proof.
  unfold drawable, has_points. destruct b as [pts|].
  - rewrite andb_true_iff, negb_true_iff, Nat.eqb_neq, Nat.ltb_lt. split.
    + intros [H0 H1]. exists pts. repeat split; [|exact H1].
      intros ->. apply H0. reflexivity.
    + intros (pts' & [= <-] & Hne & H1). split; [|exact H1].
      destruct pts; [contradiction|discriminate].
  - split; [discriminate|]. intros (pts & H & _). discriminate.
Qed.

(** *** Polygons *)

Lemma polygons_drawn_none (l : list (effect A)) :
  Forall not_DrawPolygon l -> forall pen, polygons_drawn pen l = [].
Proof.
  induction 1 as [|e l He _ IH]; intros pen; [reflexivity|].
  destruct e; cbn; try apply IH. contradiction.
Qed.

Lemma polygons_drawn_app_none (l1 l2 : list (effect A)) :
  Forall not_DrawPolygon l2 ->
  forall pen, polygons_drawn pen (l1 ++ l2) = polygons_drawn pen l1.
Proof.
  intros H2. induction l1 as [|e l1 IH]; intros pen.
  - apply polygons_drawn_none. exact H2.
  - destruct e; cbn; try apply IH. f_equal. apply IH.
Qed.

Lemma polygons_drawn_polygons (pen : QPen) (polys : list (polygon A)) (l : list (effect A)) :
  polygons_drawn pen (map DrawPolygon polys ++ l)
  = map (fun poly => (pen, poly)) polys ++ polygons_drawn pen l.
Proof.
  induction polys as [|poly polys IH]; [reflexivity|]. cbn. f_equal. exact IH.
Qed.

Lemma paint_obstacles_run (c : Canvas A) :
  paint_obstacles c =
  (Ok tt, c,
   SetPen red_pen :: map DrawPolygon (map (transform_polygon c) (original_obstacle_polygons c))).
Proof.
  unfold paint_obstacles. run_step. run_step.
  rewrite (for_each_calls (original_obstacle_polygons c)
             (fun poly => DrawPolygon (transform_polygon c poly)) c).
  cbn [outcome after calls fst snd]. rewrite map_map. reflexivity.
Qed.

(** The safe-region block, case by case. *)
Lemma paint_safe_region_run (parent : Parent A) (c : Canvas A) :
  let backoff_val := parsed_or (backoff_entry_text parent) (min_boundary_backoff parent) in
  paint_safe_region parent c =
  match free_region c with
  | None => (Ok tt, c, [])
  | Some fr =>
      match buffer fr (opp (mul backoff_val (px_per_m parent))) with
      | Raise e => (Raise e, c, [])
      | Ok safe_region =>
          if geometry_bool safe_region && negb (geometry_is_empty safe_region) then
            match exterior_coords safe_region with
            | Raise e => (Raise e, c, [])
            | Ok None => (Ok tt, c, [])
            | Ok (Some coords) =>
                if (4 <=? length coords)%nat then
                  (Ok tt, c,
                   [SetPen magenta_dashes;
                    DrawPolygon (map (fun p => transform_point c (fst p) (snd p)) coords)])
                else (Ok tt, c, [])
            end
          else (Ok tt, c, [])
      end
  end.
Proof.
  cbv zeta. unfold paint_safe_region. rewrite run_bind, parse_or_default.
  cbn [outcome after calls fst snd app]. run_step.
  destruct (free_region c) as [fr|]; [|reflexivity].
  run_step. destruct (buffer fr _) as [safe_region|e]; [|reflexivity].
  cbn [outcome after calls fst snd app].
  destruct (geometry_bool safe_region && negb (geometry_is_empty safe_region));
    [|reflexivity].
  run_step.
  destruct (exterior_coords safe_region) as [[coords|]|e]; try reflexivity.
  cbn [outcome after calls fst snd app].
  destruct (4 <=? length coords)%nat; reflexivity.
Qed.

Lemma paint_safe_region_calls (parent : Parent A) (c : Canvas A) :
  calls (paint_safe_region parent c) = [] \/
  exists fr coords,
    safe_region_conditions parent c fr coords /\
    calls (paint_safe_region parent c)
    = [SetPen magenta_dashes;
       DrawPolygon (map (fun p => transform_point c (fst p) (snd p)) coords)].
Proof.
  pose proof (paint_safe_region_run parent c) as Hrun. cbv zeta in Hrun. rewrite Hrun.
  destruct (free_region c) as [fr|] eqn:Hfr; [|left; reflexivity].
  destruct (buffer fr _) as [safe_region|e] eqn:Hbuf; [|left; reflexivity].
  destruct (geometry_bool safe_region) eqn:Hbool; [|left; reflexivity].
  destruct (geometry_is_empty safe_region) eqn:Hempty; [left; reflexivity|].
  cbn [andb negb].
  destruct (exterior_coords safe_region) as [[coords|]|e] eqn:Hext;
    try (left; reflexivity).
  destruct (Nat.leb_spec 4 (length coords)) as [Hlen|Hlen]; [|left; reflexivity].
  right. exists fr, coords. split; [|reflexivity].
  unfold safe_region_conditions. cbv zeta. split; [exact Hfr|].
  exists safe_region. auto.
Qed.

Lemma paint_safe_region_drawn (parent : Parent A) (c : Canvas A) (fr : Polygon)
  (coords : polygon A) :
  safe_region_conditions parent c fr coords ->
  paint_safe_region parent c
  = (Ok tt, c,
     [SetPen magenta_dashes;
      DrawPolygon (map (fun p => transform_point c (fst p) (snd p)) coords)]).
Proof.
  intros (Hfr & safe_region & Hbuf & Hbool & Hempty & Hext & Hlen).
  pose proof (paint_safe_region_run parent c) as Hrun. cbv zeta in Hrun. rewrite Hrun.
  rewrite Hfr, Hbuf, Hbool, Hempty. cbn [andb negb]. rewrite Hext.
  destruct (Nat.leb_spec 4 (length coords)) as [_|H]; [reflexivity|lia].
Qed.

Lemma paint_tail_no_polygon (parent : Parent A) :
  emits not_DrawPolygon
    (bind paint_control_points (fun _ =>
     bind paint_centerline (fun _ =>
     bind paint_boundaries (fun _ => paint_cones parent)))).
Proof.
  unfold paint_control_points, paint_centerline, paint_boundaries, paint_cones,
    paint_boundary, paint_boundary_cones, py_float.
  cbv zeta. repeat emits_step.
Qed.

(** The image block, case by case. *)
Lemma paint_image_cases (width height : Z) (c : Canvas A) :
  let scaled_pixmap :=
    QPixmap_scaled (sat_pixmap c) width height KeepAspectRatio SmoothTransformation in
  let drawn := [SetRenderHint Antialiasing; DrawPixmap 0 0 scaled_pixmap] in
  paint_image width height c =
  match binary_map c with
  | None => (Raise AttributeError, c, drawn)
  | Some bm =>
      match truediv_int (QPixmap_width scaled_pixmap) (snd (shape bm)) with
      | Raise e => (Raise e, c, drawn)
      | Ok sx =>
          match truediv_int (QPixmap_height scaled_pixmap) (fst (shape bm)) with
          | Raise e => (Raise e, set_scale_x sx c, drawn)
          | Ok sy => (Ok tt, set_scale_y sy (set_scale_x sx c), drawn)
          end
      end
  end.
Proof.
  cbv zeta. unfold paint_image, bind, self, lift, assign, call. cbn.
  destruct (binary_map c) as [bm|]; [|reflexivity]. cbn.
  destruct (truediv_int _ (snd (shape bm))) as [sx|e]; [|reflexivity]. cbn.
  destruct (truediv_int _ (fst (shape bm))) as [sy|e]; reflexivity.
Qed.

Lemma paint_image_calls (width height : Z) (c : Canvas A) :
  calls (paint_image width height c)
  = [SetRenderHint Antialiasing;
     DrawPixmap 0 0
       (QPixmap_scaled (sat_pixmap c) width height KeepAspectRatio SmoothTransformation)].
Proof.
  pose proof (paint_image_cases width height c) as H. cbv zeta in H. rewrite H.
  destruct (binary_map c) as [bm|]; [|reflexivity].
  destruct (truediv_int _ (snd (shape bm))); [|reflexivity].
  destruct (truediv_int _ (fst (shape bm))); reflexivity.
Qed.

(** The polygons of a whole [paintEvent]: the obstacles in red, then what
    the safe-region block draws. *)
Lemma paintEvent_polygons (parent : Parent A) (width height : Z) (c : Canvas A) :
  let c1 := after (paintEvent parent width height c) in
  polygons_drawn default_pen (calls (paintEvent parent width height c)) =
  match outcome (paint_image width height c) with
  | Ok _ =>
      map (fun poly => (red_pen, transform_polygon c1 poly)) (original_obstacle_polygons c1)
      ++ polygons_drawn red_pen (calls (paint_safe_region parent c1))
  | Raise _ => []
  end.
Proof.
  cbv zeta. rewrite paintEvent_after. unfold paintEvent.
  rewrite calls_bind, paint_image_calls. cbn [app polygons_drawn].
  destruct (outcome (paint_image width height c)); [|reflexivity].
  set (c1 := after (paint_image width height c)).
  rewrite calls_bind, paint_obstacles_run. cbn [calls outcome after fst snd app].
  cbn [polygons_drawn]. rewrite polygons_drawn_polygons, map_map. f_equal.
  rewrite calls_bind.
  pose proof (paint_tail_no_polygon parent) as Htail.
  destruct (outcome (paint_safe_region parent c1)).
  - apply polygons_drawn_app_none. apply Htail.
  - rewrite app_nil_r. reflexivity.
Qed.

End Painting.

(** C4.  Of the polygons [paintEvent] draws, one drawn with the dashed
    magenta pen is the exterior of
    [free_region.buffer(-(backoff_val * px_per_m))] in display coordinates,
    where [backoff_val] is the backoff entry parsed as a float, or
    [parent.min_boundary_backoff] when it does not parse; and then
    [free_region] is not [None], the buffered region is true and not empty,
    its exterior is not [None] and has at least 4 coordinates.  Conversely,
    on an occupancy map with a column and a row, under those conditions that
    polygon is drawn.  ([buffer] returning a region is one of the
    conditions: where it raises, nothing is drawn.) *)
Theorem safe_region_drawn :
  forall (A : Type) (N : Num A) (Ty : Types) (T : Toolkit A Ty)
         (parent : Parent A) (width height : Z) (c : Canvas A),
    let r := paintEvent parent width height c in
    let drawn := polygons_drawn default_pen (calls r) in
    (forall poly, In (magenta_dashes, poly) drawn ->
       exists fr coords,
         safe_region_conditions parent c fr coords /\
         poly = map (fun p => transform_point (after r) (fst p) (snd p)) coords) /\
    (forall fr coords bm,
       binary_map c = Some bm -> snd (shape bm) <> 0%Z -> fst (shape bm) <> 0%Z ->
       safe_region_conditions parent c fr coords ->
       In (magenta_dashes, map (fun p => transform_point (after r) (fst p) (snd p)) coords)
          drawn).
Proof.
  intros A N Ty T parent width height c r drawn. subst drawn r.
  pose proof (paintEvent_polygons parent width height c) as Hdrawn. cbv zeta in Hdrawn.
  pose proof (paintEvent_keeps parent width height c) as Hsame.
  set (c1 := after (paintEvent parent width height c)) in *.
  assert (Hcond : forall fr coords,
             safe_region_conditions parent c1 fr coords
             <-> safe_region_conditions parent c fr coords).
  { intros fr coords. unfold safe_region_conditions. rewrite Hsame. reflexivity. }
  rewrite Hdrawn. split.
  - intros poly Hin.
    destruct (outcome (paint_image width height c)); [|contradiction].
    apply in_app_or in Hin. destruct Hin as [Hin|Hin].
    + apply in_map_iff in Hin. destruct Hin as (p & Hp & _). discriminate.
    + destruct (paint_safe_region_calls parent c1) as [Hnone|(fr & coords & Hc & Hcalls)].
      * rewrite Hnone in Hin. contradiction.
      * rewrite Hcalls in Hin. cbn in Hin. destruct Hin as [[= <-]|[]].
        exists fr, coords. split; [apply Hcond; exact Hc|reflexivity].
  - intros fr coords bm Hbm Hw Hh Hc.
    pose proof (paint_image_run width height c Hbm Hw Hh) as Himage. cbv zeta in Himage.
    rewrite Himage. cbn [outcome fst].
    apply in_or_app. right. apply Hcond in Hc.
    rewrite (paint_safe_region_drawn Hc). cbn. left. reflexivity.
Qed.

Lemma safe_region_drawn_witness :
  let c := @Demo.canvas float float_num in
  let r := paintEvent (T := Demo.world) Demo.parent 800 600 c in
  let bm := Demo.occupancy in
  let fr := [(0, 0); (0, 29); (29, 29); (29, 0); (0, 0)]%float in
  let coords := [(5, 5); (5, 24); (24, 24); (24, 5); (5, 5)]%float in
  (binary_map c = Some bm /\
   snd (shape (Toolkit := Demo.world) bm) <> 0%Z /\
   fst (shape (Toolkit := Demo.world) bm) <> 0%Z /\
   safe_region_conditions (T := Demo.world) Demo.parent c fr coords) /\
  In (magenta_dashes, map (fun p => transform_point (after r) (fst p) (snd p)) coords)
     (polygons_drawn default_pen (calls r)).
Proof.
  intros c r bm fr coords.
  assert (Hbm : binary_map c = Some bm) by reflexivity.
  assert (Hw : snd (shape (Toolkit := Demo.world) bm) <> 0%Z)
    by (vm_compute; discriminate).
  assert (Hh : fst (shape (Toolkit := Demo.world) bm) <> 0%Z)
    by (vm_compute; discriminate).
  assert (Hc : safe_region_conditions (T := Demo.world) Demo.parent c fr coords).
  { unfold safe_region_conditions. cbv zeta.
    split; [reflexivity|]. exists coords.
    split; [vm_compute; reflexivity|].
    split; [reflexivity|]. split; [reflexivity|].
    split; [reflexivity|]. cbn. lia. }
  split; [split; [exact Hbm|split; [exact Hw|split; [exact Hh|exact Hc]]]|].
  exact (proj2 (@safe_region_drawn float float_num Demo.types Demo.world Demo.parent
                  800%Z 600%Z c)
           fr coords bm Hbm Hw Hh Hc).
Defined.

(** ** Cones *)

Section Cones.
Context {A : Type} {N : Num A} {Ty : Types} {T : Toolkit A Ty}.

Lemma sample_calls_app (l1 l2 : list (effect A)) :
  sample_calls (l1 ++ l2) = sample_calls l1 ++ sample_calls l2.
Proof. apply flat_map_app. Qed.

Lemma cone_dots_app (l1 l2 : list (effect A)) :
  cone_dots (l1 ++ l2) = cone_dots l1 ++ cone_dots l2.
Proof. apply flat_map_app. Qed.

Lemma no_cone_calls (l : list (effect A)) :
  Forall not_cone_call l -> sample_calls l = [] /\ cone_dots l = [].
Proof.
  induction 1 as [|e l He _ [IH1 IH2]]; [split; reflexivity|].
  destruct e; cbn in *; try (split; assumption); try contradiction.
  rewrite He. split; assumption.
Qed.

Lemma cone_dots_markers (c : Canvas A) (cones : polygon A) :
  cone_dots (map (fun pt => DrawEllipse (transform_point c (fst pt) (snd pt)) 3 3) cones)
  = map (fun pt => transform_point c (fst pt) (snd pt)) cones.
Proof. induction cones as [|pt cones IH]; [reflexivity|]. cbn. f_equal. exact IH. Qed.

Lemma sample_calls_markers (c : Canvas A) (cones : polygon A) :
  sample_calls (map (fun pt => DrawEllipse (transform_point c (fst pt) (snd pt)) 3 3) cones)
  = [].
Proof. induction cones as [|pt cones IH]; [reflexivity|]. exact IH. Qed.

(** The blocks of [paintEvent] before the cones neither sample nor mark. *)
Lemma paint_image_no_cones (width height : Z) : emits not_cone_call (paint_image width height).
Proof. unfold paint_image. cbv zeta. repeat emits_step. Qed.

Lemma paint_obstacles_no_cones : emits not_cone_call paint_obstacles.
Proof. unfold paint_obstacles. cbv zeta. repeat emits_step. Qed.

Lemma paint_safe_region_no_cones (parent : Parent A) :
  emits not_cone_call (paint_safe_region parent).
Proof. unfold paint_safe_region, py_float. cbv zeta. repeat emits_step. Qed.

Lemma paint_control_points_no_cones : emits not_cone_call paint_control_points.
Proof. unfold paint_control_points. cbv zeta. repeat emits_step. Qed.

Lemma paint_centerline_no_cones : emits not_cone_call paint_centerline.
Proof. unfold paint_centerline. cbv zeta. repeat emits_step. Qed.

Lemma paint_boundaries_no_cones : emits not_cone_call paint_boundaries.
Proof. unfold paint_boundaries, paint_boundary. cbv zeta. repeat emits_step. Qed.

(** A block without cones in front of [k] adds nothing to what is observed
    of the cones, and [k] runs on the same canvas whenever it runs. *)
Lemma skip_block {X Y : Type} (m : M A X) (k : M A Y) (c c1 : Canvas A) :
  emits not_cone_call m -> after (m c) = c1 ->
  (sample_calls (calls (bind m (fun _ => k) c)) = [] /\
   cone_dots (calls (bind m (fun _ => k) c)) = [] /\
   exists e, outcome (bind m (fun _ => k) c) = Raise e) \/
  (sample_calls (calls (bind m (fun _ => k) c)) = sample_calls (calls (k c1)) /\
   cone_dots (calls (bind m (fun _ => k) c)) = cone_dots (calls (k c1)) /\
   outcome (bind m (fun _ => k) c) = outcome (k c1)).
Proof.
  intros Hm Hc1. rewrite calls_bind, outcome_bind, sample_calls_app, cone_dots_app.
  destruct (no_cone_calls (Hm c)) as [-> ->]. rewrite Hc1.
  destruct (outcome (m c)) as [x|e].
  - right. auto.
  - left. repeat split. exists e. reflexivity.
Qed.

Lemma paint_boundary_cones_run (parent : Parent A) (spacing : A)
  (b : option (list (Pt A))) (color : QColor) (c : Canvas A) :
  paint_boundary_cones parent spacing b color c =
  if drawable b then
    match sample_cones (map xy (points_of b)) spacing (px_per_m parent) with
    | Ok cones =>
        (Ok tt, c,
         SampleCones (map xy (points_of b)) spacing (px_per_m parent)
           :: SetBrush color :: SetPen (QPen_ (mkQColor 0 0 0) 1)
           :: map (fun pt => DrawEllipse (transform_point c (fst pt) (snd pt)) 3 3) cones)
    | Raise e =>
        (Raise e, c, [SampleCones (map xy (points_of b)) spacing (px_per_m parent)])
    end
  else (Ok tt, c, []).
Proof.
  unfold paint_boundary_cones. run_step.
  destruct (drawable b); [|reflexivity].
  run_step. run_step.
  destruct (sample_cones _ _ _) as [cones|e]; [|reflexivity].
  cbn [outcome after calls fst snd app]. run_step. run_step.
  rewrite (for_each_calls cones
             (fun pt => DrawEllipse (transform_point c (fst pt) (snd pt)) 3 3) c).
  reflexivity.
Qed.

(** What one boundary contributes. *)
Lemma paint_boundary_cones_observed (parent : Parent A) (spacing : A)
  (b : option (list (Pt A))) (color : QColor) (c : Canvas A) :
  let r := paint_boundary_cones parent spacing b color c in
  after r = c /\
  (sample_calls (calls r) = [] /\ cone_dots (calls r) = [] /\
   (outcome r = Ok tt -> ~ has_points b)
   \/
   has_points b /\
   sample_calls (calls r) = [(map xy (points_of b), spacing, px_per_m parent)] /\
   ((exists e, sample_cones (map xy (points_of b)) spacing (px_per_m parent) = Raise e
               /\ outcome r = Raise e /\ cone_dots (calls r) = [])
    \/
    (exists cones, sample_cones (map xy (points_of b)) spacing (px_per_m parent) = Ok cones
                   /\ outcome r = Ok tt
                   /\ cone_dots (calls r)
                      = map (fun pt => transform_point c (fst pt) (snd pt)) cones))).
Proof.
  cbv zeta. rewrite paint_boundary_cones_run.
  destruct (drawable b) eqn:Hd.
  - apply drawable_has_points in Hd.
    destruct (sample_cones _ _ _) as [cones|e] eqn:Hs; cbn [after calls outcome fst snd].
    + split; [reflexivity|]. right. split; [exact Hd|]. split.
      * cbn. f_equal. apply sample_calls_markers.
      * right. exists cones. repeat split. cbn. apply cone_dots_markers.
    + split; [reflexivity|]. right. split; [exact Hd|]. split; [reflexivity|].
      left. exists e. auto.
  - split; [reflexivity|]. left. repeat split. intros _ H.
    apply drawable_has_points in H. congruence.
Qed.

Lemma paint_cones_run (parent : Parent A) (c : Canvas A) :
  let spacing := parsed_or (cone_spacing_entry_text parent) (default_cone_distance parent) in
  paint_cones parent c =
  bind
    (paint_boundary_cones parent spacing (left_boundary c)
       (if boundaries_swapped c then mkQColor 255 255 0 else mkQColor 0 0 255))
    (fun _ =>
       paint_boundary_cones parent spacing (right_boundary c)
         (if boundaries_swapped c then mkQColor 0 0 255 else mkQColor 255 255 0))
    c.
Proof.
  cbv zeta. unfold paint_cones. rewrite run_bind, parse_or_default.
  cbn [outcome after calls fst snd app]. run_step.
  rewrite <- run_eta. reflexivity.
Qed.

(** What is observed of the cones in a whole [paintEvent] is what is
    observed of its last block. *)
Lemma paintEvent_cones (parent : Parent A) (width height : Z) (c : Canvas A) :
  let r := paintEvent parent width height c in
  (sample_calls (calls r) = [] /\ cone_dots (calls r) = [] /\
   exists e, outcome r = Raise e) \/
  (sample_calls (calls r) = sample_calls (calls (paint_cones parent (after r))) /\
   cone_dots (calls r) = cone_dots (calls (paint_cones parent (after r))) /\
   outcome r = outcome (paint_cones parent (after r))).
Proof.
  cbv zeta. rewrite paintEvent_after. unfold paintEvent.
  set (c1 := after (paint_image width height c)).
  assert (Hsame : forall X (m : M A X),
             keeps (fun a b : Canvas A => b = a) m -> after (m c1) = c1).
  { intros X m H. apply H. }
  repeat match goal with
         | |- context [bind ?m (fun _ => ?k) ?c0] =>
             let H := fresh "H" in
             assert (H : emits not_cone_call m)
               by first [ apply paint_image_no_cones | apply paint_obstacles_no_cones
                        | apply paint_safe_region_no_cones
                        | apply paint_control_points_no_cones
                        | apply paint_centerline_no_cones
                        | apply paint_boundaries_no_cones ];
             let Hc := fresh "Hc" in
             assert (Hc : after (m c0) = c1)
               by first [ reflexivity
                        | apply Hsame;
                          unfold paint_obstacles, paint_safe_region, paint_control_points,
                            paint_centerline, paint_boundaries, paint_boundary, py_float;
                          cbv zeta; repeat keeps_step (@eq_kept_refl A Ty) (@eq_kept_trans A Ty) ];
             destruct (skip_block k c0 H Hc) as [Hstop|(-> & -> & ->)];
             [left; exact Hstop|]; clear H Hc
         end.
  right. auto.
Qed.

(** One boundary, in the terms of the claim. *)
Lemma one_boundary_cones (parent : Parent A) (spacing : A)
  (b : option (list (Pt A))) (color : QColor) (c : Canvas A) :
  let r := paint_boundary_cones parent spacing b color c in
  let pts := map xy (points_of b) in
  after r = c /\
  (forall call, In call (sample_calls (calls r)) ->
     has_points b /\ call = (pts, spacing, px_per_m parent)) /\
  (forall dot, In dot (cone_dots (calls r)) ->
     has_points b /\
     exists cones pt,
       sample_cones pts spacing (px_per_m parent) = Ok cones /\ In pt cones /\
       dot = transform_point c (fst pt) (snd pt)) /\
  (outcome r = Ok tt -> has_points b ->
     In (pts, spacing, px_per_m parent) (sample_calls (calls r)) /\
     exists cones,
       sample_cones pts spacing (px_per_m parent) = Ok cones /\
       forall pt, In pt cones ->
         In (transform_point c (fst pt) (snd pt)) (cone_dots (calls r))).
Proof.
  cbv zeta.
  destruct (paint_boundary_cones_observed parent spacing b color c) as [Hafter Hobs].
  cbv zeta in Hobs. split; [exact Hafter|].
  destruct Hobs as [(Hs & Hd & Hno)|(Hb & Hs & [(e & He & Hout & Hd)|(cones & Hc & Hout & Hd)])];
    rewrite Hs, Hd.
  - split; [intros call []|]. split; [intros dot []|].
    intros Hok Hb. exfalso. exact (Hno Hok Hb).
  - split.
    { intros call [<-|[]]. split; [exact Hb|reflexivity]. }
    split; [intros dot []|].
    intros Hok _. rewrite Hout in Hok. discriminate.
  - split.
    { intros call [<-|[]]. split; [exact Hb|reflexivity]. }
    split.
    { intros dot Hin. split; [exact Hb|]. apply in_map_iff in Hin.
      destruct Hin as (pt & <- & Hpt). exists cones, pt. auto. }
    intros _ _. split; [left; reflexivity|].
    exists cones. split; [exact Hc|].
    intros pt Hpt. apply in_map_iff. exists pt. auto.
Qed.

End Cones.

(** C7.  In [paintEvent], every call of [sample_cones] is for the left or
    the right boundary, one that is not empty and has more than one point,
    on that boundary's points in map coordinates, with the cone spacing
    parsed from the entry, or [parent.default_cone_distance] when it does
    not parse, and with [parent.px_per_m].  Every cone marker drawn is a
    point [sample_cones] returned for such a boundary, in display
    coordinates.  When [paintEvent] returns normally, each such boundary
    is sampled and each cone returned for it is drawn. *)
Theorem cones_sampled_for_boundaries :
  forall (A : Type) (N : Num A) (Ty : Types) (T : Toolkit A Ty)
         (parent : Parent A) (width height : Z) (c : Canvas A),
    let r := paintEvent parent width height c in
    let cone_spacing :=
      parsed_or (cone_spacing_entry_text parent) (default_cone_distance parent) in
    let of_canvas b := b = left_boundary c \/ b = right_boundary c in
    (forall call, In call (sample_calls (calls r)) ->
       exists b, of_canvas b /\ has_points b /\
                 call = (map xy (points_of b), cone_spacing, px_per_m parent)) /\
    (forall dot, In dot (cone_dots (calls r)) ->
       exists b cones pt,
         of_canvas b /\ has_points b /\
         sample_cones (map xy (points_of b)) cone_spacing (px_per_m parent) = Ok cones /\
         In pt cones /\ dot = transform_point (after r) (fst pt) (snd pt)) /\
    (outcome r = Ok tt ->
     forall b, of_canvas b -> has_points b ->
       In (map xy (points_of b), cone_spacing, px_per_m parent) (sample_calls (calls r)) /\
       exists cones,
         sample_cones (map xy (points_of b)) cone_spacing (px_per_m parent) = Ok cones /\
         forall pt, In pt cones ->
           In (transform_point (after r) (fst pt) (snd pt)) (cone_dots (calls r))).
Proof.
  intros A N Ty T parent width height c r cone_spacing of_canvas.
  destruct (paintEvent_cones parent width height c) as [(Hs & Hd & e & He)|(Hs & Hd & Hout)];
    cbv zeta in *; fold r in Hs, Hd |- *.
  { rewrite Hs, Hd. split; [intros call []|]. split; [intros dot []|].
    intros Hok. fold r in He. rewrite He in Hok. discriminate. }
  fold r in Hout. rewrite Hs, Hd, Hout. clear Hs Hd Hout.
  destruct (same_but_scales_boundaries (paintEvent_keeps parent width height c)) as [Hl Hr].
  fold r in Hl, Hr. set (c1 := after r) in *.
  pose proof (paint_cones_run parent c1) as Hrun. cbv zeta in Hrun. fold cone_spacing in Hrun.
  rewrite Hrun, Hl, Hr. clear Hrun.
  set (lc := if boundaries_swapped c1 then mkQColor 255 255 0 else mkQColor 0 0 255).
  set (rc := if boundaries_swapped c1 then mkQColor 0 0 255 else mkQColor 255 255 0).
  destruct (one_boundary_cones parent cone_spacing (left_boundary c) lc c1)
    as (Hafter & HLs & HLd & HLok).
  destruct (one_boundary_cones parent cone_spacing (right_boundary c) rc c1)
    as (_ & HRs & HRd & HRok).
  cbv zeta in *.
  rewrite calls_bind, outcome_bind, sample_calls_app, cone_dots_app, Hafter.
  set (L := paint_boundary_cones parent cone_spacing (left_boundary c) lc c1) in *.
  set (R := paint_boundary_cones parent cone_spacing (right_boundary c) rc c1) in *.
  split; [|split].
  - intros call Hin. apply in_app_or in Hin. destruct Hin as [Hin|Hin].
    + destruct (HLs call Hin) as [Hb ->]. exists (left_boundary c).
      split; [left; reflexivity|]. auto.
    + destruct (outcome L); [|contradiction].
      destruct (HRs call Hin) as [Hb ->]. exists (right_boundary c).
      split; [right; reflexivity|]. auto.
  - intros dot Hin. apply in_app_or in Hin. destruct Hin as [Hin|Hin].
    + destruct (HLd dot Hin) as (Hb & cones & pt & Hc & Hpt & ->).
      exists (left_boundary c), cones, pt. split; [left; reflexivity|]. auto.
    + destruct (outcome L); [|contradiction].
      destruct (HRd dot Hin) as (Hb & cones & pt & Hc & Hpt & ->).
      exists (right_boundary c), cones, pt. split; [right; reflexivity|]. auto.
  - intros Hok b Hof Hb.
    destruct (outcome L) as [[]|e] eqn:HL; [|discriminate].
    destruct Hof as [-> | ->].
    + destruct (HLok eq_refl Hb) as (Hin & cones & Hc & Hdots).
      split; [apply in_or_app; left; exact Hin|].
      exists cones. split; [exact Hc|].
      intros pt Hpt. apply in_or_app. left. apply Hdots. exact Hpt.
    + destruct (HRok Hok Hb) as (Hin & cones & Hc & Hdots).
      split; [apply in_or_app; right; exact Hin|].
      exists cones. split; [exact Hc|].
      intros pt Hpt. apply in_or_app. right. apply Hdots. exact Hpt.
Qed.

Lemma cones_sampled_for_boundaries_witness :
  let c := @Demo.canvas float float_num in
  let r := paintEvent (T := Demo.world) Demo.parent 800 600 c in
  let pts := [(10, 5); (10, 15); (10, 25)]%float in
  (outcome r = Ok tt /\ has_points (left_boundary c)) /\
  In (pts, 5%float, 10%float) (sample_calls (calls r)).
Proof.
  intros c r pts.
  assert (Hok : outcome r = Ok tt) by (vm_compute; reflexivity).
  assert (Hb : has_points (left_boundary c)).
  { eexists. split; [reflexivity|]. split; [discriminate|]. cbn. lia. }
  split; [split; assumption|].
  destruct (@cones_sampled_for_boundaries float float_num Demo.types Demo.world Demo.parent
              800%Z 600%Z c) as (_ & _ & H).
  exact (proj1 (H Hok (left_boundary c) (or_introl eq_refl) Hb)).
Defined.

(** * Further properties *)

(** ** Obstacle polygons *)

Section ObstaclePolygons.
Context {A : Type} {N : Num A} {Ty : Types} {T : Toolkit A Ty}.

Lemma obstacle_loop (c : Canvas A) (contours : list contour) :
  forall polys : list (polygon A),
    fold_left
      (fun polys cnt =>
         match squeeze cnt with
         | OneD _ => polys
         | TwoD pts => polys ++ [scale_points c pts]
         end)
      contours polys
    = polys ++ map (scale_points c) (filter squeezes_to_2D contours).
Proof.
  induction contours as [|cnt contours IH]; intros polys; cbn [fold_left filter map].
  - symmetry. apply app_nil_r.
  - rewrite IH. destruct cnt as [|p [|q cnt']]; cbn.
    + rewrite <- app_assoc. reflexivity.
    + reflexivity.
    + rewrite <- app_assoc. reflexivity.
Qed.

Lemma extract_obstacle_polygons_filter (c : Canvas A) (bm : option ndarray) :
  extract_obstacle_polygons c bm
  = map (scale_points c)
      (filter squeezes_to_2D (cv2_findContours bm RETR_CCOMP CHAIN_APPROX_SIMPLE)).
Proof. unfold extract_obstacle_polygons. cbv zeta. rewrite obstacle_loop. reflexivity. Qed.

End ObstaclePolygons.

(** X1.  [extract_obstacle_polygons] returns one polygon for every contour
    that does not consist of a single point, in the order of the contours:
    the contour's points, (x, y) as
    (x * scale_x + offset_x, y * scale_y + offset_y).  Contours of a single
    point are skipped, so there are never more polygons than contours, and
    each polygon has as many vertices as its contour has points. *)
Theorem extract_obstacle_polygons_contours :
  forall (A : Type) (N : Num A) (Ty : Types) (T : Toolkit A Ty) (c : Canvas A)
         (bm : option ndarray),
    let contours := cv2_findContours bm RETR_CCOMP CHAIN_APPROX_SIMPLE in
    let kept := filter (fun cnt : contour => negb (length cnt =? 1)%nat) contours in
    let place := fun p : Z * Z =>
      (add (mul (of_Z (fst p)) (scale_x c)) (offset_x c),
       add (mul (of_Z (snd p)) (scale_y c)) (offset_y c)) in
    extract_obstacle_polygons c bm = map (map place) kept /\
    (length (extract_obstacle_polygons c bm) <= length contours)%nat /\
    (forall i poly,
       nth_error (extract_obstacle_polygons c bm) i = Some poly ->
       exists cnt, nth_error kept i = Some cnt /\ poly = map place cnt /\
                   length poly = length cnt /\ length cnt <> 1%nat /\ In cnt contours).
Proof.
  intros A N Ty T c bm contours kept place.
  assert (H : extract_obstacle_polygons c bm = map (map place) kept).
  { rewrite extract_obstacle_polygons_filter. apply map_ext. intros cnt.
    apply scale_points_affine. }
  split; [exact H|]. split.
  - rewrite H, length_map. apply filter_length_le.
  - intros i poly Hi. rewrite H, nth_error_map in Hi.
    match type of Hi with
    | option_map _ ?t = _ => destruct t as [cnt|] eqn:Hk
    end; cbn in Hi; [|discriminate].
    injection Hi as <-. exists cnt. split; [exact Hk|]. split; [reflexivity|].
    split; [apply length_map|].
    apply nth_error_In in Hk. apply filter_In in Hk. destruct Hk as [Hin Hsq].
    split; [|exact Hin].
    apply negb_true_iff, Nat.eqb_neq in Hsq. exact Hsq.
Qed.

(** Five contours on a canvas with [scale_x] 3 and [scale_y] 2: the single
    point is skipped, the others are scaled. *)
Lemma extract_obstacle_polygons_contours_witness :
  extract_obstacle_polygons (T := Demo.world_of_several) (@Demo.canvas float float_num)
    (Some Demo.occupancy)
  = [[(3, 2); (3, 10); (15, 2)];
     [(0, 0); (0, 20); (30, 20); (30, 0)];
     [(60, 4); (60, 12); (72, 12); (72, 4)];
     [(45, 30); (45, 50); (75, 50); (75, 30)]]%float.
Proof.
  refine (eq_trans
            (proj1 (@extract_obstacle_polygons_contours float float_num Demo.types
                      Demo.world_of_several Demo.canvas (Some Demo.occupancy))) _).
  vm_compute. reflexivity.
Defined.

(** ** The ring of the free region *)

Section Ring.
Context {A : Type} {N : Num A} {Ty : Types} {T : Toolkit A Ty}.

Lemma last_app_one {X : Type} (xs : list X) (x d : X) : last (xs ++ [x]) d = x.
Proof. apply last_last. Qed.

(** The closed contour ends where it starts, keeps the contour as its
    beginning and is at most one point longer. *)
Lemma close_ring_ends (pts : list (Z * Z)) (p0 : Z * Z) :
  hd_error pts = Some p0 ->
  hd_error (close_ring pts) = Some p0 /\
  last (close_ring pts) p0 = p0 /\
  firstn (length pts) (close_ring pts) = pts /\
  (length pts <= length (close_ring pts) <= S (length pts))%nat.
Proof.
  destruct pts as [|q pts']; [discriminate|]. intros [= ->].
  unfold close_ring.
  destruct (array_equal p0 (last (p0 :: pts') p0)) eqn:Heq; cbn [negb].
  - apply array_equal_eq in Heq. split; [reflexivity|]. split; [symmetry; exact Heq|].
    split; [apply firstn_all|]. lia.
  - split; [reflexivity|]. split; [apply last_app_one|].
    split.
    + rewrite firstn_app, firstn_all, Nat.sub_diag. cbn [firstn]. apply app_nil_r.
    + rewrite length_app. cbn. lia.
Qed.

Lemma last_map {X Y : Type} (f : X -> Y) (xs : list X) (d : X) :
  last (map f xs) (f d) = f (last xs d).
Proof.
  induction xs as [|x xs IH]; [reflexivity|].
  destruct xs as [|y xs']; [reflexivity|].
  change (last (map f (y :: xs')) (f d) = f (last (y :: xs') d)). exact IH.
Qed.

End Ring.

(** X2.  Every polygon [extract_free_region] returns is valid and not
    empty, and [Polygon] built it from a closed ring of at least three
    vertices: the first vertex is the last one. *)
Theorem free_region_ring_closed :
  forall (A : Type) (N : Num A) (Ty : Types) (T : Toolkit A Ty) (c : Canvas A)
         (bm : option ndarray) (poly : Polygon),
    outcome (extract_free_region bm c) = Ok (Some poly) ->
    is_valid poly = true /\ is_empty poly = false /\
    exists (ring : polygon A) (v : point A),
      Polygon_ ring = Ok poly /\
      (3 <= length ring)%nat /\
      hd_error ring = Some v /\ last ring v = v.
Proof.
  intros A N Ty T c bm poly. rewrite extract_free_region_run.
  destruct (cv2_findContours bm RETR_CCOMP CHAIN_APPROX_SIMPLE) as [|cnt0 rest];
    [discriminate|].
  cbv zeta. destruct (squeeze (max_key cv2_contourArea cnt0 rest)) as [xy|pts];
    [discriminate|].
  destruct (Nat.ltb_spec (length pts) 3) as [Hshort|Hlong]; [discriminate|].
  destruct (Polygon_ (scale_points c (close_ring pts))) as [p|e] eqn:Hp;
    [|discriminate].
  cbn [outcome fst].
  destruct (is_valid p) eqn:Hv; destruct (is_empty p) eqn:He; cbn; try discriminate.
  intros [= <-]. split; [exact Hv|]. split; [exact He|].
  destruct pts as [|p0 pts'] eqn:Hpts; [cbn in Hlong; lia|]. rewrite <- Hpts in *.
  assert (Hhd : hd_error pts = Some p0) by (rewrite Hpts; reflexivity).
  destruct (close_ring_ends pts Hhd) as (Hh & Hl & _ & Hlen & _).
  exists (scale_points c (close_ring pts)),
    (transform_point c (of_Z (fst p0)) (of_Z (snd p0))).
  split; [exact Hp|]. split.
  - unfold scale_points. rewrite length_map. lia.
  - unfold scale_points. split.
    + destruct (close_ring pts) as [|q ring]; [discriminate|].
      injection Hh as ->. reflexivity.
    + rewrite (last_map (fun p => transform_point c (of_Z (fst p)) (of_Z (snd p)))
                 (close_ring pts) p0).
      rewrite Hl. reflexivity.
Qed.

Lemma free_region_ring_closed_witness :
  let c := @Demo.canvas float float_num in
  let ring := [(0, 0); (0, 58); (87, 58); (87, 0); (0, 0)]%float in
  outcome (extract_free_region (T := Demo.world) (Some Demo.occupancy) c) = Ok (Some ring) /\
  is_valid (Toolkit := Demo.world) ring = true.
Proof.
  intros c ring.
  assert (H : outcome (extract_free_region (T := Demo.world) (Some Demo.occupancy) c)
              = Ok (Some ring)) by (vm_compute; reflexivity).
  split; [exact H|].
  exact (proj1 (@free_region_ring_closed float float_num Demo.types Demo.world c
                  (Some Demo.occupancy) ring H)).
Defined.

(** ** Division by a zero scale *)



(** ** Scaling factors on an empty map *)

Section EmptyMap.
Context {A : Type} {N : Num A} {Ty : Types} {T : Toolkit A Ty}.

Lemma calculate_scaling_factors_no_map (c : Canvas A) :
  binary_map c = None ->
  calculate_scaling_factors c = (Raise AttributeError, c, []).
Proof.
  intros Hbm. unfold calculate_scaling_factors. run_step. rewrite Hbm. run_step.
  reflexivity.
Qed.

Lemma calculate_scaling_factors_no_columns (c : Canvas A) (bm : ndarray) :
  binary_map c = Some bm -> snd (shape bm) = 0%Z ->
  calculate_scaling_factors c = (Raise ZeroDivisionError, c, []).
Proof.
  intros Hbm Hw. unfold calculate_scaling_factors. run_step. rewrite Hbm. run_step.
  cbn [dot_shape outcome after calls fst snd app]. rewrite Hw. run_step. reflexivity.
Qed.

Lemma calculate_scaling_factors_no_rows (c : Canvas A) (bm : ndarray) :
  binary_map c = Some bm -> snd (shape bm) <> 0%Z -> fst (shape bm) = 0%Z ->
  calculate_scaling_factors c
  = (Raise ZeroDivisionError,
     set_scale_x (div (of_Z (QImage_width (sat_image c))) (of_Z (snd (shape bm)))) c,
     []).
Proof.
  intros Hbm Hw Hh. unfold calculate_scaling_factors. run_step. rewrite Hbm. run_step.
  cbn [dot_shape outcome after calls fst snd app]. run_step.
  rewrite (truediv_int_nonzero _ Hw). cbn [outcome after calls fst snd app].
  run_step. run_step. rewrite Hh. reflexivity.
Qed.

End EmptyMap.

(** X4.  [calculate_scaling_factors] raises exactly when the occupancy map
    is [None], and then [AttributeError], or has no column or no row, and
    then [ZeroDivisionError]; it has called nothing.  Without a map or
    without columns it leaves the canvas as it was; with columns but
    without rows it has already overwritten [scale_x], and only that. *)
Theorem calculate_scaling_factors_failure :
  forall (A : Type) (N : Num A) (Ty : Types) (T : Toolkit A Ty) (c : Canvas A),
    let r := calculate_scaling_factors c in
    (binary_map c = None -> r = (Raise AttributeError, c, [])) /\
    (forall bm,
       binary_map c = Some bm ->
       let occ_height := fst (shape bm) in
       let occ_width := snd (shape bm) in
       ((exists e, outcome r = Raise e) <-> occ_width = 0%Z \/ occ_height = 0%Z) /\
       (forall e, outcome r = Raise e -> e = ZeroDivisionError /\ calls r = []) /\
       (occ_width = 0%Z -> after r = c) /\
       (occ_width <> 0%Z -> occ_height = 0%Z ->
        after r = set_scale_x (div (of_Z (QImage_width (sat_image c))) (of_Z occ_width)) c)).
Proof.
  intros A N Ty T c r. subst r. split.
  { apply calculate_scaling_factors_no_map. }
  intros bm Hbm occ_height occ_width. subst occ_height occ_width.
  destruct (Z.eq_dec (snd (shape bm)) 0) as [Hw|Hw].
  - rewrite (calculate_scaling_factors_no_columns c Hbm Hw). cbn.
    split; [split; [auto|intros _; eexists; reflexivity]|].
    split; [intros e [= <-]; auto|]. split; [reflexivity|]. intros H. contradiction.
  - destruct (Z.eq_dec (fst (shape bm)) 0) as [Hh|Hh].
    + rewrite (calculate_scaling_factors_no_rows c Hbm Hw Hh). cbn.
      split; [split; [auto|intros _; eexists; reflexivity]|].
      split; [intros e [= <-]; auto|]. split; [intros H; contradiction|]. reflexivity.
    + rewrite (calculate_scaling_factors_run c Hbm Hw Hh). cbn.
      split; [split; [intros [e H]; discriminate|intros [H|H]; contradiction]|].
      split; [intros e H; discriminate|]. split; intros H; contradiction.
Qed.

(** ** Construction *)

Section Construction.
Context {A : Type} {N : Num A} {Ty : Types} {T : Toolkit A Ty}.

Lemma extract_free_region_returns (bm : option ndarray) (c : Canvas A) :
  exists res, outcome (extract_free_region bm c) = Ok res /\
              after (extract_free_region bm c) = c.
Proof.
  rewrite extract_free_region_run.
  destruct (cv2_findContours bm RETR_CCOMP CHAIN_APPROX_SIMPLE) as [|cnt0 rest];
    [eexists; split; reflexivity|].
  cbv zeta. destruct (squeeze _) as [xy|pts]; [eexists; split; reflexivity|].
  destruct (length pts <? 3)%nat; [eexists; split; reflexivity|].
  destruct (Polygon_ _) as [p|e]; eexists; split; reflexivity.
Qed.

(** The free region depends on the canvas through its scales and offsets
    only. *)
Lemma extract_free_region_transform (bm : option ndarray) (c c' : Canvas A) :
  scale_x c' = scale_x c -> scale_y c' = scale_y c ->
  offset_x c' = offset_x c -> offset_y c' = offset_y c ->
  outcome (extract_free_region bm c') = outcome (extract_free_region bm c).
Proof.
  intros Hsx Hsy Hox Hoy. rewrite !extract_free_region_run.
  assert (Hpts : forall pts, scale_points c' pts = scale_points c pts).
  { intros pts. unfold scale_points, transform_point. rewrite Hsx, Hsy, Hox, Hoy.
    reflexivity. }
  destruct (cv2_findContours bm RETR_CCOMP CHAIN_APPROX_SIMPLE) as [|cnt0 rest];
    [reflexivity|].
  cbv zeta. destruct (squeeze _) as [xy|pts]; [reflexivity|].
  destruct (length pts <? 3)%nat; [reflexivity|].
  rewrite Hpts. destruct (Polygon_ _) as [p|e]; reflexivity.
Qed.

(** The canvas that [init_attributes] builds from the blank one. *)
Lemma init_attributes_run (c : Canvas A) :
  exists fr,
    outcome (extract_free_region (binary_map c) c) = Ok fr /\
    (binary_map c = None -> outcome (init_attributes c) = Raise AttributeError) /\
    (forall bm,
       binary_map c = Some bm ->
       (snd (shape bm) <> 0%Z -> fst (shape bm) <> 0%Z ->
        outcome (init_attributes c) = Ok tt /\
        after (init_attributes c)
        = mkCanvas
            (div (of_Z (QImage_width (sat_image c))) (of_Z (snd (shape bm))))
            (div (of_Z (QImage_height (sat_image c))) (of_Z (fst (shape bm))))
            (offset_x c) (offset_y c) (sat_image c) (sat_pixmap c) (binary_map c)
            (extract_obstacle_polygons c (binary_map c)) fr
            (extract_obstacle_polygons c (binary_map c)) fr
            [] None None None false) /\
       (snd (shape bm) = 0%Z \/ fst (shape bm) = 0%Z ->
        outcome (init_attributes c) = Raise ZeroDivisionError)).
Proof.
  destruct (extract_free_region_returns (binary_map c) c) as (fr & Hfr & _).
  exists fr. split; [exact Hfr|].
  set (polys := extract_obstacle_polygons c (binary_map c)).
  set (c1 := set_obstacle_polygons polys c).
  destruct (extract_free_region_returns (binary_map c) c1) as (fr1 & Hfr1 & Hc1).
  assert (E1 : fr1 = fr).
  { pose proof (extract_free_region_transform (binary_map c) c c1
                  eq_refl eq_refl eq_refl eq_refl) as H.
    rewrite Hfr1, Hfr in H. injection H as H. exact H. }
  subst fr1.
  set (c2 := set_original_obstacle_polygons polys (set_free_region fr c1)).
  destruct (extract_free_region_returns (binary_map c) c2) as (fr2 & Hfr2 & Hc2).
  assert (E2 : fr2 = fr).
  { pose proof (extract_free_region_transform (binary_map c) c c2
                  eq_refl eq_refl eq_refl eq_refl) as H.
    rewrite Hfr2, Hfr in H. injection H as H. exact H. }
  subst fr2.
  set (c3 := set_original_free_region fr c2).
  unfold init_attributes.
  run_step. run_step. fold polys. fold c1.
  rewrite run_bind. change (binary_map c) with (binary_map c1) at 1.
  cbn [binary_map c1 set_obstacle_polygons].
  fold polys. fold c1. rewrite Hfr1, Hc1.
  cbn [outcome after calls fst snd app].
  run_step. run_step. run_step.
  change (extract_obstacle_polygons (set_free_region fr c1)
            (binary_map (set_free_region fr c1))) with polys.
  fold c2.
  rewrite run_bind. change (binary_map (set_free_region fr c1)) with (binary_map c).
  rewrite Hfr2, Hc2. cbn [outcome after calls fst snd app].
  run_step. fold c3. rewrite run_bind.
  split.
  { intros Hbm. rewrite (calculate_scaling_factors_no_map c3 Hbm). reflexivity. }
  intros bm Hbm. split.
  - intros Hw Hh.
    rewrite (@calculate_scaling_factors_run _ _ _ _ c3 bm Hbm Hw Hh).
    cbn [outcome after calls fst snd app].
    repeat run_step. split; reflexivity.
  - intros [Hw|Hh].
    + rewrite (@calculate_scaling_factors_no_columns _ _ _ _ c3 bm Hbm Hw). reflexivity.
    + destruct (Z.eq_dec (snd (shape bm)) 0) as [Hw|Hw].
      * rewrite (@calculate_scaling_factors_no_columns _ _ _ _ c3 bm Hbm Hw). reflexivity.
      * rewrite (@calculate_scaling_factors_no_rows _ _ _ _ c3 bm Hbm Hw Hh). reflexivity.
Qed.

End Construction.

Section Constructed.
Context {A : Type} {N : Num A} {Ty : Types} {T : Toolkit A Ty}.

(** [TrackCanvas(parent)], case by case. *)
Lemma init_run (parent : Parent A) :
  let occ_img := cv2_imread (fpath_location_occup_img parent) IMREAD_GRAYSCALE in
  match cv2_threshold occ_img 128 255 THRESH_BINARY with
  | Raise e => __init__ parent = Raise e
  | Ok (_, None) => __init__ parent = Raise AttributeError
  | Ok (_, Some bm) =>
      let sat := QImage_ (fpath_location_sat_img parent) in
      let blank :=
        mkCanvas one one (of_Z 0) (of_Z 0) sat (QPixmap_fromImage sat) (Some bm)
          [] None [] None [] None None None false in
      exists fr,
        outcome (extract_free_region (Some bm) blank) = Ok fr /\
        (snd (shape bm) <> 0%Z -> fst (shape bm) <> 0%Z ->
         __init__ parent
         = Ok (mkCanvas
                 (div (of_Z (QImage_width sat)) (of_Z (snd (shape bm))))
                 (div (of_Z (QImage_height sat)) (of_Z (fst (shape bm))))
                 (of_Z 0) (of_Z 0) sat (QPixmap_fromImage sat) (Some bm)
                 (extract_obstacle_polygons blank (Some bm)) fr
                 (extract_obstacle_polygons blank (Some bm)) fr
                 [] None None None false)) /\
        (snd (shape bm) = 0%Z \/ fst (shape bm) = 0%Z ->
         __init__ parent = Raise ZeroDivisionError)
  end.
Proof.
  cbv zeta. unfold __init__. cbv zeta.
  destruct (cv2_threshold _ _ _ _) as [[t bm]|e]; [|reflexivity].
  match goal with |- context [init_attributes ?b] => set (blank := b) end.
  destruct (init_attributes_run blank) as (fr & Hfr & Hnone & Hsome).
  destruct bm as [bm|].
  - destruct (Hsome bm eq_refl) as [Hok Hraise].
    exists fr. split; [exact Hfr|]. split.
    + intros Hw Hh. destruct (Hok Hw Hh) as [Hout Hafter].
      unfold outcome, after in Hout, Hafter.
      destruct (init_attributes blank) as [[[[]|e] c] l]; cbn in Hout, Hafter;
        [|discriminate].
      rewrite Hafter. reflexivity.
    + intros Hz. specialize (Hraise Hz). unfold outcome in Hraise.
      destruct (init_attributes blank) as [[[[]|e] c] l]; cbn in Hraise;
        [discriminate|].
      injection Hraise as ->. reflexivity.
  - specialize (Hnone eq_refl). unfold outcome in Hnone.
    destruct (init_attributes blank) as [[[[]|e] c] l]; cbn in Hnone;
      [discriminate|].
    injection Hnone as ->. reflexivity.
Qed.

End Constructed.

(** X5.  A constructed canvas holds the satellite image of the parent's
    path and its pixmap, the map [cv2.threshold] returned for the occupancy
    image, which is an array with a column and a row, the scales of
    [calculate_scaling_factors], zero offsets, no control point, no
    centerline, no boundary, and [boundaries_swapped] false. *)
Theorem init_postcondition :
  forall (A : Type) (N : Num A) (Ty : Types) (T : Toolkit A Ty) (parent : Parent A)
         (c : Canvas A),
    __init__ parent = Ok c ->
    exists bm,
      binary_map c = Some bm /\
      (exists t,
         cv2_threshold (cv2_imread (fpath_location_occup_img parent) IMREAD_GRAYSCALE)
           128 255 THRESH_BINARY
         = Ok (t, Some bm)) /\
      snd (shape bm) <> 0%Z /\ fst (shape bm) <> 0%Z /\
      sat_image c = QImage_ (fpath_location_sat_img parent) /\
      sat_pixmap c = QPixmap_fromImage (sat_image c) /\
      scale_x c = div (of_Z (QImage_width (sat_image c))) (of_Z (snd (shape bm))) /\
      scale_y c = div (of_Z (QImage_height (sat_image c))) (of_Z (fst (shape bm))) /\
      offset_x c = of_Z 0 /\ offset_y c = of_Z 0 /\
      control_points c = [] /\ centerline c = None /\
      left_boundary c = None /\ right_boundary c = None /\
      boundaries_swapped c = false.
Proof.
  intros A N Ty T parent c H. pose proof (init_run parent) as Hrun. cbv zeta in Hrun.
  destruct (cv2_threshold _ _ _ _) as [[t [bm|]]|e] eqn:Ht; [|congruence|congruence].
  destruct Hrun as (fr & _ & Hok & Hraise).
  destruct (Z.eq_dec (snd (shape bm)) 0) as [Hw|Hw];
    [rewrite (Hraise (or_introl Hw)) in H; discriminate|].
  destruct (Z.eq_dec (fst (shape bm)) 0) as [Hh|Hh];
    [rewrite (Hraise (or_intror Hh)) in H; discriminate|].
  rewrite (Hok Hw Hh) in H. injection H as <-. cbn.
  exists bm. split; [reflexivity|]. split; [exists t; reflexivity|].
  repeat split; assumption.
Qed.

Lemma init_postcondition_witness :
  let c := Demo.constructed in
  __init__ (T := Demo.world) Demo.parent = Ok c /\
  binary_map c = Some Demo.occupancy /\
  scale_x c = div (of_Z 100) (of_Z 30) /\ control_points c = [].
Proof.
  intros c.
  assert (H : __init__ (T := Demo.world) Demo.parent = Ok c) by (vm_compute; reflexivity).
  split; [exact H|].
  destruct (@init_postcondition float float_num Demo.types Demo.world Demo.parent c H)
    as (bm & Hbm & _ & _ & _ & _ & _ & _ & _ & _ & _ & Hcp & _).
  split; [vm_compute; reflexivity|]. split; [vm_compute; reflexivity|exact Hcp].
Defined.

(** X6.  Construction fails in three cases only: [cv2.threshold] raises;
    the map it returns is [None], and then [calculate_scaling_factors]
    raises [AttributeError] when it asks for the shape; or the map has no
    column or no row, and the division raises [ZeroDivisionError].
    Nothing tests what [cv2.imread] returned: an occupancy image that
    cannot be read fails in one of these ways, whichever [cv2.threshold]
    makes of [None].  A satellite image that cannot be loaded and a free
    region that cannot be built do not make construction fail. *)
Theorem init_failure :
  forall (A : Type) (N : Num A) (Ty : Types) (T : Toolkit A Ty) (parent : Parent A)
         (e : exn),
    let occ_img := cv2_imread (fpath_location_occup_img parent) IMREAD_GRAYSCALE in
    __init__ parent = Raise e <->
    cv2_threshold occ_img 128 255 THRESH_BINARY = Raise e \/
    exists t,
      (cv2_threshold occ_img 128 255 THRESH_BINARY = Ok (t, None) /\
       e = AttributeError) \/
      (exists bm,
         cv2_threshold occ_img 128 255 THRESH_BINARY = Ok (t, Some bm) /\
         (snd (shape bm) = 0%Z \/ fst (shape bm) = 0%Z) /\ e = ZeroDivisionError).
Proof.
  intros A N Ty T parent e occ_img. subst occ_img.
  pose proof (init_run parent) as Hrun. cbv zeta in Hrun.
  destruct (cv2_threshold _ _ _ _) as [[t [bm|]]|e'] eqn:Ht.
  - destruct Hrun as (fr & _ & Hok & Hraise). split.
    + intros H. right. exists t. right. exists bm. split; [reflexivity|].
      destruct (Z.eq_dec (snd (shape bm)) 0) as [Hw|Hw].
      { rewrite (Hraise (or_introl Hw)) in H. injection H as <-. auto. }
      destruct (Z.eq_dec (fst (shape bm)) 0) as [Hh|Hh].
      { rewrite (Hraise (or_intror Hh)) in H. injection H as <-. auto. }
      rewrite (Hok Hw Hh) in H. discriminate.
    + intros [H|(t' & [[H _]|(bm' & H & Hz & ->)])]; try discriminate.
      injection H as _ <-. apply Hraise. exact Hz.
  - rewrite Hrun. split.
    + intros [= <-]. right. exists t. left. auto.
    + intros [H|(t' & [[_ ->]|(bm' & H & _)])]; [discriminate|reflexivity|discriminate].
  - rewrite Hrun. split.
    + intros [= <-]. left. reflexivity.
    + intros [H|(t' & [[H _]|(bm' & H & _)])]; [|discriminate|discriminate].
      injection H as ->. reflexivity.
Qed.

(** An occupancy image that cannot be read, in a world where
    [cv2.threshold] hands back [None] for [None]. *)
Lemma init_failure_witness :
  cv2_imread (Toolkit := Demo.world_without_map) "occ.png" IMREAD_GRAYSCALE = None /\
  __init__ (T := Demo.world_without_map) Demo.parent = Raise AttributeError.
Proof.
  split; [reflexivity|].
  apply (proj2 (@init_failure float float_num Demo.types Demo.world_without_map
                  Demo.parent AttributeError)).
  right. exists 128%float. left. split; vm_compute; reflexivity.
Defined.



(** ** Steady blocks *)

Section Steady.
Context {A : Type} {N : Num A} {Ty : Types} {T : Toolkit A Ty}.

Lemma steady_ret {X : Type} (x : X) : steady (@ret A Ty X x).
Proof. intros c. split; [exists x|]; reflexivity. Qed.

Lemma steady_self : steady (@self A Ty).
Proof. intros c. split; [exists c|]; reflexivity. Qed.

Lemma steady_call (e : effect A) : steady (call e).
Proof. intros c. split; [exists tt|]; reflexivity. Qed.

Lemma steady_bind {X Y : Type} (m : M A X) (f : X -> M A Y) :
  steady m -> (forall x, steady (f x)) -> steady (bind m f).
Proof.
  intros Hm Hf c. destruct (Hm c) as [[x Hx] Hc].
  rewrite outcome_bind, after_bind, Hx, Hc. apply Hf.
Qed.

Lemma steady_for_each {X : Type} (xs : list X) (body : X -> M A unit) :
  (forall x, steady (body x)) -> steady (for_each xs body).
Proof.
  intros H. induction xs as [|x xs IH]; cbn [for_each].
  - apply steady_ret.
  - apply steady_bind; [apply H|intros _; exact IH].
Qed.

(** A steady block in front of [k] adds its calls and nothing else. *)
Lemma steady_then {X Y : Type} (m : M A X) (k : M A Y) (c : Canvas A) :
  steady m ->
  bind m (fun _ => k) c = (outcome (k c), after (k c), calls (m c) ++ calls (k c)).
Proof.
  intros Hm. destruct (Hm c) as [[x Hx] Hc]. rewrite run_bind, Hx, Hc. reflexivity.
Qed.

End Steady.

Ltac steady_step :=
  first
    [ apply steady_bind; [|intros ?]
    | apply steady_for_each; intros ?
    | apply steady_ret
    | apply steady_self
    | apply steady_call
    | match goal with
      | |- steady (if ?b then _ else _) => destruct b
      | |- steady (match ?x with _ => _ end) => destruct x
      end ].

Section SteadyBlocks.
Context {A : Type} {N : Num A} {Ty : Types} {T : Toolkit A Ty}.

Lemma paint_obstacles_steady : steady paint_obstacles.
Proof. unfold paint_obstacles. cbv zeta. repeat steady_step. Qed.

Lemma paint_control_points_steady : steady paint_control_points.
Proof. unfold paint_control_points. cbv zeta. repeat steady_step. Qed.

Lemma paint_centerline_steady : steady paint_centerline.
Proof. unfold paint_centerline. cbv zeta. repeat steady_step. Qed.

Lemma paint_boundaries_steady : steady paint_boundaries.
Proof. unfold paint_boundaries, paint_boundary. cbv zeta. repeat steady_step. Qed.

(** [paint_image] where it raises. *)
Lemma paint_image_no_map (width height : Z) (c : Canvas A) :
  binary_map c = None ->
  outcome (paint_image width height c) = Raise AttributeError /\
  after (paint_image width height c) = c.
Proof.
  intros Hbm. pose proof (paint_image_cases width height c) as H. cbv zeta in H.
  rewrite H, Hbm. split; reflexivity.
Qed.

Lemma paint_image_no_columns (width height : Z) (c : Canvas A) (bm : ndarray) :
  binary_map c = Some bm -> snd (shape bm) = 0%Z ->
  outcome (paint_image width height c) = Raise ZeroDivisionError /\
  after (paint_image width height c) = c.
Proof.
  intros Hbm Hw. pose proof (paint_image_cases width height c) as H. cbv zeta in H.
  rewrite H, Hbm, Hw. split; reflexivity.
Qed.

Lemma paint_image_no_rows (width height : Z) (c : Canvas A) (bm : ndarray) :
  binary_map c = Some bm -> snd (shape bm) <> 0%Z -> fst (shape bm) = 0%Z ->
  outcome (paint_image width height c) = Raise ZeroDivisionError /\
  after (paint_image width height c)
  = set_scale_x
      (div (of_Z (QPixmap_width
                    (QPixmap_scaled (sat_pixmap c) width height KeepAspectRatio
                       SmoothTransformation)))
           (of_Z (snd (shape bm)))) c.
Proof.
  intros Hbm Hw Hh. pose proof (paint_image_cases width height c) as H. cbv zeta in H.
  rewrite H, Hbm, (truediv_int_nonzero _ Hw), Hh. split; reflexivity.
Qed.

End SteadyBlocks.

(** X8.  The canvas after [paintEvent] does not depend on the parent, and
    painting again at the same widget size changes nothing: the scales are
    computed from the widget size, the pixmap and the map, never from the
    scales before. *)
Theorem paintEvent_repaint :
  forall (A : Type) (N : Num A) (Ty : Types) (T : Toolkit A Ty)
         (parent parent' : Parent A) (width height : Z) (c : Canvas A),
    after (paintEvent parent' width height c) = after (paintEvent parent width height c) /\
    after (paintEvent parent' width height (after (paintEvent parent width height c)))
    = after (paintEvent parent width height c).
Proof.
  intros A N Ty T parent parent' width height c. rewrite !paintEvent_after.
  split; [reflexivity|].
  destruct (binary_map c) as [bm|] eqn:Hbm.
  2:{ destruct (paint_image_no_map width height c Hbm) as [_ ->].
      apply (paint_image_no_map width height c Hbm). }
  destruct (Z.eq_dec (snd (shape bm)) 0) as [Hw|Hw].
  - destruct (paint_image_no_columns width height c Hbm Hw) as [_ ->].
    apply (paint_image_no_columns width height c Hbm Hw).
  - destruct (Z.eq_dec (fst (shape bm)) 0) as [Hh|Hh].
    + destruct (paint_image_no_rows width height c Hbm Hw Hh) as [_ ->].
      match goal with |- after (paint_image _ _ ?x) = _ => set (c1 := x) end.
      destruct (@paint_image_no_rows _ _ _ _ width height c1 bm Hbm Hw Hh) as [_ ->].
      subst c1. destruct c; reflexivity.
    + pose proof (paint_image_run width height c Hbm Hw Hh) as H. cbv zeta in H.
      rewrite H. cbn [after fst snd].
      match goal with |- after (paint_image _ _ ?x) = _ => set (c1 := x) end.
      pose proof (@paint_image_run _ _ _ _ width height c1 bm Hbm Hw Hh) as H1.
      cbv zeta in H1.
      rewrite H1. subst c1. destruct c; reflexivity.
Qed.

(** ** Who calls what *)

Section WhoCalls.
Context {A : Type} {N : Num A} {Ty : Types} {T : Toolkit A Ty}.

Lemma paintEvent_emits (parent : Parent A) (width height : Z) :
  emits painter_or_sampling (paintEvent parent width height).
Proof.
  unfold paintEvent, paint_image, paint_obstacles, paint_safe_region,
    paint_control_points, paint_centerline, paint_boundaries, paint_cones,
    paint_boundary, paint_boundary_cones, py_float.
  cbv zeta. repeat emits_step.
Qed.

Lemma mouse_events_emit (parent : Parent A) (pos : Z * Z) :
  emits parent_call (mousePressEvent parent pos) /\
  emits parent_call (mouseMoveEvent parent pos) /\
  emits parent_call (mouseReleaseEvent parent pos).
Proof.
  unfold mousePressEvent, mouseMoveEvent, mouseReleaseEvent.
  repeat split; cbv zeta; repeat emits_step.
Qed.

Lemma extract_free_region_emits (bm : option ndarray) :
  emits (fun e => exists msg x, e = Print msg x) (extract_free_region bm).
Proof.
  intros c. rewrite extract_free_region_run.
  destruct (cv2_findContours bm RETR_CCOMP CHAIN_APPROX_SIMPLE) as [|cnt0 rest];
    [constructor|].
  cbv zeta. destruct (squeeze _) as [xy|pts]; [constructor|].
  destruct (length pts <? 3)%nat; [constructor|].
  destruct (Polygon_ _) as [p|e]; [constructor|].
  constructor; [|constructor]. eexists. eexists. reflexivity.
Qed.

End WhoCalls.

(** X9.  [paintEvent] calls only the painter and [sample_cones]: it never
    calls the parent controller, never requests a repaint and never prints.
    The three mouse handlers call only the parent controller, at most once.
    [calculate_scaling_factors] calls nothing, and [extract_free_region]
    prints at most once and calls nothing else. *)
Theorem calls_by_method :
  forall (A : Type) (N : Num A) (Ty : Types) (T : Toolkit A Ty) (parent : Parent A)
         (width height : Z) (pos : Z * Z) (bm : option ndarray) (c : Canvas A),
    Forall painter_or_sampling (calls (paintEvent parent width height c)) /\
    (Forall parent_call (calls (mousePressEvent parent pos c)) /\
     (length (calls (mousePressEvent parent pos c)) <= 1)%nat) /\
    (Forall parent_call (calls (mouseMoveEvent parent pos c)) /\
     (length (calls (mouseMoveEvent parent pos c)) <= 1)%nat) /\
    calls (mouseReleaseEvent parent pos c) = [HandleCanvasRelease pos] /\
    calls (calculate_scaling_factors c) = [] /\
    (Forall (fun e => exists msg x, e = Print msg x) (calls (extract_free_region bm c)) /\
     (length (calls (extract_free_region bm c)) <= 1)%nat).
Proof.
  intros A N Ty T parent width height pos bm c.
  split; [apply paintEvent_emits|].
  split.
  { split; [apply (proj1 (mouse_events_emit parent pos))|].
    rewrite mousePressEvent_run. destruct (inverse_transform_point _ _ _); cbn; lia. }
  split.
  { split; [apply (proj1 (proj2 (mouse_events_emit parent pos)))|].
    rewrite mouseMoveEvent_run. destruct (dragging parent); [|cbn; lia].
    destruct (inverse_transform_point _ _ _); cbn; lia. }
  split; [reflexivity|].
  split.
  { unfold calculate_scaling_factors, bind, self, lift, assign. cbn.
    destruct (binary_map c) as [img|]; cbn; [|reflexivity].
    destruct (truediv_int _ (snd (shape img))); cbn; [|reflexivity].
    destruct (truediv_int _ (fst (shape img))); reflexivity. }
  split; [apply extract_free_region_emits|].
  rewrite extract_free_region_run.
  destruct (cv2_findContours bm RETR_CCOMP CHAIN_APPROX_SIMPLE) as [|cnt0 rest];
    [cbn; lia|].
  cbv zeta. destruct (squeeze _) as [xy|pts]; [cbn; lia|].
  destruct (length pts <? 3)%nat; [cbn; lia|].
  destruct (Polygon_ _) as [p|e]; cbn; lia.
Qed.

(** ** When [paintEvent] raises *)

Section PaintFailure.
Context {A : Type} {N : Num A} {Ty : Types} {T : Toolkit A Ty}.

Lemma paint_safe_region_outcome (parent : Parent A) (c : Canvas A) :
  let distance :=
    opp (mul (parsed_or (backoff_entry_text parent) (min_boundary_backoff parent))
             (px_per_m parent)) in
  after (paint_safe_region parent c) = c /\
  (outcome (paint_safe_region parent c) = Ok tt \/
   exists fr e,
     free_region c = Some fr /\
     outcome (paint_safe_region parent c) = Raise e /\
     (buffer fr distance = Raise e \/
      exists safe_region,
        buffer fr distance = Ok safe_region /\
        geometry_bool safe_region = true /\ geometry_is_empty safe_region = false /\
        exterior_coords safe_region = Raise e)).
Proof.
  cbv zeta. pose proof (paint_safe_region_run parent c) as Hrun. cbv zeta in Hrun.
  rewrite Hrun. clear Hrun.
  destruct (free_region c) as [fr|] eqn:Hfr; [|split; [reflexivity|left; reflexivity]].
  destruct (buffer fr _) as [safe_region|e] eqn:Hbuf.
  2:{ split; [reflexivity|]. right. exists fr, e. auto. }
  destruct (geometry_bool safe_region) eqn:Hbool;
    [|split; [reflexivity|left; reflexivity]].
  destruct (geometry_is_empty safe_region) eqn:Hempty;
    [split; [reflexivity|left; reflexivity]|].
  cbn [andb negb].
  destruct (exterior_coords safe_region) as [[coords|]|e] eqn:Hext.
  - destruct (4 <=? length coords)%nat; split; try reflexivity; left; reflexivity.
  - split; [reflexivity|left; reflexivity].
  - split; [reflexivity|]. right. exists fr, e. split; [reflexivity|].
    split; [reflexivity|]. right. exists safe_region. auto.
Qed.

Lemma paint_boundary_cones_outcome (parent : Parent A) (spacing : A)
  (b : option (list (Pt A))) (color : QColor) (c : Canvas A) :
  after (paint_boundary_cones parent spacing b color c) = c /\
  (outcome (paint_boundary_cones parent spacing b color c) = Ok tt \/
   exists e,
     has_points b /\
     sample_cones (map xy (points_of b)) spacing (px_per_m parent) = Raise e /\
     outcome (paint_boundary_cones parent spacing b color c) = Raise e).
Proof.
  rewrite paint_boundary_cones_run.
  destruct (drawable b) eqn:Hd; [|split; [reflexivity|left; reflexivity]].
  apply drawable_has_points in Hd.
  destruct (sample_cones _ _ _) as [cones|e] eqn:Hs.
  - split; [reflexivity|left; reflexivity].
  - split; [reflexivity|]. right. exists e. auto.
Qed.

Lemma paint_cones_outcome (parent : Parent A) (c : Canvas A) :
  let spacing := parsed_or (cone_spacing_entry_text parent) (default_cone_distance parent) in
  after (paint_cones parent c) = c /\
  (outcome (paint_cones parent c) = Ok tt \/
   exists b e,
     (b = left_boundary c \/ b = right_boundary c) /\ has_points b /\
     sample_cones (map xy (points_of b)) spacing (px_per_m parent) = Raise e /\
     outcome (paint_cones parent c) = Raise e).
Proof.
  cbv zeta. pose proof (paint_cones_run parent c) as Hrun. cbv zeta in Hrun.
  rewrite Hrun. clear Hrun. rewrite outcome_bind, after_bind.
  match goal with
  | |- context [outcome (paint_boundary_cones ?p ?s (left_boundary c) ?col c)] =>
      destruct (paint_boundary_cones_outcome p s (left_boundary c) col c)
        as [Hafter [HL|(e & Hb & Hs & HL)]]
  end; rewrite HL, ?Hafter.
  - match goal with
    | |- context [outcome (paint_boundary_cones ?p ?s (right_boundary c) ?col c)] =>
        destruct (paint_boundary_cones_outcome p s (right_boundary c) col c)
          as [Hafter' [HR|(e & Hb & Hs & HR)]]
    end; rewrite HR, ?Hafter'.
    + split; [reflexivity|left; reflexivity].
    + split; [reflexivity|]. right. exists (right_boundary c), e. auto.
  - split; [reflexivity|]. right. exists (left_boundary c), e. auto.
Qed.

End PaintFailure.

(** X10.  [paintEvent] raises in five cases only: the occupancy map is
    [None] ([AttributeError]); it has no column or no row
    ([ZeroDivisionError]); [buffer] raises for the free region and the
    backoff distance, as shapely does for a distance that is not finite;
    the buffered region, true and not empty, has no usable [exterior]
    attribute; or [sample_cones] raises for a boundary of two points or
    more.  A backoff or cone-spacing entry that does not parse never makes
    it raise; one that parses as [nan] or [inf] reaches [buffer]. *)
Theorem paintEvent_failure :
  forall (A : Type) (N : Num A) (Ty : Types) (T : Toolkit A Ty) (parent : Parent A)
         (width height : Z) (c : Canvas A),
    let r := paintEvent parent width height c in
    let backoff_val :=
      match float_ (backoff_entry_text parent) with
      | Some v => v
      | None => min_boundary_backoff parent
      end in
    let cone_spacing :=
      match float_ (cone_spacing_entry_text parent) with
      | Some v => v
      | None => default_cone_distance parent
      end in
    let distance := opp (mul backoff_val (px_per_m parent)) in
    outcome r = Ok tt \/
    exists e,
      outcome r = Raise e /\
      ((e = AttributeError /\ binary_map c = None) \/
       (e = ZeroDivisionError /\
        exists bm, binary_map c = Some bm /\
                   (snd (shape bm) = 0%Z \/ fst (shape bm) = 0%Z)) \/
       (exists fr, free_region c = Some fr /\ buffer fr distance = Raise e) \/
       (exists fr safe_region,
          free_region c = Some fr /\ buffer fr distance = Ok safe_region /\
          geometry_bool safe_region = true /\ geometry_is_empty safe_region = false /\
          exterior_coords safe_region = Raise e) \/
       (exists pts,
          (left_boundary c = Some pts \/ right_boundary c = Some pts) /\
          (2 <= length pts)%nat /\
          sample_cones (map coordinates pts) cone_spacing (px_per_m parent) = Raise e)).
Proof.
  intros A N Ty T parent width height c r backoff_val cone_spacing distance.
  subst r distance backoff_val cone_spacing.
  fold (parsed_or (backoff_entry_text parent) (min_boundary_backoff parent)).
  fold (parsed_or (cone_spacing_entry_text parent) (default_cone_distance parent)).
  pose proof (paintEvent_keeps parent width height c) as Hsame.
  rewrite paintEvent_after in Hsame.
  unfold paintEvent. rewrite outcome_bind.
  destruct (binary_map c) as [bm|] eqn:Hbm.
  2:{ destruct (paint_image_no_map width height c Hbm) as [-> _].
      right. exists AttributeError. auto. }
  destruct (Z.eq_dec (snd (shape bm)) 0) as [Hw|Hw].
  { destruct (paint_image_no_columns width height c Hbm Hw) as [-> _].
    right. exists ZeroDivisionError. split; [reflexivity|]. right. left.
    split; [reflexivity|]. exists bm. auto. }
  destruct (Z.eq_dec (fst (shape bm)) 0) as [Hh|Hh].
  { destruct (paint_image_no_rows width height c Hbm Hw Hh) as [-> _].
    right. exists ZeroDivisionError. split; [reflexivity|]. right. left.
    split; [reflexivity|]. exists bm. auto. }
  pose proof (paint_image_run width height c Hbm Hw Hh) as Himage. cbv zeta in Himage.
  rewrite Himage in Hsame |- *. cbn [outcome after fst snd] in Hsame |- *.
  match type of Hsame with same_but_scales c ?x => set (c1 := x) in * end.
  assert (Hfr : free_region c1 = free_region c) by reflexivity.
  assert (Hl : left_boundary c1 = left_boundary c) by reflexivity.
  assert (Hr : right_boundary c1 = right_boundary c) by reflexivity.
  rewrite (steady_then _ c1 paint_obstacles_steady). cbn [outcome fst].
  rewrite outcome_bind.
  destruct (paint_safe_region_outcome parent c1)
    as [Hafter [Hok|(fr & e & Hf & Hout & Hwhy)]].
  2:{ rewrite Hout. right. exists e. split; [reflexivity|]. right. right.
      rewrite Hfr in Hf. destruct Hwhy as [Hbuf|(g & Hbuf & Hb & He & Hext)].
      - left. exists fr. auto.
      - right. left. exists fr, g. auto. }
  rewrite Hok, Hafter.
  rewrite (steady_then _ c1 paint_control_points_steady). cbn [outcome fst].
  rewrite (steady_then _ c1 paint_centerline_steady). cbn [outcome fst].
  rewrite (steady_then _ c1 paint_boundaries_steady). cbn [outcome fst].
  destruct (paint_cones_outcome parent c1) as [_ [Hcones|(b & e & Hb & Hp & Hs & Hout)]].
  - left. exact Hcones.
  - right. exists e. split; [exact Hout|]. do 4 right.
    destruct Hp as (pts & Hpts & _ & Hlen).
    exists pts. rewrite Hl, Hr in Hb. rewrite Hpts in Hs. cbn [points_of] in Hs.
    split; [destruct Hb as [Hb|Hb]; rewrite <- Hb; auto|].
    split; [lia|]. exact Hs.
Qed.

(** A backoff entry that reads [nan]: the distance reaches [buffer], which
    rejects it as shapely does. *)
Lemma paintEvent_failure_witness :
  let parent := @Demo.parent_reading float float_num "nan" in
  let c := @Demo.canvas float float_num in
  let r := paintEvent (T := Demo.world) parent 800 600 c in
  outcome r = Raise ValueError /\
  exists fr,
    free_region c = Some fr /\
    buffer (Toolkit := Demo.world) fr (opp (mul nan (px_per_m parent))) = Raise ValueError.
Proof.
  intros parent c r.
  assert (Hout : outcome r = Raise ValueError) by (vm_compute; reflexivity).
  split; [exact Hout|].
  destruct (@paintEvent_failure float float_num Demo.types Demo.world parent 800%Z 600%Z c)
    as [Hok|(e & He & Hwhy)].
  - exfalso. fold r in Hok. rewrite Hout in Hok. discriminate.
  - exists [(0, 0); (0, 29); (29, 29); (29, 0); (0, 0)]%float.
    split; [reflexivity|]. vm_compute. reflexivity.
Defined.

(** ** The strokes of each block *)

Section BlockStrokes.
Context {A : Type} {N : Num A} {Ty : Types} {T : Toolkit A Ty}.

Lemma strokes_app (l1 l2 : list (effect A)) :
  forall pen brush,
    strokes pen brush (l1 ++ l2)
    = strokes pen brush l1 ++ strokes (pen_after pen l1) (brush_after brush l1) l2.
Proof.
  induction l1 as [|e l1 IH]; intros pen brush; [reflexivity|].
  destruct e; cbn; rewrite ?IH; reflexivity.
Qed.

Lemma for_each_fixed {X : Type} (xs : list X) (body : X -> M A unit)
  (g : X -> list (effect A)) :
  (forall x c, body x c = (Ok tt, c, g x)) ->
  forall c, for_each xs body c = (Ok tt, c, flat_map g xs).
Proof.
  intros H. induction xs as [|x xs IH]; intros c; [reflexivity|].
  cbn [for_each flat_map]. rewrite run_bind, H. cbn [outcome after calls fst snd].
  rewrite IH. reflexivity.
Qed.

Lemma control_point_color_rule (i n : nat) :
  (if (i =? 0)%nat && (2 <? n)%nat then mkQColor 255 0 0
   else if (i =? n - 1)%nat && (2 <? n)%nat then mkQColor 0 0 255
   else mkQColor 0 255 0)
  = control_point_color i n.
Proof.
  unfold control_point_color.
  destruct (Nat.leb_spec n 2) as [H|H]; destruct (Nat.ltb_spec 2 n) as [H'|H'];
    try lia; rewrite ?andb_false_r, ?andb_true_r; [reflexivity|].
  destruct (i =? 0)%nat; [reflexivity|]. destruct (i =? n - 1)%nat; reflexivity.
Qed.

Lemma paint_control_points_run (c : Canvas A) :
  paint_control_points c =
  (Ok tt, c,
   flat_map
     (fun ipt =>
        [SetBrush (control_point_color (fst ipt) (length (control_points c)));
         SetPen black_pen;
         DrawEllipse (transform_point c (fst (snd ipt)) (snd (snd ipt))) 5 5])
     (combine (seq 0 (length (control_points c))) (control_points c))).
Proof.
  unfold paint_control_points. run_step. cbv zeta.
  match goal with
  | |- context [for_each ?xs ?body c] =>
      rewrite (@for_each_fixed _ xs body
                 (fun ipt =>
                    [SetBrush (control_point_color (fst ipt) (length (control_points c)));
                     SetPen black_pen;
                     DrawEllipse (transform_point c (fst (snd ipt)) (snd (snd ipt))) 5 5]))
  end; [reflexivity|].
  intros [i pt] c'. cbn [fst snd].
  rewrite <- control_point_color_rule.
  destruct ((i =? 0)%nat && (2 <? length (control_points c))%nat); [reflexivity|].
  destruct ((i =? length (control_points c) - 1)%nat
            && (2 <? length (control_points c))%nat); reflexivity.
Qed.

Lemma index_pairs {X : Type} (l : list X) (d : X) :
  map (fun i => (nth (i - 1) l d, nth i l d)) (seq 1 (length l - 1)) = neighbours l.
Proof.
  induction l as [|x l IH]; [reflexivity|].
  destruct l as [|y l']; [reflexivity|].
  assert (Hn : neighbours (x :: y :: l') = (x, y) :: neighbours (y :: l')) by reflexivity.
  rewrite Hn, <- IH. clear Hn IH.
  change (length (x :: y :: l') - 1)%nat with (S (length l')).
  change (length (y :: l') - 1)%nat with (length l' - 0)%nat. rewrite Nat.sub_0_r.
  cbn [seq map]. f_equal.
  rewrite <- seq_shift, map_map. apply map_ext_in.
  intros i Hi. apply in_seq in Hi.
  destruct i as [|i]; [lia|]. cbn [Nat.sub nth]. rewrite Nat.sub_0_r. reflexivity.
Qed.

Lemma paint_centerline_run (c : Canvas A) :
  paint_centerline c =
  (Ok tt, c,
   if drawable (centerline c) then
     SetPen green_dashes
       :: map (fun pq => DrawLine (fst pq) (snd pq))
            (neighbours (map (display_point c) (points_of (centerline c))))
   else []).
Proof.
  unfold paint_centerline. run_step.
  destruct (drawable (centerline c)); [|reflexivity].
  run_step. cbv zeta.
  set (dp := map (display_point c) (points_of (centerline c))).
  rewrite (for_each_calls (seq 1 (length dp - 1))
             (fun i => DrawLine (nth (i - 1) dp (of_Z 0, of_Z 0)) (nth i dp (of_Z 0, of_Z 0)))
             c).
  cbn [outcome after calls fst snd app].
  rewrite <- (index_pairs dp (of_Z 0, of_Z 0)), map_map. reflexivity.
Qed.

Lemma paint_boundary_run (b : option (list (Pt A))) (color : QColor) (c : Canvas A) :
  paint_boundary b color c =
  (Ok tt, c,
   if drawable b then
     [SetPen (QPen_ color 2); DrawPolyline (map (display_point c) (points_of b))]
   else []).
Proof.
  unfold paint_boundary. run_step. destruct (drawable b); [|reflexivity].
  run_step. reflexivity.
Qed.

Lemma paint_boundaries_run (c : Canvas A) :
  paint_boundaries c =
  (Ok tt, c,
   (if drawable (left_boundary c) then
      [SetPen (QPen_ (left_color (boundaries_swapped c)) 2);
       DrawPolyline (map (display_point c) (points_of (left_boundary c)))]
    else [])
   ++ (if drawable (right_boundary c) then
         [SetPen (QPen_ (right_color (boundaries_swapped c)) 2);
          DrawPolyline (map (display_point c) (points_of (right_boundary c)))]
       else [])).
Proof.
  unfold paint_boundaries. run_step. rewrite run_bind, paint_boundary_run.
  cbn [outcome after calls fst snd]. rewrite paint_boundary_run.
  cbn [outcome after calls fst snd].
  destruct (boundaries_swapped c); reflexivity.
Qed.

(** Each block sets its pen, and its brush where it fills, before it draws:
    its strokes do not depend on what the painter held before. *)
(** The points the drawing code reads off a centerline or boundary, and
    where it shows them. *)
Lemma drawable_track (b : option (list (Pt A))) :
  if drawable b then exists p q rest, b = Some (p :: q :: rest) else track b = [].
Proof.
  destruct b as [[|p [|q rest]]|]; cbn; try reflexivity. exists p, q, rest. reflexivity.
Qed.

Lemma display_point_shown (c : Canvas A) (pt : Pt A) :
  display_point c pt = shown_at c (coordinates pt).
Proof. destruct pt; reflexivity. Qed.

Lemma xy_coordinates (pt : Pt A) : xy pt = coordinates pt.
Proof. destruct pt; reflexivity. Qed.

Lemma track_points (b : option (list (Pt A))) :
  drawable b = true ->
  track b <> [] /\ map xy (points_of b) = track b /\
  forall c, map (display_point c) (points_of b) = map (shown_at c) (track b).
Proof.
  intros Hd. pose proof (drawable_track b) as H. rewrite Hd in H.
  destruct H as (p & q & rest & ->). cbn [track points_of map].
  split; [discriminate|]. split.
  - change (map xy (p :: q :: rest) = map coordinates (p :: q :: rest)).
    apply map_ext. apply xy_coordinates.
  - intros c.
    change (map (display_point c) (p :: q :: rest)
            = map (shown_at c) (map coordinates (p :: q :: rest))).
    rewrite map_map. apply map_ext. apply display_point_shown.
Qed.

Lemma track_none (b : option (list (Pt A))) : drawable b = false -> track b = [].
Proof. intros Hd. pose proof (drawable_track b) as H. rewrite Hd in H. exact H. Qed.

Lemma obstacles_strokes (c : Canvas A) (pen : QPen) (brush : QColor) :
  strokes pen brush (calls (paint_obstacles c)) = obstacle_strokes c.
Proof.
  rewrite paint_obstacles_run. cbn [calls snd strokes]. unfold obstacle_strokes.
  induction (original_obstacle_polygons c) as [|poly polys IH]; [reflexivity|].
  cbn. f_equal. exact IH.
Qed.

Lemma safe_region_strokes_run (parent : Parent A) (c : Canvas A) (pen : QPen)
  (brush : QColor) :
  strokes pen brush (calls (paint_safe_region parent c)) = safe_region_strokes parent c.
Proof.
  pose proof (paint_safe_region_run parent c) as Hrun. cbv zeta in Hrun. rewrite Hrun.
  unfold safe_region_strokes. cbv zeta.
  destruct (free_region c) as [fr|]; [|reflexivity].
  destruct (buffer fr _) as [safe_region|e]; [|reflexivity].
  destruct (geometry_bool safe_region && negb (geometry_is_empty safe_region)).
  - destruct (exterior_coords safe_region) as [[coords|]|e]; try reflexivity.
    cbn [andb]. destruct (4 <=? length coords)%nat; [|reflexivity].
    reflexivity.
  - destruct (exterior_coords safe_region) as [[coords|]|e]; reflexivity.
Qed.

Lemma control_points_strokes (c : Canvas A) (pen : QPen) (brush : QColor) :
  strokes pen brush (calls (paint_control_points c)) = marker_strokes c.
Proof.
  rewrite paint_control_points_run. cbn [calls snd]. unfold marker_strokes. cbv zeta.
  generalize (length (control_points c)) at 1 3 as n.
  generalize (combine (seq 0 (length (control_points c))) (control_points c)) as l.
  intros l n. revert pen brush.
  induction l as [|ipt l IH]; intros pen brush; [reflexivity|].
  cbn. f_equal. apply IH.
Qed.

Lemma centerline_strokes_run (c : Canvas A) (pen : QPen) (brush : QColor) :
  strokes pen brush (calls (paint_centerline c)) = centerline_strokes c.
Proof.
  rewrite paint_centerline_run. cbn [calls snd]. unfold centerline_strokes.
  destruct (drawable (centerline c)) eqn:Hd.
  - destruct (track_points _ Hd) as (_ & _ & Hshow). rewrite <- Hshow.
    cbn [strokes].
    induction (neighbours (map (display_point c) (points_of (centerline c))))
      as [|pq l IH]; [reflexivity|].
    cbn. f_equal. exact IH.
  - rewrite (track_none _ Hd). reflexivity.
Qed.

Lemma boundary_strokes_run (b : option (list (Pt A))) (color : QColor) (c : Canvas A)
  (pen : QPen) (brush : QColor) :
  strokes pen brush (calls (paint_boundary b color c)) = boundary_strokes c b color.
Proof.
  rewrite paint_boundary_run. cbn [calls snd]. unfold boundary_strokes.
  destruct (drawable b) eqn:Hd.
  - destruct (track_points _ Hd) as (Hne & _ & Hshow). rewrite Hshow.
    destruct (track b); [contradiction|reflexivity].
  - rewrite (track_none _ Hd). reflexivity.
Qed.

Lemma boundaries_strokes (c : Canvas A) (pen : QPen) (brush : QColor) :
  strokes pen brush (calls (paint_boundaries c))
  = boundary_strokes c (left_boundary c) (left_color (boundaries_swapped c))
    ++ boundary_strokes c (right_boundary c) (right_color (boundaries_swapped c)).
Proof.
  rewrite paint_boundaries_run. cbn [calls snd].
  rewrite <- (boundary_strokes_run (left_boundary c) _ c pen brush).
  rewrite <- (boundary_strokes_run (right_boundary c) _ c pen brush).
  rewrite !paint_boundary_run. cbn [calls snd].
  destruct (drawable (left_boundary c)); destruct (drawable (right_boundary c));
    reflexivity.
Qed.

Lemma boundary_cones_strokes (parent : Parent A) (b : option (list (Pt A)))
  (color : QColor) (c : Canvas A) (pen : QPen) (brush : QColor) :
  strokes pen brush
    (calls (paint_boundary_cones parent
              (parsed_or (cone_spacing_entry_text parent) (default_cone_distance parent))
              b color c))
  = cone_strokes parent c b color.
Proof.
  rewrite paint_boundary_cones_run. unfold cone_strokes. cbv zeta.
  destruct (drawable b) eqn:Hd.
  - destruct (track_points _ Hd) as (Hne & Hxy & _). rewrite Hxy.
    destruct (track b) as [|p pts] eqn:Ht; [contradiction|].
    destruct (sample_cones _ _ _) as [cones|e]; [|reflexivity].
    cbn [calls snd strokes].
    induction cones as [|pt cones IH]; [reflexivity|].
    cbn. f_equal. exact IH.
  - rewrite (track_none _ Hd). reflexivity.
Qed.

End BlockStrokes.

(** ** The picture of a [paintEvent] *)

Section Picture.
Context {A : Type} {N : Num A} {Ty : Types} {T : Toolkit A Ty}.

(** The strokes of the blocks after the image, on the canvas [c1] the image
    block leaves: the picture without its first layer, or a beginning of it
    when a block raises. *)
Lemma paint_layers (parent : Parent A) (c1 : Canvas A) (pen : QPen) (brush : QColor) :
  let k :=
    bind paint_obstacles (fun _ =>
    bind (paint_safe_region parent) (fun _ =>
    bind paint_control_points (fun _ =>
    bind paint_centerline (fun _ =>
    bind paint_boundaries (fun _ => paint_cones parent))))) in
  exists rest,
    obstacle_strokes c1
    ++ safe_region_strokes parent c1
    ++ marker_strokes c1
    ++ centerline_strokes c1
    ++ boundary_strokes c1 (left_boundary c1) (left_color (boundaries_swapped c1))
    ++ boundary_strokes c1 (right_boundary c1) (right_color (boundaries_swapped c1))
    ++ cone_strokes parent c1 (left_boundary c1) (left_color (boundaries_swapped c1))
    ++ cone_strokes parent c1 (right_boundary c1) (right_color (boundaries_swapped c1))
    = strokes pen brush (calls (k c1)) ++ rest /\
    (outcome (k c1) = Ok tt -> rest = []).
Proof.
  cbv zeta.
  rewrite (steady_then _ c1 paint_obstacles_steady). cbn [outcome calls fst snd].
  rewrite strokes_app, obstacles_strokes.
  rewrite calls_bind, outcome_bind, strokes_app, safe_region_strokes_run.
  destruct (paint_safe_region_outcome parent c1) as [Hafter [Hok|(fr & e & _ & Hout & _)]].
  2:{ rewrite Hout. cbn [strokes]. eexists. split.
      - rewrite <- !app_assoc. cbn [app]. reflexivity.
      - discriminate. }
  rewrite Hok, Hafter.
  rewrite (steady_then _ c1 paint_control_points_steady). cbn [outcome calls fst snd].
  rewrite strokes_app, control_points_strokes.
  rewrite (steady_then _ c1 paint_centerline_steady). cbn [outcome calls fst snd].
  rewrite strokes_app, centerline_strokes_run.
  rewrite (steady_then _ c1 paint_boundaries_steady). cbn [outcome calls fst snd].
  rewrite strokes_app, boundaries_strokes.
  pose proof (paint_cones_run parent c1) as Hrun. cbv zeta in Hrun. rewrite Hrun.
  clear Hrun. rewrite calls_bind, outcome_bind, strokes_app, boundary_cones_strokes.
  match goal with
  | |- context [outcome (paint_boundary_cones ?p ?s (left_boundary c1) ?col c1)] =>
      destruct (paint_boundary_cones_outcome p s (left_boundary c1) col c1)
        as [HafterL [HL|(e & _ & _ & HL)]]
  end; rewrite HL.
  - rewrite HafterL, boundary_cones_strokes. exists []. split; [|reflexivity].
    rewrite app_nil_r, <- !app_assoc.
    destruct (boundaries_swapped c1); reflexivity.
  - cbn [strokes].
    exists (cone_strokes parent c1 (right_boundary c1)
              (right_color (boundaries_swapped c1))).
    split; [|discriminate].
    rewrite app_nil_r, <- !app_assoc.
    destruct (boundaries_swapped c1); reflexivity.
Qed.

(** The strokes of a whole [paintEvent] against the picture. *)
Lemma paintEvent_strokes (parent : Parent A) (width height : Z) (c : Canvas A)
  (pen : QPen) (brush : QColor) :
  let r := paintEvent parent width height c in
  exists rest,
    picture parent width height (after r) = strokes pen brush (calls r) ++ rest /\
    (outcome r = Ok tt -> rest = []).
Proof.
  cbv zeta.
  pose proof (paintEvent_keeps parent width height c) as Hsame.
  assert (Hpix : sat_pixmap (after (paintEvent parent width height c)) = sat_pixmap c)
    by (rewrite Hsame; reflexivity).
  unfold picture. rewrite Hpix. clear Hsame Hpix.
  rewrite paintEvent_after. unfold paintEvent.
  rewrite calls_bind, outcome_bind, paint_image_calls. cbn [app strokes].
  destruct (outcome (paint_image width height c)) as [[]|e].
  - destruct (paint_layers parent (after (paint_image width height c)) pen brush)
      as (rest & Heq & Hrest).
    cbv zeta in Heq, Hrest. exists rest. split; [|exact Hrest].
    cbn [app]. f_equal. exact Heq.
  - eexists. split; [reflexivity|discriminate].
Qed.

(** The strokes of a [paintEvent] that returns normally. *)
Lemma paintEvent_strokes_ok (parent : Parent A) (width height : Z) (c : Canvas A)
  (pen : QPen) (brush : QColor) :
  outcome (paintEvent parent width height c) = Ok tt ->
  strokes pen brush (calls (paintEvent parent width height c))
  = picture parent width height (after (paintEvent parent width height c)).
Proof.
  intros Hok.
  destruct (paintEvent_strokes parent width height c pen brush) as (rest & Heq & Hrest).
  cbv zeta in Heq, Hrest. rewrite Heq, (Hrest Hok), app_nil_r. reflexivity.
Qed.

End Picture.

(** X11.  Whatever pen and brush the painter starts with, the strokes of a
    [paintEvent] are a beginning of the picture of the canvas it leaves, and
    the whole picture when it returns normally.  The picture is, bottom
    layer first: the satellite pixmap scaled to the widget; the polygons of
    [original_obstacle_polygons] in red; the exterior of the buffered free
    region in dashed magenta, under the conditions of the safe region; a
    marker of radius 5 for each control point; dashed green lines between
    neighbouring points of the centerline; the left and the right boundary
    as polylines; the cones of the left and of the right boundary as dots
    of radius 3.  A point (x, y) is shown at
    (x * scale_x + offset_x, y * scale_y + offset_y); a centerline or
    boundary is drawn when it has two points or more. *)
Theorem paintEvent_picture :
  forall (A : Type) (N : Num A) (Ty : Types) (T : Toolkit A Ty) (parent : Parent A)
         (width height : Z) (c : Canvas A) (pen : QPen) (brush : QColor),
    let r := paintEvent parent width height c in
    exists rest,
      picture parent width height (after r) = strokes pen brush (calls r) ++ rest /\
      (outcome r = Ok tt -> rest = []).
Proof.
  intros A N Ty T parent width height c pen brush. apply paintEvent_strokes.
Qed.

(** The picture of the constructed canvas with a track on it, painted on a
    widget of 800 by 600 pixels: the pixmap is scaled to 600 by 600 and the
    scales are 20. *)
Lemma paintEvent_picture_witness :
  let c := after (update_drawing [(15, 5); (12, 15); (15, 25)]%float (Demo.boundary 15)
                    (Demo.boundary 10) (Demo.boundary 20) false Demo.constructed) in
  let r := paintEvent (T := Demo.world) Demo.parent 800 600 c in
  let black := QPen_ (mkQColor 0 0 0) 1 in
  let dashes := setStyle DashLine (QPen_ (mkQColor 0 255 0) 2) in
  let red := mkQColor 255 0 0 in
  let green := mkQColor 0 255 0 in
  let blue := mkQColor 0 0 255 in
  let yellow := mkQColor 255 255 0 in
  outcome r = Ok tt /\
  strokes (mkQPen (mkQColor 9 9 9) 7 DashLine) (mkQColor 1 2 3) (calls r)
  = [@PixmapStroke float Demo.types 0 0 (600, 600)%Z;
     PolygonStroke (QPen_ red 2) [(0, 0); (0, 580); (580, 580); (580, 0)];
     PolygonStroke (setStyle DashLine (QPen_ (mkQColor 255 0 255) 2))
       [(100, 100); (100, 480); (480, 480); (480, 100); (100, 100)];
     EllipseStroke black red (300, 100) 5 5;
     EllipseStroke black green (240, 300) 5 5;
     EllipseStroke black blue (300, 500) 5 5;
     LineStroke dashes (300, 100) (300, 300);
     LineStroke dashes (300, 300) (300, 500);
     PolylineStroke (QPen_ blue 2) [(200, 100); (200, 300); (200, 500)];
     PolylineStroke (QPen_ yellow 2) [(400, 100); (400, 300); (400, 500)];
     EllipseStroke black blue (200, 100) 3 3;
     EllipseStroke black blue (200, 300) 3 3;
     EllipseStroke black blue (200, 500) 3 3;
     EllipseStroke black yellow (400, 100) 3 3;
     EllipseStroke black yellow (400, 300) 3 3;
     EllipseStroke black yellow (400, 500) 3 3]%float.
Proof.
  intros c r black dashes red green blue yellow.
  assert (Hok : outcome r = Ok tt) by (vm_compute; reflexivity).
  split; [exact Hok|].
  destruct (@paintEvent_picture float float_num Demo.types Demo.world Demo.parent
              800%Z 600%Z c (mkQPen (mkQColor 9 9 9) 7 DashLine) (mkQColor 1 2 3))
    as (rest & Heq & Hrest).
  rewrite (Hrest Hok), app_nil_r in Heq.
  refine (eq_trans (eq_sym Heq) _). vm_compute. reflexivity.
Defined.

(** ** A track, from [update_drawing] to the widget *)

Section Layers.
Context {A : Type} {N : Num A} {Ty : Types} {T : Toolkit A Ty}.

Lemma flat_map_of_map {X Y Z : Type} (f : Y -> list Z) (g : X -> Y) (l : list X) :
  flat_map f (map g l) = flat_map (fun x => f (g x)) l.
Proof. induction l as [|x l IH]; [reflexivity|]. cbn. rewrite IH. reflexivity. Qed.

Lemma flat_map_none {X Z : Type} (f : X -> list Z) (l : list X) :
  (forall x, f x = []) -> flat_map f l = [].
Proof.
  intros H. induction l as [|x l IH]; [reflexivity|]. cbn. rewrite H, IH. reflexivity.
Qed.

Lemma flat_map_each {X Z : Type} (f : X -> list Z) (h : X -> Z) (l : list X) :
  (forall x, f x = [h x]) -> flat_map f l = map h l.
Proof.
  intros H. induction l as [|x l IH]; [reflexivity|]. cbn. rewrite H, IH. reflexivity.
Qed.

(** What each layer holds of one kind of stroke: [f] picks the kind. *)
Lemma obstacle_layer {Z : Type} (f : stroke -> list Z) (c : Canvas A) :
  (forall pen pts, f (PolygonStroke pen pts) = []) ->
  flat_map f (obstacle_strokes c) = [].
Proof.
  intros H. unfold obstacle_strokes. rewrite flat_map_of_map. apply flat_map_none.
  intros poly. apply H.
Qed.

Lemma safe_region_layer {Z : Type} (f : stroke -> list Z) (parent : Parent A)
  (c : Canvas A) :
  (forall pen pts, f (PolygonStroke pen pts) = []) ->
  flat_map f (safe_region_strokes parent c) = [].
Proof.
  intros H. unfold safe_region_strokes. cbv zeta.
  destruct (free_region c) as [fr|]; [|reflexivity].
  destruct (buffer fr _) as [safe_region|e]; [|reflexivity].
  destruct (exterior_coords safe_region) as [[coords|]|e]; try reflexivity.
  destruct (geometry_bool safe_region && negb (geometry_is_empty safe_region)
            && (4 <=? length coords)%nat); [|reflexivity].
  cbn [flat_map]. rewrite H. reflexivity.
Qed.

Lemma marker_layer {Z : Type} (f : stroke -> list Z) (c : Canvas A) :
  (forall pen brush center, f (EllipseStroke pen brush center 5 5) = []) ->
  flat_map f (marker_strokes c) = [].
Proof.
  intros H. unfold marker_strokes. cbv zeta. rewrite flat_map_of_map.
  apply flat_map_none. intros ipt. apply H.
Qed.

Lemma centerline_layer {Z : Type} (f : stroke -> list Z) (c : Canvas A) :
  (forall pen p q, f (LineStroke pen p q) = []) ->
  flat_map f (centerline_strokes c) = [].
Proof.
  intros H. unfold centerline_strokes. rewrite flat_map_of_map.
  apply flat_map_none. intros pq. apply H.
Qed.

Lemma boundary_layer {Z : Type} (f : stroke -> list Z) (c : Canvas A)
  (b : option (list (Pt A))) (color : QColor) :
  (forall pen pts, f (PolylineStroke pen pts) = []) ->
  flat_map f (boundary_strokes c b color) = [].
Proof.
  intros H. unfold boundary_strokes. destruct (track b); [reflexivity|].
  cbn [flat_map]. rewrite H. reflexivity.
Qed.

Lemma cone_layer {Z : Type} (f : stroke -> list Z) (parent : Parent A) (c : Canvas A)
  (b : option (list (Pt A))) (color : QColor) :
  (forall pen brush center, f (EllipseStroke pen brush center 3 3) = []) ->
  flat_map f (cone_strokes parent c b color) = [].
Proof.
  intros H. unfold cone_strokes. cbv zeta. destruct (track b); [reflexivity|].
  destruct (sample_cones _ _ _); [|reflexivity].
  rewrite flat_map_of_map. apply flat_map_none. intros pt. apply H.
Qed.

(** The control point markers are the ellipses of radius 5. *)
Lemma picture_markers (parent : Parent A) (width height : Z) (c : Canvas A) :
  ellipses_of 5 (picture parent width height c)
  = map (fun ipt =>
           (black_pen, control_point_color (fst ipt) (length (control_points c)),
            shown_at c (snd ipt)))
      (combine (seq 0 (length (control_points c))) (control_points c)).
Proof.
  unfold picture, ellipses_of. cbn [flat_map app]. rewrite !flat_map_app.
  rewrite obstacle_layer, safe_region_layer, centerline_layer, !boundary_layer,
    !cone_layer by reflexivity.
  cbn [app]. rewrite !app_nil_r. unfold marker_strokes. cbv zeta.
  rewrite flat_map_of_map. apply flat_map_each. reflexivity.
Qed.

(** The centerline is the lines. *)
Lemma picture_lines (parent : Parent A) (width height : Z) (c : Canvas A) :
  lines_of (picture parent width height c)
  = map (fun pq => (green_dashes, fst pq, snd pq))
      (neighbours (map (shown_at c) (track (centerline c)))).
Proof.
  unfold picture, lines_of. cbn [flat_map app]. rewrite !flat_map_app.
  rewrite obstacle_layer, safe_region_layer, marker_layer, !boundary_layer,
    !cone_layer by reflexivity.
  cbn [app]. rewrite !app_nil_r. unfold centerline_strokes.
  rewrite flat_map_of_map. apply flat_map_each. reflexivity.
Qed.

(** The boundaries are the polylines. *)
Lemma picture_polylines (parent : Parent A) (width height : Z) (c : Canvas A) :
  polylines_of (picture parent width height c)
  = match track (left_boundary c) with
    | [] => []
    | pts => [(QPen_ (left_color (boundaries_swapped c)) 2, map (shown_at c) pts)]
    end
    ++ match track (right_boundary c) with
       | [] => []
       | pts => [(QPen_ (right_color (boundaries_swapped c)) 2, map (shown_at c) pts)]
       end.
Proof.
  unfold picture, polylines_of. cbn [flat_map app]. rewrite !flat_map_app.
  rewrite obstacle_layer, safe_region_layer, marker_layer, centerline_layer,
    !cone_layer by reflexivity.
  cbn [app]. rewrite !app_nil_r. unfold boundary_strokes.
  destruct (track (left_boundary c)); destruct (track (right_boundary c)); reflexivity.
Qed.

(** The cones are the ellipses of radius 3. *)
Lemma picture_cones (parent : Parent A) (width height : Z) (c : Canvas A) :
  let cones_of := fun (b : option (list (Pt A))) (color : QColor) =>
    match track b with
    | [] => []
    | pts =>
        match sample_cones pts
                (parsed_or (cone_spacing_entry_text parent) (default_cone_distance parent))
                (px_per_m parent) with
        | Ok cones => map (fun pt => (black_pen, color, shown_at c pt)) cones
        | Raise _ => []
        end
    end in
  ellipses_of 3 (picture parent width height c)
  = cones_of (left_boundary c) (left_color (boundaries_swapped c))
    ++ cones_of (right_boundary c) (right_color (boundaries_swapped c)).
Proof.
  cbv zeta. unfold picture, ellipses_of. cbn [flat_map app]. rewrite !flat_map_app.
  rewrite obstacle_layer, safe_region_layer, marker_layer, centerline_layer,
    !boundary_layer by reflexivity.
  cbn [app]. unfold cone_strokes. cbv zeta. f_equal.
  - destruct (track (left_boundary c)); [reflexivity|].
    destruct (sample_cones _ _ _); [|reflexivity].
    rewrite flat_map_of_map. apply flat_map_each. reflexivity.
  - destruct (track (right_boundary c)); [reflexivity|].
    destruct (sample_cones _ _ _); [|reflexivity].
    rewrite flat_map_of_map. apply flat_map_each. reflexivity.
Qed.

(** What a [paintEvent] keeps of the track. *)
Lemma paintEvent_track (parent : Parent A) (width height : Z) (c : Canvas A) :
  let c2 := after (paintEvent parent width height c) in
  control_points c2 = control_points c /\ centerline c2 = centerline c /\
  left_boundary c2 = left_boundary c /\ right_boundary c2 = right_boundary c /\
  boundaries_swapped c2 = boundaries_swapped c.
Proof.
  cbv zeta. pose proof (paintEvent_keeps parent width height c) as H.
  unfold same_but_scales in H. rewrite H. repeat split.
Qed.

(** A boundary that is sampled while [paintEvent] returns normally. *)
Lemma paintEvent_ok_sampled (parent : Parent A) (width height : Z) (c : Canvas A) :
  outcome (paintEvent parent width height c) = Ok tt ->
  forall b, b = left_boundary c \/ b = right_boundary c -> drawable b = true ->
  exists cones,
    sample_cones (map xy (points_of b))
      (parsed_or (cone_spacing_entry_text parent) (default_cone_distance parent))
      (px_per_m parent) = Ok cones.
Proof.
  intros Hok.
  destruct (paintEvent_track parent width height c) as (_ & _ & Hl & Hr & _).
  cbv zeta in Hl, Hr. rewrite paintEvent_after in Hl, Hr.
  unfold paintEvent in Hok. rewrite outcome_bind in Hok.
  destruct (outcome (paint_image width height c)) as [[]|e]; [|discriminate].
  set (c1 := after (paint_image width height c)) in *.
  rewrite (steady_then _ c1 paint_obstacles_steady) in Hok. cbn [outcome fst] in Hok.
  rewrite outcome_bind in Hok.
  destruct (paint_safe_region_outcome parent c1)
    as [Hafter [Hs|(fr & e & _ & Hout & _)]]; [|rewrite Hout in Hok; discriminate].
  rewrite Hs, Hafter in Hok.
  rewrite (steady_then _ c1 paint_control_points_steady) in Hok. cbn [outcome fst] in Hok.
  rewrite (steady_then _ c1 paint_centerline_steady) in Hok. cbn [outcome fst] in Hok.
  rewrite (steady_then _ c1 paint_boundaries_steady) in Hok. cbn [outcome fst] in Hok.
  pose proof (paint_cones_run parent c1) as Hrun. cbv zeta in Hrun.
  rewrite Hrun in Hok. clear Hrun.
  rewrite outcome_bind, !paint_boundary_cones_run, Hl, Hr in Hok.
  intros b [-> | ->] Hd.
  - rewrite Hd in Hok. destruct (sample_cones _ _ _) as [cones|e];
      [exists cones; reflexivity|discriminate].
  - destruct (drawable (left_boundary c)).
    + destruct (sample_cones (map xy (points_of (left_boundary c))) _ _);
        [|discriminate].
      cbn [outcome after fst snd] in Hok. rewrite Hd in Hok.
      destruct (sample_cones (map xy (points_of (right_boundary c))) _ _) as [cones|e];
        [exists cones; reflexivity|discriminate].
    + cbn [outcome after fst snd] in Hok. rewrite Hd in Hok.
      destruct (sample_cones (map xy (points_of (right_boundary c))) _ _) as [cones|e];
        [exists cones; reflexivity|discriminate].
Qed.

(** A centerline or boundary of two points or more is one that is drawn. *)
Lemma two_points_drawable (pts : list (Pt A)) :
  (2 <= length pts)%nat ->
  drawable (Some pts) = true /\ track (Some pts) = map coordinates pts /\
  track (Some pts) <> [].
Proof.
  intros Hlen. destruct pts as [|p [|q rest]]; cbn in Hlen; try lia.
  split; [reflexivity|]. split; [reflexivity|discriminate].
Qed.

End Layers.

(** X12.  From [update_drawing] to the widget.  Let [update_drawing] hand
    over control points, a centerline and a left and a right boundary of
    two points or more each, and let the [paintEvent] after it return
    normally.  Then it shows every point (x, y) at
    (x * scale_x + offset_x, y * scale_y + offset_y), with the scales it
    has just computed, and it draws: one black-rimmed marker of radius 5
    per control point, in their order, the first red and the last blue
    when there are more than two and all others green; a dashed green line
    from each point of the centerline to the next; the left and then the
    right boundary as one polyline each, the left one blue and the right
    one yellow, or the other way round when [swapped]; and for each
    boundary the cones that [sample_cones] returns for its points, the
    parsed or default cone spacing and [px_per_m], as black-rimmed dots of
    radius 3 in the colour of that boundary. *)
Theorem update_drawing_then_paintEvent :
  forall (A : Type) (N : Num A) (Ty : Types) (T : Toolkit A Ty) (parent : Parent A)
         (width height : Z) (cps : list (point A)) (cpts lpts rpts : list (Pt A))
         (swapped : bool) (c : Canvas A) (pen : QPen) (brush : QColor),
    let r := paintEvent parent width height
               (after (update_drawing cps (Some cpts) (Some lpts) (Some rpts) swapped c)) in
    let shown := strokes pen brush (calls r) in
    let place := fun p : point A =>
      (add (mul (fst p) (scale_x (after r))) (offset_x (after r)),
       add (mul (snd p) (scale_y (after r))) (offset_y (after r))) in
    let xy_of := fun pt : Pt A =>
      match pt with
      | QPointF x y => (x, y)
      | Coords x y => (x, y)
      end in
    let cone_spacing :=
      match float_ (cone_spacing_entry_text parent) with
      | Some v => v
      | None => default_cone_distance parent
      end in
    let black := QPen_ (mkQColor 0 0 0) 1 in
    let left := if swapped then mkQColor 255 255 0 else mkQColor 0 0 255 in
    let right := if swapped then mkQColor 0 0 255 else mkQColor 255 255 0 in
    (2 <= length cpts)%nat -> (2 <= length lpts)%nat -> (2 <= length rpts)%nat ->
    outcome r = Ok tt ->
    ellipses_of 5 shown
    = map (fun ipt => (black, control_point_color (fst ipt) (length cps), place (snd ipt)))
        (combine (seq 0 (length cps)) cps) /\
    lines_of shown
    = map (fun pq => (setStyle DashLine (QPen_ (mkQColor 0 255 0) 2), fst pq, snd pq))
        (combine (map place (map xy_of cpts)) (tl (map place (map xy_of cpts)))) /\
    polylines_of shown
    = [(QPen_ left 2, map place (map xy_of lpts));
       (QPen_ right 2, map place (map xy_of rpts))] /\
    exists left_cones right_cones,
      sample_cones (map xy_of lpts) cone_spacing (px_per_m parent) = Ok left_cones /\
      sample_cones (map xy_of rpts) cone_spacing (px_per_m parent) = Ok right_cones /\
      ellipses_of 3 shown
      = map (fun pt => (black, left, place pt)) left_cones
        ++ map (fun pt => (black, right, place pt)) right_cones.
Proof.
  intros A N Ty T parent width height cps cpts lpts rpts swapped c pen brush
    r shown place xy_of cone_spacing black left right Hc Hl Hr Hok.
  subst shown place r.
  rewrite (paintEvent_strokes_ok parent width height _ pen brush Hok).
  destruct (paintEvent_track parent width height
              (after (update_drawing cps (Some cpts) (Some lpts) (Some rpts) swapped c)))
    as (Hcps & Hcl & Hlb & Hrb & Hsw).
  cbv zeta in Hcps, Hcl, Hlb, Hrb, Hsw.
  destruct (@paintEvent_ok_sampled _ _ _ _ parent width height _ Hok (Some lpts))
    as [left_cones Hlc]; [left; reflexivity|apply two_points_drawable; exact Hl|].
  destruct (@paintEvent_ok_sampled _ _ _ _ parent width height _ Hok (Some rpts))
    as [right_cones Hrc]; [right; reflexivity|apply two_points_drawable; exact Hr|].
  set (r := paintEvent parent width height _) in *.
  change (control_points (after r) = cps) in Hcps.
  change (centerline (after r) = Some cpts) in Hcl.
  change (left_boundary (after r) = Some lpts) in Hlb.
  change (right_boundary (after r) = Some rpts) in Hrb.
  change (boundaries_swapped (after r) = swapped) in Hsw.
  pose proof (picture_cones parent width height (after r)) as Hcones.
  cbv zeta in Hcones.
  rewrite picture_markers, picture_lines, picture_polylines, Hcones. clear Hcones.
  rewrite Hcps, Hcl, Hlb, Hrb, Hsw.
  destruct (two_points_drawable cpts Hc) as (_ & Hct & _).
  destruct (two_points_drawable lpts Hl) as (_ & Hlt & Hln).
  destruct (two_points_drawable rpts Hr) as (_ & Hrt & Hrn).
  cbn [points_of] in Hlc, Hrc.
  rewrite Hct.
  destruct (track (Some lpts)) as [|pl tl] eqn:Hlt'; [contradiction|]. rewrite Hlt.
  destruct (track (Some rpts)) as [|pr tr] eqn:Hrt'; [contradiction|]. rewrite Hrt.
  change (map xy lpts) with (map coordinates lpts) in Hlc.
  change (map xy rpts) with (map coordinates rpts) in Hrc.
  rewrite Hlc, Hrc.
  split; [reflexivity|]. split; [reflexivity|]. split; [destruct swapped; reflexivity|].
  exists left_cones, right_cones.
  split; [exact Hlc|]. split; [exact Hrc|]. destruct swapped; reflexivity.
Qed.

Lemma update_drawing_then_paintEvent_witness :
  let cps := [(15, 5); (12, 15); (15, 25)]%float in
  let cpts := [QPointF 15 5; Coords 15 15; QPointF 15 25]%float in
  let lpts := [QPointF 10 5; Coords 10 15; QPointF 10 25]%float in
  let rpts := [QPointF 20 5; Coords 20 15; QPointF 20 25]%float in
  let c := after (update_drawing cps (Some cpts) (Some lpts) (Some rpts) true
                    (@Demo.canvas float float_num)) in
  let r := paintEvent (T := Demo.world) Demo.parent 800 600 c in
  let shown := strokes default_pen pure_green (calls r) in
  let black := QPen_ (mkQColor 0 0 0) 1 in
  let dashes := setStyle DashLine (QPen_ (mkQColor 0 255 0) 2) in
  ((2 <= length cpts)%nat /\ (2 <= length lpts)%nat /\ (2 <= length rpts)%nat /\
   outcome r = Ok tt) /\
  ellipses_of 5 shown
  = [(black, mkQColor 255 0 0, (300, 100)); (black, mkQColor 0 255 0, (240, 300));
     (black, mkQColor 0 0 255, (300, 500))]%float /\
  lines_of shown
  = [(dashes, (300, 100), (300, 300)); (dashes, (300, 300), (300, 500))]%float /\
  polylines_of shown
  = [(QPen_ (mkQColor 255 255 0) 2, [(200, 100); (200, 300); (200, 500)]);
     (QPen_ (mkQColor 0 0 255) 2, [(400, 100); (400, 300); (400, 500)])]%float /\
  ellipses_of 3 shown
  = [(black, mkQColor 255 255 0, (200, 100)); (black, mkQColor 255 255 0, (200, 300));
     (black, mkQColor 255 255 0, (200, 500)); (black, mkQColor 0 0 255, (400, 100));
     (black, mkQColor 0 0 255, (400, 300)); (black, mkQColor 0 0 255, (400, 500))]%float.
Proof.
  intros cps cpts lpts rpts c r shown black dashes.
  assert (Hc : (2 <= length cpts)%nat) by (cbn; lia).
  assert (Hl : (2 <= length lpts)%nat) by (cbn; lia).
  assert (Hr : (2 <= length rpts)%nat) by (cbn; lia).
  assert (Hok : outcome r = Ok tt) by (vm_compute; reflexivity).
  split; [split; [exact Hc|split; [exact Hl|split; [exact Hr|exact Hok]]]|].
  destruct (@update_drawing_then_paintEvent float float_num Demo.types Demo.world
              Demo.parent 800%Z 600%Z cps cpts lpts rpts true Demo.canvas
              default_pen pure_green Hc Hl Hr Hok)
    as (Hmarkers & Hlines & Hpolylines & left_cones & right_cones & _ & _ & Hcones).
  split; [exact (eq_trans Hmarkers ltac:(vm_compute; reflexivity))|].
  split; [exact (eq_trans Hlines ltac:(vm_compute; reflexivity))|].
  split; [exact (eq_trans Hpolylines ltac:(vm_compute; reflexivity))|].
  vm_compute. reflexivity.
Defined.

(** ** The attributes [paintEvent] does not read *)

Section Blind.
Context {A : Type} {N : Num A} {Ty : Types} {T : Toolkit A Ty}.
Variable f : Canvas A -> Canvas A.

Lemma blind_ret {X : Type} (x : X) : blind f (ret x).
Proof. intros c. reflexivity. Qed.

Lemma blind_raise {X : Type} (e : exn) : blind f (@raise A Ty X e).
Proof. intros c. reflexivity. Qed.

Lemma blind_call (e : effect A) : blind f (call e).
Proof. intros c. reflexivity. Qed.

Lemma blind_lift {X : Type} (r : result X) : blind f (lift r).
Proof. intros c. reflexivity. Qed.

Lemma blind_bind {X Y : Type} (m : M A X) (k : X -> M A Y) :
  blind f m -> (forall x, blind f (k x)) -> blind f (bind m k).
Proof.
  intros Hm Hk c. rewrite (run_bind m k (f c)), !Hm. cbn [outcome after calls fst snd].
  rewrite (run_bind m k c). destruct (outcome (m c)) as [x|e]; [|reflexivity].
  rewrite !Hk. reflexivity.
Qed.

(** Reading the canvas for a continuation that has the same code for the
    changed canvas: it reads none of the attributes [f] changes. *)
Lemma blind_read {Y : Type} (k : Canvas A -> M A Y) :
  (forall s, k (f s) = k s) -> (forall s, blind f (k s)) -> blind f (bind self k).
Proof.
  intros Hsame Hk c. rewrite (run_bind self k (f c)), (run_bind self k c).
  cbn [self outcome after calls fst snd app]. rewrite Hsame, !Hk. reflexivity.
Qed.

Lemma run_try_except {X : Type} (m : M A X) (handles : exn -> bool) (h : exn -> M A X)
  (c : Canvas A) :
  try_except m handles h c =
  match outcome (m c) with
  | Ok x => (Ok x, after (m c), calls (m c))
  | Raise e =>
      if handles e then
        (outcome (h e (after (m c))), after (h e (after (m c))),
         calls (m c) ++ calls (h e (after (m c))))
      else (Raise e, after (m c), calls (m c))
  end.
Proof.
  unfold try_except, outcome, after, calls.
  destruct (m c) as [[[x|e] c1] l1]; cbn; [reflexivity|].
  destruct (handles e); [|reflexivity].
  destruct (h e c1) as [[r c2] l2]. reflexivity.
Qed.

Lemma blind_try_except {X : Type} (m : M A X) (handles : exn -> bool) (h : exn -> M A X) :
  blind f m -> (forall e, blind f (h e)) -> blind f (try_except m handles h).
Proof.
  intros Hm Hh c. rewrite (run_try_except m handles h (f c)), !Hm.
  cbn [outcome after calls fst snd]. rewrite (run_try_except m handles h c).
  destruct (outcome (m c)) as [x|e]; [reflexivity|].
  destruct (handles e); [|reflexivity].
  rewrite !Hh. reflexivity.
Qed.

Lemma blind_for_each {X : Type} (xs : list X) (body : X -> M A unit) :
  (forall x, blind f (body x)) -> blind f (for_each xs body).
Proof.
  intros Hb. induction xs as [|x xs IH]; [apply blind_ret|].
  cbn [for_each]. apply blind_bind; [apply Hb|intros _; exact IH].
Qed.

(** A first block that runs the same on [c'] as on [c], before blocks that
    are blind to what is left of the difference. *)
Lemma bind_unread {X Y : Type} (m : M A X) (k : X -> M A Y) (c c' : Canvas A) :
  outcome (m c') = outcome (m c) ->
  calls (m c') = calls (m c) ->
  (forall x, outcome (m c) = Ok x -> after (m c') = f (after (m c))) ->
  (forall x, blind f (k x)) ->
  outcome (bind m k c') = outcome (bind m k c) /\
  calls (bind m k c') = calls (bind m k c).
Proof.
  intros Ho Hc Ha Hk. rewrite (run_bind m k c'), (run_bind m k c), Ho, Hc.
  destruct (outcome (m c)) as [x|e] eqn:Hout; [|split; reflexivity].
  rewrite (Ha x eq_refl), !Hk. split; reflexivity.
Qed.

End Blind.

Ltac blind_step :=
  first
    [ apply blind_read; [intros ?; reflexivity|intros ?]
    | apply blind_bind; [|intros ?]
    | apply blind_try_except; [|intros ?]
    | apply blind_for_each; intros ?
    | apply blind_ret
    | apply blind_raise
    | apply blind_call
    | apply blind_lift
    | match goal with
      | |- blind _ (if ?b then _ else _) => destruct b
      | |- blind _ (match ?x with _ => _ end) => destruct x
      end ].

Section Unread.
Context {A : Type} {N : Num A} {Ty : Types} {T : Toolkit A Ty}.
Variables (img : QImage) (ops : list (polygon A)) (ofr : option Polygon).

Lemma paint_obstacles_blind : blind (restock img ops ofr) paint_obstacles.
Proof. unfold paint_obstacles. cbv zeta. repeat blind_step. Qed.

Lemma py_float_blind (text : string) : blind (restock img ops ofr) (py_float text).
Proof. unfold py_float. repeat blind_step. Qed.

Lemma paint_safe_region_blind (parent : Parent A) :
  blind (restock img ops ofr) (paint_safe_region parent).
Proof.
  unfold paint_safe_region. cbv zeta.
  apply blind_bind; [apply blind_try_except; [apply py_float_blind|intros ?; apply blind_ret]|].
  intros backoff_val. repeat blind_step.
Qed.

Lemma paint_control_points_blind : blind (restock img ops ofr) paint_control_points.
Proof. unfold paint_control_points. cbv zeta. repeat blind_step. Qed.

Lemma paint_centerline_blind : blind (restock img ops ofr) paint_centerline.
Proof. unfold paint_centerline. cbv zeta. repeat blind_step. Qed.

Lemma paint_boundary_blind (b : option (list (Pt A))) (color : QColor) :
  blind (restock img ops ofr) (paint_boundary b color).
Proof. unfold paint_boundary. cbv zeta. repeat blind_step. Qed.

Lemma paint_boundaries_blind : blind (restock img ops ofr) paint_boundaries.
Proof.
  unfold paint_boundaries. apply blind_read; [intros ?; reflexivity|intros s].
  apply blind_bind; [apply paint_boundary_blind|intros _; apply paint_boundary_blind].
Qed.

Lemma paint_boundary_cones_blind (parent : Parent A) (spacing : A)
  (b : option (list (Pt A))) (color : QColor) :
  blind (restock img ops ofr) (paint_boundary_cones parent spacing b color).
Proof. unfold paint_boundary_cones. cbv zeta. repeat blind_step. Qed.

Lemma paint_cones_blind (parent : Parent A) :
  blind (restock img ops ofr) (paint_cones parent).
Proof.
  unfold paint_cones.
  apply blind_bind; [apply blind_try_except; [apply py_float_blind|intros ?; apply blind_ret]|].
  intros spacing. apply blind_read; [intros ?; reflexivity|intros s].
  apply blind_bind; [apply paint_boundary_cones_blind|].
  intros _. apply paint_boundary_cones_blind.
Qed.

(** The blocks after the image. *)
Lemma paint_layers_blind (parent : Parent A) :
  blind (restock img ops ofr)
    (bind paint_obstacles (fun _ =>
     bind (paint_safe_region parent) (fun _ =>
     bind paint_control_points (fun _ =>
     bind paint_centerline (fun _ =>
     bind paint_boundaries (fun _ => paint_cones parent)))))).
Proof.
  apply blind_bind; [apply paint_obstacles_blind|intros _].
  apply blind_bind; [apply paint_safe_region_blind|intros _].
  apply blind_bind; [apply paint_control_points_blind|intros _].
  apply blind_bind; [apply paint_centerline_blind|intros _].
  apply blind_bind; [apply paint_boundaries_blind|intros _].
  apply paint_cones_blind.
Qed.

(** The image block overwrites the scales it is entered with. *)
Lemma paint_image_unread (width height : Z) (sx sy : A) (c : Canvas A) :
  let c' := set_scale_x sx (set_scale_y sy (restock img ops ofr c)) in
  outcome (paint_image width height c') = outcome (paint_image width height c) /\
  calls (paint_image width height c') = calls (paint_image width height c) /\
  (outcome (paint_image width height c) = Ok tt ->
   after (paint_image width height c')
   = restock img ops ofr (after (paint_image width height c))).
Proof.
  cbv zeta. unfold paint_image, bind, self, lift, assign, call. cbn.
  destruct (binary_map c) as [bm|]; cbn;
    [|split; [reflexivity|split; [reflexivity|discriminate]]].
  destruct (truediv_int _ (snd (shape bm))) as [vx|e]; cbn;
    [|split; [reflexivity|split; [reflexivity|discriminate]]].
  destruct (truediv_int _ (fst (shape bm))) as [vy|e]; cbn;
    [|split; [reflexivity|split; [reflexivity|discriminate]]].
  split; [reflexivity|]. split; [reflexivity|]. intros _. reflexivity.
Qed.

Lemma paintEvent_unread (parent : Parent A) (width height : Z) (sx sy : A)
  (c : Canvas A) :
  let c' := set_scale_x sx (set_scale_y sy (restock img ops ofr c)) in
  outcome (paintEvent parent width height c') = outcome (paintEvent parent width height c) /\
  calls (paintEvent parent width height c') = calls (paintEvent parent width height c).
Proof.
  cbv zeta. unfold paintEvent.
  destruct (paint_image_unread width height sx sy c) as (Ho & Hc & Ha).
  cbv zeta in Ho, Hc, Ha.
  apply (bind_unread (f := restock img ops ofr)); [exact Ho|exact Hc| |].
  - intros []. exact Ha.
  - intros _. apply paint_layers_blind.
Qed.

End Unread.

(** X13.  [paintEvent] reads neither the scales it is entered with nor the
    attributes [sat_image], [obstacle_polygons] and [original_free_region]:
    whatever these five hold, it returns or raises the same and makes the
    same calls.  The obstacles drawn are those of
    [original_obstacle_polygons], the safe region is that of [free_region]. *)
Theorem paintEvent_unread_attributes :
  forall (A : Type) (N : Num A) (Ty : Types) (T : Toolkit A Ty) (parent : Parent A)
         (width height : Z) (sx sy : A) (img : QImage) (ops : list (polygon A))
         (ofr : option Polygon) (c : Canvas A),
    let c' :=
      mkCanvas sx sy (offset_x c) (offset_y c) img (sat_pixmap c) (binary_map c)
        ops (free_region c) (original_obstacle_polygons c) ofr (control_points c)
        (centerline c) (left_boundary c) (right_boundary c) (boundaries_swapped c) in
    outcome (paintEvent parent width height c') = outcome (paintEvent parent width height c) /\
    calls (paintEvent parent width height c') = calls (paintEvent parent width height c).
Proof.
  intros A N Ty T parent width height sx sy img ops ofr c.
  exact (paintEvent_unread img ops ofr parent width height sx sy c).
Qed.
